(** * gama/utilities/auto_ensemble.py: the ensemble-construction engine

    A shallow embedding of [Ensemble], [load_predictions] and the numpy
    operations they use, followed by the properties of the selection,
    merging, blending and pickling code.

    Numbers.  Python floats are modelled by exact rationals ([Q]); integer
    weights and counts by [Z].  Equalities between computed arrays are stated
    up to [Qeq] where arithmetic is rearranged. *)

From Stdlib Require Import String Ascii.
From Stdlib Require Import List ZArith QArith Qround Lia Bool.
From Stdlib Require Import Permutation Sorted Setoid Morphisms.
Import ListNotations.

(** ** Exceptions and results *)

Inductive exn : Type :=
| ValueError
| UnboundLocalError
| AttributeError
| TypeError
| IndexError
| OSError
| EOFError
| UnpicklingError.

Inductive res (A : Type) : Type :=
| OK (a : A)
| Raise (e : exn).

Arguments OK {A} a.
Arguments Raise {A} e.

Definition bindR {A B : Type} (r : res A) (k : A -> res B) : res B :=
  match r with
  | OK a => k a
  | Raise e => Raise e
  end.

(** [mapR f l] runs [f] over [l] from left to right and stops at the first
    exception, as a Python loop or comprehension does. *)
Fixpoint mapR {A B : Type} (f : A -> res B) (l : list A) : res (list B) :=
  match l with
  | [] => OK []
  | x :: xs => bindR (f x) (fun y => bindR (mapR f xs) (fun ys => OK (y :: ys)))
  end.

(** ** numpy arrays

    An array is its shape and its row-major data buffer.  Validation
    predictions are vectors (regression) or matrices (class probabilities). *)
Module Np.

Inductive shape_t : Type :=
| Shape1 (n : nat)
| Shape2 (n k : nat).

Record ndarray : Type := mk_ndarray { shape : shape_t; data : list Q }.

Definition shape_eqb (s t : shape_t) : bool :=
  match s, t with
  | Shape1 n, Shape1 m => Nat.eqb n m
  | Shape2 n k, Shape2 m j => Nat.eqb n m && Nat.eqb k j
  | _, _ => false
  end.

(** Two arrays agree in shape when the shapes are equal and the buffers
    have the same length (the second follows from the first for arrays
    numpy can build). *)
Definition same_shape (a b : ndarray) : bool :=
  shape_eqb (shape a) (shape b) && Nat.eqb (length (data a)) (length (data b)).

Fixpoint zip_with (f : Q -> Q -> Q) (xs ys : list Q) : list Q :=
  match xs, ys with
  | x :: xs', y :: ys' => f x y :: zip_with f xs' ys'
  | _, _ => []
  end.

(** [a * w] for a scalar [w]. *)
Definition mul_scalar (a : ndarray) (w : Q) : ndarray :=
  mk_ndarray (shape a) (map (fun x => x * w)%Q (data a)).

(** [a / w] for a scalar [w].  numpy yields inf or nan (and a warning, not
    an exception) when [w] is zero; [Q] has no such values, so every
    statement about a quotient is made where the divisor is not zero. *)
Definition div_scalar (a : ndarray) (w : Q) : ndarray :=
  mk_ndarray (shape a) (map (fun x => x / w)%Q (data a)).

(** Elementwise operations of two arrays of one shape.  numpy broadcasts
    some unequal shapes and raises ValueError on the others; broadcasting is
    outside the model, which raises on every mismatch. *)
Definition elementwise (f : Q -> Q -> Q) (a b : ndarray) : res ndarray :=
  if same_shape a b
  then OK (mk_ndarray (shape a) (zip_with f (data a) (data b)))
  else Raise ValueError.

Definition add := elementwise Qplus.
Definition sub := elementwise Qminus.

(** [np.stack(arrays)]: raises ValueError on an empty sequence and on
    arrays whose shapes differ.  The stacked array is kept as the list of
    its slices along the new first axis. *)
Definition stack (arrays : list ndarray) : res (list ndarray) :=
  match arrays with
  | [] => Raise ValueError
  | a :: rest =>
      if forallb (same_shape a) rest then OK arrays else Raise ValueError
  end.

Definition add_slices (a b : ndarray) : ndarray :=
  mk_ndarray (shape a) (zip_with Qplus (data a) (data b)).

(** [np.sum(stacked, axis=0)] of a stacked array: the slices are added in
    the order of the list.  Over floats that order shows in the last place
    of the result; over the exact rationals used here it does not, so
    nothing is stated about reordering the slices. *)
Definition sum_axis0 (stacked : list ndarray) : ndarray :=
  match stacked with
  | [] => mk_ndarray (Shape1 0) []
  | a :: rest => fold_left add_slices rest a
  end.

(** Rows of a matrix buffer with [k] columns. *)
Fixpoint rows (n k : nat) (buf : list Q) : list (list Q) :=
  match n with
  | O => []
  | S n' => firstn k buf :: rows n' k (skipn k buf)
  end.

(** Index of the first maximum of a non-empty row, scanning from index [i]
    with the incumbent maximum [best] found at index [at_]. *)
Fixpoint argmax_from (i at_ : nat) (best : Q) (row : list Q) : nat :=
  match row with
  | [] => at_
  | x :: xs =>
      if Qlt_le_dec best x
      then argmax_from (S i) i x xs
      else argmax_from (S i) at_ best xs
  end.

Definition argmax_row (row : list Q) : res nat :=
  match row with
  | [] => Raise ValueError
  | x :: xs => OK (argmax_from 1 0 x xs)
  end.

Fixpoint one_at (k pos : nat) : list Q :=
  match k with
  | O => []
  | S k' =>
      match pos with
      | O => 1%Q :: repeat 0%Q k'
      | S pos' => 0%Q :: one_at k' pos'
      end
  end.

(** The indicator array built in [load_predictions] when [argmax_pred] is
    set: [np.argmax(predictions, axis=1)], then a zero array of the same
    shape with a one at each row's argmax.  A vector has no axis 1. *)
Definition argmax_indicator (a : ndarray) : res ndarray :=
  match shape a with
  | Shape1 _ => Raise ValueError
  | Shape2 n k =>
      bindR (mapR argmax_row (rows n k (data a)))
            (fun hard => OK (mk_ndarray (Shape2 n k)
                               (concat (map (one_at k) hard))))
  end.

(** Equality of arrays up to [Qeq] on the entries. *)
Definition equiv (a b : ndarray) : Prop :=
  shape a = shape b /\ Forall2 Qeq (data a) (data b).

End Np.

Import Np.

Close Scope Q_scope.
Open Scope string_scope.
Open Scope list_scope.

(** ** Strings *)

(** [s.endswith(suffix)]. *)
Definition endswith (s suffix : string) : bool :=
  let n := String.length s in
  let k := String.length suffix in
  Nat.leb k n && String.eqb (substring (n - k) k s) suffix.

(** [sub in s]: the substring test. *)
Fixpoint contains (sub s : string) : bool :=
  prefix sub s
  || match s with
     | EmptyString => false
     | String _ s' => contains sub s'
     end.

(** ** Data model *)

(** A pipeline is an opaque object; it is known by its identity, which is
    the key Python hashes it by. *)
Definition Pipeline : Type := nat.

(** [Model = namedtuple("Model", ['name', 'pipeline', 'predictions',
    'validation_score'])]. *)
Record Model : Type := mkModel {
  name : string;
  pipeline : Pipeline;
  predictions : ndarray;
  validation_score : Q
}.

(** Modelled from the spec: the [Metric] namedtuple is declared in
    gama.ea.evaluation, which is not among the sources.  The code reads its
    [name], rebuilds it as [Metric(name, None, *rest)] (so the scoring
    function is the second field) and reads the flags [is_classification]
    and [is_regression]; the function is kept as a reference by name. *)
Record Metric : Type := mkMetric {
  metric_name : string;
  metric_function : option string;
  is_classification : bool;
  is_regression : bool
}.

(** The Weighted Model Set [self._models]: a Python dict from pipeline to
    [(model, weight)], kept in insertion order. *)
Definition dict : Type := list (Pipeline * (Model * Z)).

Definition keys (d : dict) : list Pipeline := map fst d.
Definition values (d : dict) : list (Model * Z) := map snd d.

(** [d.pop(k, default)]: the value under [k] and the dict without it. *)
Fixpoint dict_pop (k : Pipeline) (d : dict) : option ((Model * Z) * dict) :=
  match d with
  | [] => None
  | (k', v) :: d' =>
      if Nat.eqb k k' then Some (v, d')
      else match dict_pop k d' with
           | Some (v', d'') => Some (v', (k', v) :: d'')
           | None => None
           end
  end.

(** [d[k] = v]: replaces in place, or appends a new key. *)
Fixpoint dict_set (k : Pipeline) (v : Model * Z) (d : dict) : dict :=
  match d with
  | [] => [(k, v)]
  | (k', v') :: d' =>
      if Nat.eqb k k' then (k, v) :: d' else (k', v') :: dict_set k v d'
  end.

Fixpoint dict_get (k : Pipeline) (d : dict) : option (Model * Z) :=
  match d with
  | [] => None
  | (k', v) :: d' => if Nat.eqb k k' then Some v else dict_get k d'
  end.

(** The state of an [Ensemble] object: its attributes, as [__init__] sets
    them.  An attribute that [__getstate__] may set to [None] is an option. *)
#[warnings="-register-all"]
Inductive Ensemble : Type := mkEnsemble {
  _metric : Metric;
  _model_library_directory : option string;
  _model_library : option (list Model);
  _shrink_on_pickle : bool;
  _n_jobs : Z;
  _y_true : list Z;
  _label_encoder : option nat;
  _fit_models : option (list (Pipeline * Z));
  _maximize : bool;
  _child_ensembles : option (list Ensemble);
  _child_ensemble_model_fraction : Q;
  _models : option dict
}.

Definition set_metric (v : Metric) (e : Ensemble) : Ensemble :=
  mkEnsemble v (_model_library_directory e) (_model_library e)
    (_shrink_on_pickle e) (_n_jobs e) (_y_true e) (_label_encoder e)
    (_fit_models e) (_maximize e) (_child_ensembles e)
    (_child_ensemble_model_fraction e) (_models e).

Definition set_model_library (v : option (list Model)) (e : Ensemble) : Ensemble :=
  mkEnsemble (_metric e) (_model_library_directory e) v
    (_shrink_on_pickle e) (_n_jobs e) (_y_true e) (_label_encoder e)
    (_fit_models e) (_maximize e) (_child_ensembles e)
    (_child_ensemble_model_fraction e) (_models e).

Definition set_child_ensembles (v : option (list Ensemble)) (e : Ensemble) : Ensemble :=
  mkEnsemble (_metric e) (_model_library_directory e) (_model_library e)
    (_shrink_on_pickle e) (_n_jobs e) (_y_true e) (_label_encoder e)
    (_fit_models e) (_maximize e) v
    (_child_ensemble_model_fraction e) (_models e).

Definition set_models (v : option dict) (e : Ensemble) : Ensemble :=
  mkEnsemble (_metric e) (_model_library_directory e) (_model_library e)
    (_shrink_on_pickle e) (_n_jobs e) (_y_true e) (_label_encoder e)
    (_fit_models e) (_maximize e) (_child_ensembles e)
    (_child_ensemble_model_fraction e) v.

(** A file of the cache directory: its name, what [os.stat] reports as its
    size, and what [pickle.load] returns on it (or raises). *)
Record file : Type := mkFile {
  file_name : string;
  st_size : Z;
  pickled : res (Pipeline * ndarray * Q)
}.

(** ** Logging *)

Inductive level : Type := DEBUG | INFO | WARNING.

(** A log record: its level and the message template (the formatted
    arguments are left out). *)
Record log_record : Type := mkLog { log_level : level; log_message : string }.

Definition log : Type := list log_record.

(** ** The collaborators of the module

    What the code calls but does not define: the metric's [evaluate], the
    string of a pipeline, the file system, the pipelines' prediction methods
    and sklearn's one-hot encoder. *)
Class World : Type := {
  features : Type;
  (** [evaluate(metric, y_true, predictions)] *)
  evaluate : Metric -> list Z -> ndarray -> Q;
  (** [str(pl)] *)
  str : Pipeline -> string;
  (** [os.listdir(cache_dir)], with each file's size and pickled content *)
  listdir : option string -> res (list file);
  (** [model.predict_proba], when the fitted pipeline has the attribute *)
  predict_proba_of : Pipeline -> option (features -> res ndarray);
  (** [model.predict] *)
  predict_of : Pipeline -> features -> res ndarray;
  (** [OneHotEncoder(n).fit_transform(t.reshape(-1, 1)).todense()] *)
  one_hot : nat -> ndarray -> res ndarray
}.

(** ** The monad of methods

    A method reads and updates [self] and appends to the log; an exception
    leaves both as they were when it was raised. *)
Definition M (A : Type) : Type := Ensemble -> log -> res A * Ensemble * log.

Definition ret {A : Type} (a : A) : M A := fun self lg => (OK a, self, lg).

Definition raise {A : Type} (e : exn) : M A := fun self lg => (Raise e, self, lg).

Definition bind {A B : Type} (m : M A) (k : A -> M B) : M B :=
  fun self lg =>
    match m self lg with
    | (OK a, self', lg') => k a self' lg'
    | (Raise e, self', lg') => (Raise e, self', lg')
    end.

Notation "x <- m ;; k" := (bind m (fun x => k))
  (at level 61, m at next level, right associativity).
Notation "m ;;; k" := (bind m (fun _ => k))
  (at level 61, right associativity).

Definition get : M Ensemble := fun self lg => (OK self, self, lg).
Definition modify (f : Ensemble -> Ensemble) : M unit :=
  fun self lg => (OK tt, f self, lg).
Definition emit (l : level) (msg : string) : M unit :=
  fun self lg => (OK tt, self, lg ++ [mkLog l msg]).
Definition liftR {A : Type} (r : res A) : M A :=
  fun self lg => (r, self, lg).

(** [for x in l: body(x)]. *)
Fixpoint for_each {A : Type} (l : list A) (body : A -> M unit) : M unit :=
  match l with
  | [] => ret tt
  | x :: xs => body x ;;; for_each xs body
  end.

(** A comprehension [[f(x) for x in l]] whose element expression has
    effects. *)
Fixpoint mapM {A B : Type} (f : A -> M B) (l : list A) : M (list B) :=
  match l with
  | [] => ret []
  | x :: xs => y <- f x ;; ys <- mapM f xs ;; ret (y :: ys)
  end.

(** A method call on another object: [act] runs on [obj], the log is
    shared, and the caller's [self] is untouched.  The callee's final state
    is returned with its result. *)
Definition on_object {A : Type} (obj : Ensemble) (act : M A) : M (A * Ensemble) :=
  fun self lg =>
    match act obj lg with
    | (OK a, obj', lg') => (OK (a, obj'), self, lg')
    | (Raise e, _, lg') => (Raise e, self, lg')
    end.

(** ** Scores and sorting *)

Definition Qltb (x y : Q) : bool := negb (Qle_bool y x).

(** The running best score of [add_models]: a float that starts at
    [-float('inf')] or [float('inf')]. *)
Inductive float_score : Type :=
| NegInf
| Finite (q : Q)
| PosInf.

(** [best < candidate] and [best > candidate] for a finite candidate. *)
Definition score_lt (best : float_score) (candidate : Q) : bool :=
  match best with
  | NegInf => true
  | Finite b => Qltb b candidate
  | PosInf => false
  end.

Definition score_gt (best : float_score) (candidate : Q) : bool :=
  match best with
  | NegInf => false
  | Finite b => Qltb candidate b
  | PosInf => true
  end.

(** [sorted(l, key=key)]: Python's sort is stable and ascending, and
    compares keys with [<] only.  Insertion from the right keeps an element
    before the later elements of equal key. *)
Fixpoint insert_by (key : Model -> Q) (x : Model) (l : list Model) : list Model :=
  match l with
  | [] => [x]
  | y :: l' => if Qltb (key y) (key x) then y :: insert_by key x l' else x :: l
  end.

Definition sorted (key : Model -> Q) (l : list Model) : list Model :=
  fold_right (insert_by key) [] l.

(** [int(q)]: truncation toward zero. *)
Definition int_of_Q (q : Q) : Z := Z.quot (Qnum q) (Zpos (Qden q)).

(** [sum(l)] of integers. *)
Definition sum (l : list Z) : Z := fold_left Z.add l 0%Z.

(** ** load_predictions *)

Section Code.

Context {W : World}.

(** One iteration of the loop over the directory.  The state is the list
    [models] and the local variables [pl, predictions, score], which are
    unbound until a first file has been unpickled.  For a file with the
    extension, [os.path.join(cache_dir, file)] comes first: it raises
    TypeError when [cache_dir] is None (which [os.listdir] accepts).  The
    [append] follows the source's indentation: it is in the body of the
    extension test, after (not inside) the size test. *)
Definition load_file (cache_dir : option string) (argmax_pred : bool)
    (st : list Model * option (Pipeline * ndarray * Q)) (f : file)
    : res (list Model * option (Pipeline * ndarray * Q)) :=
  let '(models, bound) := st in
  if endswith (file_name f) ".pkl" then
    match cache_dir with
    | None => Raise TypeError
    | Some _ =>
        bindR
          (if (0 <? st_size f)%Z then
             bindR (pickled f) (fun '(pl, preds, score) =>
             bindR (if argmax_pred then argmax_indicator preds else OK preds)
                   (fun preds' => OK (Some (pl, preds', score))))
           else OK bound)
          (fun bound' =>
             match bound' with
             | None => Raise UnboundLocalError
             | Some (pl, preds, score) =>
                 OK (models ++ [mkModel (str pl) pl preds score], bound')
             end)
    end
  else OK st.

Fixpoint load_files (cache_dir : option string) (argmax_pred : bool)
    (files : list file)
    (st : list Model * option (Pipeline * ndarray * Q))
    : res (list Model) :=
  match files with
  | [] => OK (fst st)
  | f :: rest =>
      bindR (load_file cache_dir argmax_pred st f)
            (load_files cache_dir argmax_pred rest)
  end.

Definition load_predictions (cache_dir : option string) (argmax_pred : bool)
    : res (list Model) :=
  bindR (listdir cache_dir)
        (fun files => load_files cache_dir argmax_pred files ([], None)).

(** ** Ensemble *)

(** [Ensemble.__init__], for a metric given as a [Metric]. *)
Definition __init__ (metric : Metric) (y_true : list Z)
    (model_library : option (list Model))
    (model_library_directory : option string)
    (shrink_on_pickle : bool) (n_jobs : Z) (label_encoder : option nat)
    (lg : log) : res Ensemble * log :=
  match model_library, model_library_directory with
  | None, None => (Raise ValueError, lg)
  | _, _ =>
      let lg' :=
        match model_library, model_library_directory with
        | Some _, Some _ =>
            lg ++ [mkLog WARNING "model_library_directory will be ignored because model_library is also specified."]
        | _, _ => lg
        end in
      (OK (mkEnsemble metric model_library_directory
             (Some (match model_library with Some l => l | None => [] end))
             shrink_on_pickle n_jobs y_true label_encoder
             None true (Some []) (3 # 10)%Q (Some [])),
       lg')
  end.

(** The truth value of a list-or-None attribute. *)
Definition truthy {A : Type} (o : option (list A)) : bool :=
  match o with
  | Some (_ :: _) => true
  | _ => false
  end.

(** The property [model_library]: loads the library from disk when the
    attribute is empty (or None), and caches it. *)
Definition model_library : M (list Model) :=
  self <- get ;;
  (if truthy (_model_library self) then ret tt
   else
     emit DEBUG "Loading model library from disk." ;;;
     lib <- liftR (load_predictions (_model_library_directory self) false) ;;
     modify (set_model_library (Some lib))) ;;;
  self <- get ;;
  match _model_library self with
  | Some lib => ret lib
  | None => ret []
  end.

(** [self._models], or the AttributeError of a method call on [None]. *)
Definition models_dict : M dict :=
  self <- get ;;
  match _models self with
  | Some d => ret d
  | None => raise AttributeError
  end.

Definition _total_model_weights : M Z :=
  d <- models_dict ;;
  ret (sum (map (fun '(model, weight) => weight) (values d))).

Definition _averaged_validation_predictions : M ndarray :=
  d <- models_dict ;;
  weighted_predictions <-
    liftR (stack (map (fun '(model, weight) =>
                         mul_scalar (predictions model) (inject_Z weight))
                      (values d))) ;;
  total <- _total_model_weights ;;
  ret (div_scalar (sum_axis0 weighted_predictions) (inject_Z total)).

(** The dict update of [_add_model]: [pop] with the default [(model, 0)]
    rebinds [model] to the stored record, under whose pipeline the new
    weight is then stored. *)
Definition add_to (model : Model) (add_weight : Z) (d : dict) : dict :=
  match dict_pop (pipeline model) d with
  | Some ((stored, weight), d') =>
      dict_set (pipeline stored) (stored, (weight + add_weight)%Z) d'
  | None =>
      dict_set (pipeline model) (model, (0 + add_weight)%Z) d
  end.

Definition _add_model (model : Model) (add_weight : Z) : M unit :=
  d <- models_dict ;;
  modify (set_models (Some (add_to model add_weight d))) ;;;
  emit INFO "Assigned a weight of {} to model {}".

(** The score of a single library model on the validation set. *)
Definition individual_score (self : Ensemble) (m : Model) : Q :=
  evaluate (_metric self) (_y_true self) (predictions m).

Definition build_initial_ensemble (n : Z) : M unit :=
  if negb (0 <? n)%Z then raise ValueError
  else
    self <- get ;;
    (if truthy (_models self) then
       emit WARNING "The ensemble already contained models. Overwriting the ensemble." ;;;
       modify (set_models (Some []))
     else ret tt) ;;;
    library <- model_library ;;
    self <- get ;;
    let sorted_ensembles := sorted (individual_score self) library in
    let sorted_ensembles :=
      if _maximize self then rev sorted_ensembles else sorted_ensembles in
    let selected_models := firstn (Z.to_nat n) sorted_ensembles in
    for_each selected_models (fun model => _add_model model 1%Z) ;;;
    average <- _averaged_validation_predictions ;;
    emit DEBUG "Initial ensemble created with score {}".

(** [current_weighted_average + (model.predictions -
    current_weighted_average) / (current_total_weight + 1)]. *)
Definition candidate_pred (current_weighted_average : ndarray)
    (current_total_weight : Z) (model : Model) : res ndarray :=
  bindR (sub (predictions model) current_weighted_average) (fun diff =>
  add current_weighted_average
      (div_scalar diff (inject_Z (current_total_weight + 1)))).

(** The body of the loop over the library, on the local variables
    [best_addition] (unbound before a first assignment) and
    [best_addition_score]. *)
Definition consider (self : Ensemble) (current_weighted_average : ndarray)
    (current_total_weight : Z)
    (st : option Model * float_score) (model : Model)
    : res (option Model * float_score) :=
  let '(best_addition, best_addition_score) := st in
  if Qeq_bool (validation_score model) 0%Q then OK st
  else
    bindR (candidate_pred current_weighted_average current_total_weight model)
      (fun pred =>
         let candidate_ensemble_score :=
           evaluate (_metric self) (_y_true self) pred in
         if (_maximize self && score_lt best_addition_score candidate_ensemble_score)
            || (negb (_maximize self) && score_gt best_addition_score candidate_ensemble_score)
         then OK (Some model, Finite candidate_ensemble_score)
         else OK st).

Fixpoint scan_library (self : Ensemble) (current_weighted_average : ndarray)
    (current_total_weight : Z) (library : list Model)
    (st : option Model * float_score) : res (option Model * float_score) :=
  match library with
  | [] => OK st
  | model :: rest =>
      bindR (consider self current_weighted_average current_total_weight st model)
            (scan_library self current_weighted_average current_total_weight rest)
  end.

(** One iteration of the outer loop of [add_models].  [best_addition] is a
    local of the whole function, so its binding (if any) enters each
    iteration and leaves it. *)
Definition add_models_step (best_addition : option Model) : M (option Model) :=
  self <- get ;;
  let best_addition_score := if _maximize self then NegInf else PosInf in
  current_weighted_average <- _averaged_validation_predictions ;;
  current_total_weight <- _total_model_weights ;;
  library <- model_library ;;
  self <- get ;;
  st <- liftR (scan_library self current_weighted_average current_total_weight
                 library (best_addition, best_addition_score)) ;;
  match fst st with
  | None => raise UnboundLocalError
  | Some model =>
      _add_model model 1%Z ;;;
      size <- _total_model_weights ;;
      emit DEBUG "Ensemble size {} , best score: {}" ;;;
      ret (fst st)
  end.

Fixpoint add_models_loop (n : nat) (best_addition : option Model) : M unit :=
  match n with
  | O => ret tt
  | S n' =>
      best_addition' <- add_models_step best_addition ;;
      add_models_loop n' best_addition'
  end.

Definition add_models (n : Z) : M unit :=
  if negb (0 <? n)%Z then raise ValueError
  else add_models_loop (Z.to_nat n) None.

(** [self.model_library[idx]]. *)
Definition library_item (idx : nat) : M Model :=
  library <- model_library ;;
  match nth_error library idx with
  | Some model => ret model
  | None => raise IndexError
  end.

(** The merge that ends [build_]: every [(model, weight)] of every child's
    Weighted Model Set is added to this ensemble's set. *)
Definition merge_children (children : list Ensemble) : M unit :=
  for_each children (fun child_ensemble =>
    match _models child_ensemble with
    | None => raise AttributeError
    | Some d =>
        for_each (values d) (fun '(model, weight) => _add_model model weight)
    end).

(** One bagging round.  [draw] stands for
    [np.random.choice(range(N), size=subset_n, replace=False)]: it is given
    the population size and the sample size and returns the drawn indices;
    numpy raises ValueError for a negative sample size and for one larger
    than the population. *)
Definition build_round (draw : nat -> nat -> list nat)
    (start_size total_size : Z) : M unit :=
  emit DEBUG "Constructing ensemble {}/{}." ;;;
  library <- model_library ;;
  self <- get ;;
  let subset_n :=
    int_of_Q (_child_ensemble_model_fraction self * inject_Z (Z.of_nat (length library)))%Q in
  library' <- model_library ;;
  (if (subset_n <? 0)%Z || (Z.of_nat (length library') <? subset_n)%Z
   then raise ValueError else ret tt) ;;;
  let model_subset_indices := draw (length library') (Z.to_nat subset_n) in
  model_subset <- mapM library_item model_subset_indices ;;
  self <- get ;;
  child_ensemble <-
    (fun self lg =>
       let '(r, lg') :=
         __init__ (_metric self) (_y_true self) (Some model_subset) None
                  true 1%Z None lg in
       (r, self, lg')) ;;
  built <- on_object child_ensemble
             (build_initial_ensemble start_size ;;;
              add_models (total_size - start_size)%Z) ;;
  self <- get ;;
  match _child_ensembles self with
  | None => raise AttributeError
  | Some children =>
      modify (set_child_ensembles (Some (children ++ [snd built])))
  end.

(** [build_]; [draws i] is the random draw of round [i]. *)
Definition build_ (draws : nat -> nat -> nat -> list nat)
    (n_ensembles start_size total_size : Z) : M unit :=
  for_each (seq 0 (Z.to_nat n_ensembles))
           (fun i => build_round (draws i) start_size total_size) ;;;
  modify (set_models (Some [])) ;;;
  self <- get ;;
  match _child_ensembles self with
  | None => raise TypeError
  | Some children => merge_children children
  end.

(** The contribution of one fitted pipeline to [predictions] in
    [predict_proba]: nothing for weight 0, otherwise its output times its
    weight.  [raise NotImplemented(...)] is a TypeError, [NotImplemented]
    not being callable. *)
Definition raw_output (self : Ensemble) (X : features) (model : Pipeline)
    : res ndarray :=
  match predict_proba_of model with
  | Some proba => proba X
  | None =>
      bindR (predict_of model X) (fun target_prediction =>
        if is_classification (_metric self) then
          one_hot (length (nodup Z.eq_dec (_y_true self))) target_prediction
        else if is_regression (_metric self) then OK target_prediction
        else Raise TypeError)
  end.

Fixpoint scaled_outputs (self : Ensemble) (X : features)
    (fit_models : list (Pipeline * Z)) : res (list ndarray) :=
  match fit_models with
  | [] => OK []
  | (model, weight) :: rest =>
      if (weight =? 0)%Z then scaled_outputs self X rest
      else
        bindR (raw_output self X model) (fun out =>
        bindR (scaled_outputs self X rest) (fun outs =>
        OK (mul_scalar out (inject_Z weight) :: outs)))
  end.

Definition predict_proba (self : Ensemble) (X : features) : res ndarray :=
  match _fit_models self with
  | None => Raise TypeError
  | Some fit_models =>
      bindR (scaled_outputs self X fit_models) (fun predictions =>
        if Nat.eqb (length fit_models) 1 then
          match predictions with
          | p :: _ => OK p
          | [] => Raise IndexError
          end
        else
          bindR (stack predictions) (fun all_predictions =>
            let actual_weight_sum := sum (map snd fit_models) in
            OK (div_scalar (sum_axis0 all_predictions)
                           (inject_Z actual_weight_sum))))
  end.

(** [__getstate__]: returns the pickled state, a copy of the attributes
    after the updates it makes to [self]. *)
Definition __getstate__ : M Ensemble :=
  self <- get ;;
  (if contains "neg" (metric_name (_metric self)) then
     modify (set_metric (mkMetric (metric_name (_metric self)) None
                                  (is_classification (_metric self))
                                  (is_regression (_metric self))))
   else ret tt) ;;;
  self <- get ;;
  (if _shrink_on_pickle self then
     emit INFO "Shrinking before pickle because shrink_on_pickle is True.Removing anything that is not needed for predict-functionality.Functionality to expand ensemble after unpickle is not available." ;;;
     modify (set_models None) ;;;
     modify (set_model_library None) ;;;
     modify (set_child_ensembles None)
   else ret tt) ;;;
  get.

End Code.

(** ** Vocabulary of the properties *)

(** The total weight of a Weighted Model Set. *)
Definition total (d : dict) : Z :=
  sum (map (fun '(model, weight) => weight) (values d)).

(** The set obtained from [d] by a sequence of additions. *)
Definition replay (adds : list (Model * Z)) (d : dict) : dict :=
  fold_left (fun d' '(model, weight) => add_to model weight d') adds d.

(** The weight recorded for pipeline [p]: the sum over the entries under
    that key (there is at most one in a well-formed set). *)
Fixpoint weight_of (p : Pipeline) (d : dict) : Z :=
  match d with
  | [] => 0%Z
  | (k, (_, w)) :: d' =>
      if Nat.eqb p k then (w + weight_of p d')%Z else weight_of p d'
  end.

(** The weight a sequence of additions gives to pipeline [p]. *)
Fixpoint added_to (p : Pipeline) (adds : list (Model * Z)) : Z :=
  match adds with
  | [] => 0%Z
  | (m, w) :: adds' =>
      if Nat.eqb p (pipeline m) then (w + added_to p adds')%Z
      else added_to p adds'
  end.

(** A dict is well keyed when no key occurs twice and every model is
    stored under its own pipeline. *)
Definition well_keyed (d : dict) : Prop :=
  NoDup (keys d) /\ Forall (fun e => pipeline (fst (snd e)) = fst e) d.

Definition weights_from_one (d : dict) : Prop :=
  Forall (fun e => (1 <= snd (snd e))%Z) d.

(** The invariant of the Weighted Model Set. *)
Definition wf_dict (d : dict) : Prop := well_keyed d /\ weights_from_one d.

(** The shape of an array together with the length of its buffer. *)
Definition extent (a : ndarray) : shape_t * nat := (shape a, length (data a)).

(** The invariant of an ensemble: its set is well formed, and so are the
    sets of its child ensembles. *)
Definition models_ok (e : Ensemble) : Prop :=
  forall d, _models e = Some d -> wf_dict d.

Definition children_ok (e : Ensemble) : Prop :=
  forall cs, _child_ensembles e = Some cs -> Forall models_ok cs.

Definition inv (e : Ensemble) : Prop := models_ok e /\ children_ok e.

(** Hoare triples of the method monad, with a postcondition for normal
    return and one for each exception. *)
Definition hoare {A : Type} (P : Ensemble -> Prop) (m : M A)
    (Q : A -> Ensemble -> Prop) (E : exn -> Ensemble -> Prop) : Prop :=
  forall self lg, P self ->
    match m self lg with
    | (OK a, self', _) => Q a self'
    | (Raise e, self', _) => E e self'
    end.

(** The selection operations a caller may run on an ensemble. *)
Inductive op : Type :=
| Seed (n : Z)
| StepAdd (n : Z)
| Bagging (draws : nat -> nat -> nat -> list nat)
          (n_ensembles start_size total_size : Z).

Definition run_op {W : World} (o : op) : M unit :=
  match o with
  | Seed n => build_initial_ensemble n
  | StepAdd n => add_models n
  | Bagging draws n_ensembles start_size total_size =>
      build_ draws n_ensembles start_size total_size
  end.

(** A caller running the operations in turn, going on after an exception. *)
Fixpoint run_ops {W : World} (ops : list op) (self : Ensemble) (lg : log)
    : Ensemble * log :=
  match ops with
  | [] => (self, lg)
  | o :: rest =>
      let '(_, self', lg') := run_op o self lg in run_ops rest self' lg'
  end.

(** The number of additions the operations are credited with when seeding
    with [n] counts as [n] additions and stepwise adding [n] as [n]. *)
Fixpoint credited (ops : list op) : Z :=
  match ops with
  | [] => 0%Z
  | Seed n :: rest => (n + credited rest)%Z
  | StepAdd n :: rest => (n + credited rest)%Z
  | Bagging _ _ _ _ :: rest => credited rest
  end.

(** Strictly better, in the direction of the ensemble. *)
Definition better (maximize : bool) (a b : Q) : Prop :=
  if maximize then (b < a)%Q else (a < b)%Q.

(** The score of the candidate aggregate with [model] added. *)
Definition candidate_score {W : World} (self : Ensemble) (average : ndarray)
    (weight : Z) (model : Model) : res Q :=
  bindR (candidate_pred average weight model)
        (fun pred => OK (evaluate (_metric self) (_y_true self) pred)).

(** The weighted average of a set, as [_averaged_validation_predictions]
    computes it. *)
Definition weighted_average (d : dict) : res ndarray :=
  bindR (stack (map (fun '(model, weight) =>
                       mul_scalar (predictions model) (inject_Z weight))
                    (values d)))
        (fun st => OK (div_scalar (sum_axis0 st) (inject_Z (total d)))).

(** ** A concrete world, for examples *)

Definition vec (l : list Q) : ndarray := mk_ndarray (Shape1 (length l)) l.

Definition example_file (nm : string) (size : Z) (pl : Pipeline) (score : Q) : file :=
  mkFile nm size
         (if (0 <? size)%Z then OK (pl, vec [score], score) else Raise EOFError).

(** Scores are read off the first prediction; every pipeline predicts the
    probabilities (1/2, 1/2) for one sample; the directory "cache" holds a
    complete file and a zero-byte one, "interrupted" a zero-byte file only. *)
Definition example_world : World := {|
  features := unit;
  evaluate := fun _ _ a => match data a with x :: _ => x | [] => 0%Q end;
  str := fun _ => "Pipeline";
  listdir := fun dir =>
    match dir with
    | Some "cache" =>
        OK [example_file "a.pkl" 120 1 (9 # 10); example_file "b.pkl" 0 2 (8 # 10)]
    | Some "interrupted" => OK [example_file "b.pkl" 0 2 (8 # 10)]
    | _ => Raise OSError
    end;
  predict_proba_of := fun _ =>
    Some (fun _ => OK (mk_ndarray (Shape2 1 2) [(1 # 2)%Q; (1 # 2)%Q]));
  predict_of := fun _ _ => OK (vec [0%Q]);
  one_hot := fun n t =>
    OK (mk_ndarray (Shape2 (length (data t)) n)
          (concat (map (fun q => one_at n (Z.to_nat (Qfloor q))) (data t))))
|}.

Definition example_metric : Metric := mkMetric "accuracy" (Some "accuracy_score") true false.

Definition example_model (pl : Pipeline) (score : Q) : Model :=
  mkModel "Pipeline" pl (vec [score]) score.

(** A new ensemble over a library held in memory. *)
Definition example_ensemble (library : list Model) : Ensemble :=
  mkEnsemble example_metric None (Some library) true 1%Z [0%Z; 1%Z] None
             None true (Some []) (3 # 10)%Q (Some []).

(** An ensemble whose fit stage left the given Fitted Model Set. *)
Definition fitted_ensemble (fit_models : list (Pipeline * Z)) : Ensemble :=
  mkEnsemble example_metric None (Some []) true 1%Z [0%Z; 1%Z] None
             (Some fit_models) true (Some []) (3 # 10)%Q (Some []).

Definition example_library : list Model :=
  [example_model 1 (9 # 10); example_model 2 (8 # 10); example_model 3 (7 # 10);
   example_model 4 (6 # 10); example_model 5 (5 # 10)].

(** The record [_add_model] logs. *)
Definition added_log : log_record :=
  mkLog INFO "Assigned a weight of {} to model {}".

(** The parts of what a method call leaves behind. *)
Definition result_of {A : Type} (r : res A * Ensemble * log) : res A := fst (fst r).
Definition state_of {A : Type} (r : res A * Ensemble * log) : Ensemble := snd (fst r).
Definition log_of {A : Type} (r : res A * Ensemble * log) : log := snd r.

(** An ensemble over a negated loss, set to shrink when pickled. *)
Definition neg_metric : Metric := mkMetric "neg_log_loss" (Some "log_loss") true false.

Definition neg_ensemble : Ensemble :=
  mkEnsemble neg_metric None (Some example_library) true 1%Z [0%Z; 1%Z] None
             None true (Some []) (3 # 10)%Q (Some []).

Definition half_half : ndarray := mk_ndarray (Shape2 1 2) [(1 # 2)%Q; (1 # 2)%Q].

(** The test of the inner loop of [add_models]: the candidate score
    replaces the running best. *)
Definition beats (maximize : bool) (best : float_score) (candidate : Q) : bool :=
  (maximize && score_lt best candidate)
  || (negb maximize && score_gt best candidate).

(** The running best at the start of a step. *)
Definition initial_score (maximize : bool) : float_score :=
  if maximize then NegInf else PosInf.

(** A model that takes part in the selection. *)
Definition eligible (m : Model) : Prop := Qeq_bool (validation_score m) 0%Q = false.


(** The example library after seeding with its best model. *)
Definition seeded_set : dict := [(1, (example_model 1 (9 # 10), 1%Z))].

Definition seeded_ensemble : Ensemble :=
  set_models (Some seeded_set) (example_ensemble example_library).

Definition seeded_average : ndarray :=
  div_scalar (sum_axis0 [mul_scalar (vec [(9 # 10)%Q]) (inject_Z 1)])
             (inject_Z (total seeded_set)).

(** A library whose only model failed upstream (validation score 0). *)
Definition failed_model : Model := mkModel "Pipeline" 6 (vec [(1 # 2)%Q]) 0%Q.

Definition failed_ensemble : Ensemble :=
  set_models (Some [(6, (failed_model, 1%Z))]) (example_ensemble [failed_model]).

(** The [(model, weight)] pairs of a child ensemble's set, and their total. *)
Definition child_values (c : Ensemble) : list (Model * Z) :=
  match _models c with
  | Some d => values d
  | None => []
  end.

Definition child_total (c : Ensemble) : Z :=
  match _models c with
  | Some d => total d
  | None => 0%Z
  end.

(** Two bagging rounds over the example library; round [i] draws the
    indices i, i+1, ... *)
Definition example_draws (i population size : nat) : list nat :=
  firstn size (seq i population).

Definition example_bagging : res unit * Ensemble * log :=
  build_ (W:=example_world) example_draws 2 1 2
         (example_ensemble example_library) [].


(** The records [build_initial_ensemble] logs. *)
Definition overwrite_log : log_record :=
  mkLog WARNING "The ensemble already contained models. Overwriting the ensemble.".


(** The library in the order [build_initial_ensemble] selects from. *)
Definition ranked {W : World} (self : Ensemble) (library : list Model) : list Model :=
  if _maximize self
  then rev (sorted (individual_score self) library)
  else sorted (individual_score self) library.

(** A call keeps [I] when [I] holds after it, on normal return and on an
    exception, provided it held before. *)
Definition keeps {A : Type} (I : Ensemble -> Prop) (m : M A) : Prop :=
  hoare I m (fun _ s => I s) (fun _ s => I s).

(** A library of two models. *)
Definition small_library : list Model :=
  [example_model 1 (9 # 10); example_model 2 (8 # 10)].

(** The entry at index [i] of an array's buffer. *)
Definition entry (i : nat) (a : ndarray) : Q := nth i (data a) 0%Q.

(** The sum of a list of numbers. *)
Definition Qsum (l : list Q) : Q := fold_right Qplus 0%Q l.

(** The weighted sum of the predictions of a set, at index [i]:
    the sum over the entries of [predictions * weight]. *)
Definition weighted_sum_at (i : nat) (d : dict) : Q :=
  Qsum (map (fun e => (entry i (predictions (fst (snd e)))
                       * inject_Z (snd (snd e)))%Q) d).

(** The attributes that the selection methods read and never assign:
    everything but [_models], [_model_library] and [_child_ensembles]. *)
Definition configuration (e : Ensemble)
    : Metric * option string * bool * Z * list Z * option nat
      * option (list (Pipeline * Z)) * bool * Q :=
  (_metric e, _model_library_directory e, _shrink_on_pickle e, _n_jobs e,
   _y_true e, _label_encoder e, _fit_models e, _maximize e,
   _child_ensemble_model_fraction e).

(** The test of [load_predictions] on a file name. *)
Definition is_pkl (f : file) : bool := endswith (file_name f) ".pkl".

(** A record is the one [load_predictions] makes of a file: the pickled
    pipeline, predictions and score, under the pipeline's string. *)
Definition record_of_file {W : World} (m : Model) (f : file) : Prop :=
  pickled f = OK (pipeline m, predictions m, validation_score m)
  /\ name m = str (pipeline m).

(** A world like [example_world] whose directory "library" holds two
    complete cache files and a file of another kind. *)
Definition library_files : list file :=
  [example_file "a.pkl" 120 1 (9 # 10);
   mkFile "notes.txt" 12 (Raise UnpicklingError);
   example_file "b.pkl" 96 2 (8 # 10)].

Definition library_world : World := {|
  features := unit;
  evaluate := fun _ _ a => match data a with x :: _ => x | [] => 0%Q end;
  str := fun _ => "Pipeline";
  listdir := fun dir =>
    match dir with
    | Some "library" => OK library_files
    | _ => Raise OSError
    end;
  predict_proba_of := fun _ =>
    Some (fun _ => OK (mk_ndarray (Shape2 1 2) [(1 # 2)%Q; (1 # 2)%Q]));
  predict_of := fun _ _ => OK (vec [0%Q]);
  one_hot := fun n t => Raise ValueError
|}.

(** ** [Ensemble.predict]

    The class indices [predict] computes: [np.squeeze] turns the vector of
    one sample into a 0-d array and leaves the others as they are. *)
Inductive class_indices : Type :=
| Index0 (i : nat)
| Indices (l : list nat).

Definition squeeze (l : list nat) : class_indices :=
  match l with
  | [i] => Index0 i
  | _ => Indices l
  end.

(** [np.argmax(a, axis=1)]: a vector has no axis 1, and a row without
    entries has no argmax. *)
Definition argmax_axis1 (a : ndarray) : res (list nat) :=
  match shape a with
  | Shape1 _ => Raise ValueError
  | Shape2 n k => mapR argmax_row (rows n k (data a))
  end.

(** sklearn's [LabelEncoder.inverse_transform], for the encoder the
    ensemble was given. *)
Class Encoder : Type := {
  labels : Type;
  inverse_transform : nat -> class_indices -> res labels
}.

(** What [predict] returns: class indices, decoded labels, or the output
    of a regression ensemble. *)
Inductive predicted {E : Encoder} : Type :=
| Classes (c : class_indices)
| Labels (l : labels)
| Values (a : ndarray).

(** [raise NotImplemented(...)] is a TypeError, [NotImplemented] not being
    callable; an encoder object is always true. *)
Definition predict {W : World} {E : Encoder} (self : Ensemble) (X : features)
    : res predicted :=
  if is_classification (_metric self) then
    bindR (predict_proba self X) (fun proba =>
    bindR (argmax_axis1 proba) (fun hard =>
    let predictions := squeeze hard in
    match _label_encoder self with
    | Some encoder =>
        bindR (inverse_transform encoder predictions)
              (fun decoded => OK (Labels decoded))
    | None => OK (Classes predictions)
    end))
  else if is_regression (_metric self) then
    bindR (predict_proba self X) (fun predictions => OK (Values predictions))
  else Raise TypeError.

(** An encoder for the examples: labels are class names. *)
Definition example_encoder : Encoder := {|
  labels := list string;
  inverse_transform := fun _ c =>
    OK (map (fun i => if Nat.eqb i 0 then "no" else "yes")
            (match c with Index0 i => [i] | Indices l => l end))
|}.

(** A world like [example_world] whose directory "probabilities" holds a
    complete cache file with class probabilities for two samples, and a
    file of another kind. *)
Definition probability_files : list file :=
  [mkFile "a.pkl" 120
     (OK (1%nat,
          mk_ndarray (Shape2 2 2) [(3 # 10)%Q; (7 # 10)%Q; (1 # 2)%Q; (1 # 2)%Q],
          (9 # 10)%Q));
   mkFile "notes.txt" 12 (Raise UnpicklingError)].

Definition probability_world : World := {|
  features := unit;
  evaluate := fun _ _ a => match data a with x :: _ => x | [] => 0%Q end;
  str := fun _ => "Pipeline";
  listdir := fun dir =>
    match dir with
    | Some "probabilities" => OK probability_files
    | _ => Raise OSError
    end;
  predict_proba_of := fun _ =>
    Some (fun _ => OK (mk_ndarray (Shape2 1 2) [(1 # 2)%Q; (1 # 2)%Q]));
  predict_of := fun _ _ => OK (vec [0%Q]);
  one_hot := fun n t => Raise ValueError
|}.

(** The sum of [x] and the numbers of [l], added from left to right. *)
Definition sum_from_left (x : Q) (l : list Q) : Q := fold_left Qplus l x.

(** A world like [example_world] in which the pipelines predict different
    probabilities for the one sample. *)
Definition blend_world : World := {|
  features := unit;
  evaluate := fun _ _ a => match data a with x :: _ => x | [] => 0%Q end;
  str := fun _ => "Pipeline";
  listdir := fun _ => Raise OSError;
  predict_proba_of := fun p =>
    Some (fun _ =>
            OK (mk_ndarray (Shape2 1 2)
                  (match p with
                   | 1%nat => [(9 # 10)%Q; (1 # 10)%Q]
                   | 2%nat => [(3 # 10)%Q; (7 # 10)%Q]
                   | _ => [(1 # 2)%Q; (1 # 2)%Q]
                   end)));
  predict_of := fun _ _ => OK (vec [0%Q]);
  one_hot := fun n t => Raise ValueError
|}.

(** What the pipelines of [blend_world] predict. *)
Definition blend_outputs (p : Pipeline) : ndarray :=
  mk_ndarray (Shape2 1 2)
    (match p with
     | 1%nat => [(9 # 10)%Q; (1 # 10)%Q]
     | 2%nat => [(3 # 10)%Q; (7 # 10)%Q]
     | _ => [(1 # 2)%Q; (1 # 2)%Q]
     end).





(** What a bagging round builds, for a parent with the given metric,
    labels and model fraction over the library [lib]: a new ensemble over
    the models of [lib] at the indices [draw] returns for the population
    [len(lib)] and the sample size [int(fraction * len(lib))], seeded with
    [start_size] models and then extended by [total_size - start_size]
    stepwise additions. *)
Definition built_by_round {W : World} (metric : Metric) (y_true : list Z)
    (fraction : Q) (lib : list Model) (draw : nat -> nat -> list nat)
    (start_size total_size : Z) (child : Ensemble) : Prop :=
  exists (model_subset : list Model) (fresh : Ensemble) (lg0 lg1 lg2 : log),
    Forall2 (fun idx m => nth_error lib idx = Some m)
            (draw (length lib)
                  (Z.to_nat (int_of_Q (fraction
                                       * inject_Z (Z.of_nat (length lib))))))
            model_subset
    /\ __init__ metric y_true (Some model_subset) None true 1%Z None lg0
       = (OK fresh, lg1)
    /\ (build_initial_ensemble start_size ;;;
        add_models (total_size - start_size)%Z) fresh lg1
       = (OK tt, child, lg2).

(** A world in which no directory is given and the current directory, which
    [os.listdir(None)] lists, holds [library_files]. *)
Definition cwd_world : World := {|
  features := unit;
  evaluate := fun _ _ a => match data a with x :: _ => x | [] => 0%Q end;
  str := fun _ => "Pipeline";
  listdir := fun dir =>
    match dir with
    | None => OK library_files
    | Some _ => Raise OSError
    end;
  predict_proba_of := fun _ =>
    Some (fun _ => OK (mk_ndarray (Shape2 1 2) [(1 # 2)%Q; (1 # 2)%Q]));
  predict_of := fun _ _ => OK (vec [0%Q]);
  one_hot := fun n t => Raise ValueError
|}.

(** * Properties *)

Section Proofs.

Context {W : World}.

(** ** Dicts *)

Lemma dict_pop_none (k : Pipeline) (d : dict) :
  dict_pop k d = None <-> ~ In k (keys d).
Proof.
  induction d as [|[k' v] d IH]; simpl.
  - split; auto.
  - destruct (Nat.eqb_spec k k') as [->|Hne].
    + split; [discriminate | intros H; exfalso; apply H; now left].
    + destruct (dict_pop k d) as [[v' d'']|].
      * split; [discriminate|].
        intros H. assert (Hn : ~ In k (keys d)) by (intros Hin; apply H; now right).
        apply IH in Hn. discriminate.
      * split; [|reflexivity].
        intros _ [Heq|Hin]; [congruence|]. now apply (proj1 IH).
Qed.

Lemma dict_pop_some (k : Pipeline) (d d' : dict) (v : Model * Z) :
  dict_pop k d = Some (v, d') ->
  exists l1 l2, d = l1 ++ (k, v) :: l2 /\ d' = l1 ++ l2 /\ ~ In k (keys l1).
Proof.
  revert d'. induction d as [|[k' v'] d IH]; simpl; intros d' H; [discriminate|].
  destruct (Nat.eqb_spec k k') as [->|Hne].
  - inversion H; subst. exists [], d'. simpl. auto.
  - destruct (dict_pop k d) as [[v0 d0]|] eqn:E; [|discriminate].
    inversion H; subst.
    destruct (IH d0 eq_refl) as (l1 & l2 & -> & -> & Hn).
    exists ((k', v') :: l1), l2. simpl. repeat split; auto.
    intros [Heq|Hin]; [congruence|auto].
Qed.

Lemma dict_set_fresh (k : Pipeline) (v : Model * Z) (d : dict) :
  ~ In k (keys d) -> dict_set k v d = d ++ [(k, v)].
Proof.
  induction d as [|[k' v'] d IH]; simpl; intros H; [reflexivity|].
  destruct (Nat.eqb_spec k k') as [->|Hne].
  - exfalso. apply H. now left.
  - f_equal. apply IH. intros Hin. apply H. now right.
Qed.

Lemma dict_get_none (k : Pipeline) (d : dict) :
  dict_get k d = None <-> ~ In k (keys d).
Proof.
  induction d as [|[k' v] d IH]; simpl.
  - split; auto.
  - destruct (Nat.eqb_spec k k') as [->|Hne].
    + split; [discriminate | intros H; exfalso; apply H; now left].
    + rewrite IH. split.
      * intros H [Heq|Hin]; [congruence|auto].
      * intros H Hin. apply H. now right.
Qed.

Lemma dict_get_app_skip (k : Pipeline) (l1 l2 : dict) :
  ~ In k (keys l1) -> dict_get k (l1 ++ l2) = dict_get k l2.
Proof.
  induction l1 as [|[k' v] l1 IH]; simpl; intros H; [reflexivity|].
  destruct (Nat.eqb_spec k k') as [->|Hne].
  - exfalso. apply H. now left.
  - apply IH. intros Hin. apply H. now right.
Qed.

Lemma keys_app (l1 l2 : dict) : keys (l1 ++ l2) = keys l1 ++ keys l2.
Proof. unfold keys. apply map_app. Qed.

Lemma well_keyed_mid (l1 l2 : dict) (k : Pipeline) (v : Model * Z) :
  well_keyed (l1 ++ (k, v) :: l2) ->
  well_keyed (l1 ++ l2) /\ ~ In k (keys (l1 ++ l2)) /\ pipeline (fst v) = k.
Proof.
  intros [Hnd Hk]. rewrite keys_app in Hnd. simpl in Hnd.
  pose proof (NoDup_remove_1 _ _ _ Hnd) as H1.
  pose proof (NoDup_remove_2 _ _ _ Hnd) as H2.
  rewrite Forall_app in Hk. destruct Hk as [Hk1 Hk2].
  inversion Hk2; subst. simpl in *.
  repeat split.
  - now rewrite keys_app.
  - rewrite Forall_app. auto.
  - now rewrite keys_app.
  - assumption.
Qed.

(** What [_add_model] does to a well-keyed set: a new pipeline is appended
    with the added weight; a pipeline already present keeps its stored
    record, which moves to the end with the weights summed. *)
Lemma add_to_cases (m : Model) (w : Z) (d : dict) :
  well_keyed d ->
  (dict_get (pipeline m) d = None /\
   add_to m w d = d ++ [(pipeline m, (m, w))])
  \/
  (exists l1 l2 m0 w0,
      d = l1 ++ (pipeline m, (m0, w0)) :: l2 /\
      add_to m w d = l1 ++ l2 ++ [(pipeline m, (m0, (w0 + w)%Z))] /\
      pipeline m0 = pipeline m /\
      ~ In (pipeline m) (keys l1) /\
      ~ In (pipeline m) (keys (l1 ++ l2))).
Proof.
  intros Hwk. unfold add_to.
  destruct (dict_pop (pipeline m) d) as [[[m0 w0] d']|] eqn:E.
  - right. destruct (dict_pop_some _ _ _ _ E) as (l1 & l2 & -> & -> & Hn1).
    destruct (well_keyed_mid _ _ _ _ Hwk) as (Hwk' & Hn & Hp). simpl in Hp.
    exists l1, l2, m0, w0. rewrite Hp.
    rewrite dict_set_fresh by assumption.
    rewrite <- app_assoc. auto.
  - left. apply dict_pop_none in E.
    rewrite dict_set_fresh by assumption.
    split; [now apply dict_get_none | reflexivity].
Qed.

(** ** Total weight *)

Lemma sum_from (l : list Z) (a : Z) :
  fold_left Z.add l a = (a + sum l)%Z.
Proof.
  unfold sum. revert a. induction l as [|x l IH]; simpl; intros a; [lia|].
  rewrite IH, (IH x). lia.
Qed.

Lemma sum_cons (x : Z) (l : list Z) : sum (x :: l) = (x + sum l)%Z.
Proof. unfold sum at 1. simpl. apply sum_from. Qed.

Lemma sum_app (l1 l2 : list Z) : sum (l1 ++ l2) = (sum l1 + sum l2)%Z.
Proof.
  induction l1 as [|x l1 IH]; simpl; [reflexivity|].
  rewrite !sum_cons, IH. lia.
Qed.

Lemma total_nil : total [] = 0%Z.
Proof. reflexivity. Qed.

Lemma total_cons (k : Pipeline) (m : Model) (w : Z) (d : dict) :
  total ((k, (m, w)) :: d) = (w + total d)%Z.
Proof. unfold total. simpl. apply sum_cons. Qed.

Lemma total_app (d1 d2 : dict) : total (d1 ++ d2) = (total d1 + total d2)%Z.
Proof.
  unfold total, values. rewrite !map_app. apply sum_app.
Qed.

Lemma total_add_to (m : Model) (w : Z) (d : dict) :
  well_keyed d -> total (add_to m w d) = (total d + w)%Z.
Proof.
  intros Hwk.
  destruct (add_to_cases m w d Hwk)
    as [[_ ->]|(l1 & l2 & m0 & w0 & -> & -> & _)].
  - rewrite total_app, total_cons, total_nil. lia.
  - rewrite !total_app, !total_cons, total_nil. lia.
Qed.

(** ** The invariant of the set is kept by every addition *)

Lemma well_keyed_snoc (d : dict) (k : Pipeline) (m : Model) (w : Z) :
  well_keyed d -> ~ In k (keys d) -> pipeline m = k ->
  well_keyed (d ++ [(k, (m, w))]).
Proof.
  intros [Hnd Hk] Hn Hp. split.
  - rewrite keys_app. simpl.
    apply NoDup_app_remove_l with (l := []). simpl.
    apply Permutation_NoDup with (l := k :: keys d).
    + apply Permutation_cons_append.
    + now constructor.
  - rewrite Forall_app. split; [assumption|].
    constructor; [assumption|constructor].
Qed.

Lemma well_keyed_add_to (m : Model) (w : Z) (d : dict) :
  well_keyed d -> well_keyed (add_to m w d).
Proof.
  intros Hwk.
  destruct (add_to_cases m w d Hwk)
    as [[Hg ->]|(l1 & l2 & m0 & w0 & Hd & -> & Hp & _ & Hn)].
  - apply well_keyed_snoc; [assumption| |reflexivity].
    now apply dict_get_none.
  - subst d. destruct (well_keyed_mid _ _ _ _ Hwk) as (Hwk' & _ & _).
    rewrite app_assoc. now apply well_keyed_snoc.
Qed.

Lemma weights_add_to (m : Model) (w : Z) (d : dict) :
  well_keyed d -> weights_from_one d -> (1 <= w)%Z ->
  weights_from_one (add_to m w d).
Proof.
  intros Hwk Hw H1. unfold weights_from_one in *.
  destruct (add_to_cases m w d Hwk)
    as [[Hg ->]|(l1 & l2 & m0 & w0 & Hd & -> & _)].
  - rewrite Forall_app. split; [assumption|].
    constructor; [assumption|constructor].
  - subst d. rewrite Forall_app in Hw. destruct Hw as [Hw1 Hw2].
    inversion Hw2; subst. simpl in *.
    rewrite !Forall_app. repeat split; try assumption.
    constructor; [simpl; lia|constructor].
Qed.

Lemma wf_dict_add_to (m : Model) (w : Z) (d : dict) :
  wf_dict d -> (1 <= w)%Z -> wf_dict (add_to m w d).
Proof.
  intros [Hwk Hw] H1. split.
  - now apply well_keyed_add_to.
  - now apply weights_add_to.
Qed.

Lemma wf_dict_nil : wf_dict [].
Proof.
  repeat split; simpl; constructor.
Qed.

(** ** Weights by pipeline, and sequences of additions *)

Lemma weight_of_app (p : Pipeline) (d1 d2 : dict) :
  weight_of p (d1 ++ d2) = (weight_of p d1 + weight_of p d2)%Z.
Proof.
  induction d1 as [|[k [m w]] d1 IH]; simpl; [reflexivity|].
  destruct (Nat.eqb p k); rewrite IH; lia.
Qed.

Lemma weight_of_add_to (p : Pipeline) (m : Model) (w : Z) (d : dict) :
  well_keyed d ->
  weight_of p (add_to m w d)
  = (weight_of p d + (if Nat.eqb p (pipeline m) then w else 0))%Z.
Proof.
  intros Hwk.
  destruct (add_to_cases m w d Hwk)
    as [[_ ->]|(l1 & l2 & m0 & w0 & -> & -> & _)];
    rewrite !weight_of_app; simpl; rewrite ?weight_of_app; simpl;
    destruct (Nat.eqb p (pipeline m)); lia.
Qed.

Lemma dict_get_snoc (k : Pipeline) (v : Model * Z) (d : dict) :
  ~ In k (keys d) -> dict_get k (d ++ [(k, v)]) = Some v.
Proof.
  intros Hn. rewrite dict_get_app_skip by assumption.
  simpl. now rewrite Nat.eqb_refl.
Qed.

(** Adding a model whose pipeline is in the set sums the weights in the one
    entry it has; adding a new one makes an entry. *)
Lemma add_to_present (m m0 : Model) (w w0 : Z) (d : dict) :
  well_keyed d -> dict_get (pipeline m) d = Some (m0, w0) ->
  dict_get (pipeline m) (add_to m w d) = Some (m0, (w0 + w)%Z)
  /\ length (add_to m w d) = length d.
Proof.
  intros Hwk Hg.
  destruct (add_to_cases m w d Hwk)
    as [[Hn _]|(l1 & l2 & m1 & w1 & Hd & -> & _ & Hn1 & Hn)].
  - congruence.
  - subst d. rewrite dict_get_app_skip in Hg by assumption.
    simpl in Hg. rewrite Nat.eqb_refl in Hg. inversion Hg; subst.
    split.
    + rewrite app_assoc. now apply dict_get_snoc.
    + rewrite !length_app. simpl. lia.
Qed.

Lemma add_to_absent (m : Model) (w : Z) (d : dict) :
  well_keyed d -> dict_get (pipeline m) d = None ->
  dict_get (pipeline m) (add_to m w d) = Some (m, w)
  /\ length (add_to m w d) = S (length d).
Proof.
  intros Hwk Hg.
  destruct (add_to_cases m w d Hwk)
    as [[Hn ->]|(l1 & l2 & m1 & w1 & Hd & _ & _ & Hn1 & _)].
  - split.
    + apply dict_get_snoc. now apply dict_get_none.
    + rewrite length_app. simpl. lia.
  - subst d. rewrite dict_get_app_skip in Hg by assumption.
    simpl in Hg. rewrite Nat.eqb_refl in Hg. discriminate.
Qed.

Lemma replay_cons (m : Model) (w : Z) (adds : list (Model * Z)) (d : dict) :
  replay ((m, w) :: adds) d = replay adds (add_to m w d).
Proof. reflexivity. Qed.

Lemma replay_app (adds1 adds2 : list (Model * Z)) (d : dict) :
  replay (adds1 ++ adds2) d = replay adds2 (replay adds1 d).
Proof. unfold replay. apply fold_left_app. Qed.

Lemma well_keyed_replay (adds : list (Model * Z)) (d : dict) :
  well_keyed d -> well_keyed (replay adds d).
Proof.
  revert d. induction adds as [|[m w] adds IH]; intros d Hwk; [assumption|].
  rewrite replay_cons. apply IH. now apply well_keyed_add_to.
Qed.

Lemma wf_dict_replay (adds : list (Model * Z)) (d : dict) :
  wf_dict d -> Forall (fun a => (1 <= snd a)%Z) adds ->
  wf_dict (replay adds d).
Proof.
  revert d. induction adds as [|[m w] adds IH]; intros d Hwf Hall; [assumption|].
  inversion Hall; subst. rewrite replay_cons. apply IH; [|assumption].
  now apply wf_dict_add_to.
Qed.

Lemma total_replay (adds : list (Model * Z)) (d : dict) :
  well_keyed d -> total (replay adds d) = (total d + sum (map snd adds))%Z.
Proof.
  revert d. induction adds as [|[m w] adds IH]; intros d Hwk; simpl map.
  - simpl. unfold sum. simpl. lia.
  - rewrite replay_cons, IH by now apply well_keyed_add_to.
    rewrite total_add_to by assumption. rewrite sum_cons. simpl. lia.
Qed.

Lemma weight_of_replay (p : Pipeline) (adds : list (Model * Z)) (d : dict) :
  well_keyed d ->
  weight_of p (replay adds d) = (weight_of p d + added_to p adds)%Z.
Proof.
  revert d. induction adds as [|[m w] adds IH]; intros d Hwk; simpl added_to.
  - simpl. lia.
  - rewrite replay_cons, IH by now apply well_keyed_add_to.
    rewrite weight_of_add_to by assumption.
    destruct (Nat.eqb p (pipeline m)); lia.
Qed.

Lemma sum_ones (adds : list (Model * Z)) :
  Forall (fun a => snd a = 1%Z) adds ->
  sum (map snd adds) = Z.of_nat (length adds).
Proof.
  induction 1 as [|[m w] adds Hw _ IH]; [reflexivity|].
  simpl map. rewrite sum_cons, IH. simpl in Hw. subst.
  simpl length. lia.
Qed.

(** ** Running the methods *)

Lemma bind_ok {A B : Type} (m : M A) (k : A -> M B)
    (self self' : Ensemble) (lg lg' : log) (a : A) :
  m self lg = (OK a, self', lg') -> bind m k self lg = k a self' lg'.
Proof. intros H. unfold bind. now rewrite H. Qed.

Lemma bind_raise {A B : Type} (m : M A) (k : A -> M B)
    (self self' : Ensemble) (lg lg' : log) (e : exn) :
  m self lg = (Raise e, self', lg') ->
  bind m k self lg = (Raise e, self', lg').
Proof. intros H. unfold bind. now rewrite H. Qed.

Lemma models_dict_run (self : Ensemble) (lg : log) (d : dict) :
  _models self = Some d -> models_dict self lg = (OK d, self, lg).
Proof. intros H. unfold models_dict, bind, get, ret. now rewrite H. Qed.

Lemma models_dict_none (self : Ensemble) (lg : log) :
  _models self = None -> models_dict self lg = (Raise AttributeError, self, lg).
Proof. intros H. unfold models_dict, bind, get, raise. now rewrite H. Qed.

Lemma total_run (self : Ensemble) (lg : log) (d : dict) :
  _models self = Some d ->
  _total_model_weights self lg = (OK (total d), self, lg).
Proof.
  intros H. unfold _total_model_weights.
  rewrite (bind_ok _ _ _ _ _ _ _ (models_dict_run self lg d H)). reflexivity.
Qed.

Lemma average_run (self : Ensemble) (lg : log) (d : dict) :
  _models self = Some d ->
  _averaged_validation_predictions self lg = (weighted_average d, self, lg).
Proof.
  intros H. unfold _averaged_validation_predictions, weighted_average.
  rewrite (bind_ok _ _ _ _ _ _ _ (models_dict_run self lg d H)).
  unfold bind at 1, liftR.
  destruct (stack _) as [st|e]; simpl; [|reflexivity].
  rewrite (bind_ok _ _ _ _ _ _ _ (total_run self lg d H)). reflexivity.
Qed.

Lemma add_model_run (m : Model) (w : Z) (self : Ensemble) (lg : log) (d : dict) :
  _models self = Some d ->
  _add_model m w self lg
  = (OK tt, set_models (Some (add_to m w d)) self, lg ++ [added_log]).
Proof.
  intros H. unfold _add_model.
  rewrite (bind_ok _ _ _ _ _ _ _ (models_dict_run self lg d H)). reflexivity.
Qed.

Lemma add_model_none (m : Model) (w : Z) (self : Ensemble) (lg : log) :
  _models self = None ->
  _add_model m w self lg = (Raise AttributeError, self, lg).
Proof.
  intros H. unfold _add_model.
  now rewrite (bind_raise _ _ _ _ _ _ _ (models_dict_none self lg H)).
Qed.

Lemma model_library_cached (self : Ensemble) (lg : log) (lib : list Model) :
  _model_library self = Some lib -> lib <> [] ->
  model_library self lg = (OK lib, self, lg).
Proof.
  intros H Hne. unfold model_library, bind, get, ret. rewrite H.
  destruct lib as [|m lib]; [congruence|]. simpl. now rewrite H.
Qed.

Lemma set_models_same (self : Ensemble) (d : dict) :
  _models self = Some d -> set_models (Some d) self = self.
Proof. destruct self; simpl; intros ->; reflexivity. Qed.

(** A loop of additions replays them on the set, and logs each one. *)
Lemma additions_run (adds : list (Model * Z)) (self : Ensemble) (lg : log)
    (d : dict) :
  _models self = Some d ->
  for_each adds (fun '(model, weight) => _add_model model weight) self lg
  = (OK tt, set_models (Some (replay adds d)) self,
     lg ++ repeat added_log (length adds)).
Proof.
  revert self lg d. induction adds as [|[m w] adds IH]; intros self lg d H.
  - simpl. unfold ret. rewrite set_models_same by assumption.
    now rewrite app_nil_r.
  - simpl for_each.
    rewrite (bind_ok _ _ _ _ _ _ _ (add_model_run m w self lg d H)).
    rewrite (IH _ _ (add_to m w d)) by reflexivity.
    rewrite replay_cons. simpl. rewrite <- app_assoc. reflexivity.
Qed.

(** ** predict_proba with a single fitted model *)

Lemma predict_proba_single (self : Ensemble) (X : features) (p : Pipeline) (w : Z) :
  _fit_models self = Some [(p, w)] -> w <> 0%Z ->
  predict_proba self X
  = bindR (raw_output self X p) (fun out => OK (mul_scalar out (inject_Z w))).
Proof.
  intros H Hw. unfold predict_proba. rewrite H. simpl.
  destruct (Z.eqb_spec w 0) as [->|_]; [congruence|].
  destruct (raw_output self X p); reflexivity.
Qed.

(** ** __getstate__ *)

(** The amended form of claim C9.  When the ensemble is set to shrink on
    pickling, [__getstate__] returns a state (and leaves the object in that
    state) in which [_models], [_model_library] and [_child_ensembles] are
    None, [_y_true] and every other attribute but [_metric] keep their
    values, and [_metric] keeps its value unless its name contains "neg", in
    which case its function is replaced by None and the rest of it kept. *)
Theorem getstate_shrinks (self : Ensemble) (lg : log) :
  _shrink_on_pickle self = true ->
  exists state lg',
    __getstate__ self lg = (OK state, state, lg')
    /\ _models state = None
    /\ _model_library state = None
    /\ _child_ensembles state = None
    /\ _y_true state = _y_true self
    /\ _model_library_directory state = _model_library_directory self
    /\ _shrink_on_pickle state = _shrink_on_pickle self
    /\ _n_jobs state = _n_jobs self
    /\ _label_encoder state = _label_encoder self
    /\ _fit_models state = _fit_models self
    /\ _maximize state = _maximize self
    /\ _child_ensemble_model_fraction state = _child_ensemble_model_fraction self
    /\ _metric state
       = (if contains "neg" (metric_name (_metric self))
          then mkMetric (metric_name (_metric self)) None
                        (is_classification (_metric self))
                        (is_regression (_metric self))
          else _metric self).
Proof.
  intros Hs. destruct self; simpl in Hs; subst.
  unfold __getstate__, bind, get, modify, emit, ret. simpl.
  destruct (contains "neg" (metric_name _metric0)) eqn:E; simpl;
    eexists; eexists; repeat split; reflexivity.
Qed.

Lemma average_run_none (self : Ensemble) (lg : log) :
  _models self = None ->
  _averaged_validation_predictions self lg = (Raise AttributeError, self, lg).
Proof.
  intros H. unfold _averaged_validation_predictions.
  now rewrite (bind_raise _ _ _ _ _ _ _ (models_dict_none self lg H)).
Qed.

(** [bind] after a call with a known result, normal or exceptional. *)
Lemma bind_ok_res {A B : Type} (m : M A) (k : A -> M B)
    (self : Ensemble) (lg : log) (r : res A) :
  m self lg = (r, self, lg) ->
  bind m k self lg
  = match r with
    | OK a => k a self lg
    | Raise e => (Raise e, self, lg)
    end.
Proof. intros H. unfold bind. rewrite H. destruct r; reflexivity. Qed.

End Proofs.

(** ** Examples: pickling, blending and loading *)

(** Witness of [getstate_shrinks]: the example ensemble over accuracy. *)
Lemma getstate_shrinks_witness :
  _shrink_on_pickle (example_ensemble example_library) = true
  /\ exists state lg',
       __getstate__ (example_ensemble example_library) []
       = (OK state, state, lg')
       /\ _models state = None
       /\ _y_true state = [0%Z; 1%Z].
Proof.
  split; [reflexivity|].
  destruct (getstate_shrinks
              (example_ensemble example_library) [] eq_refl)
    as (state & lg' & H & Hm & _ & _ & Hy & _).
  exists state, lg'. repeat split; assumption.
Defined.

(** Counterexample to claim C9 as stated: pickling an ensemble whose metric
    is named "neg_log_loss" changes [_metric] (its function is dropped), so
    not every attribute other than the three nulled ones keeps its value. *)
Lemma getstate_strips_neg_metric :
  _shrink_on_pickle neg_ensemble = true
  /\ result_of (__getstate__ neg_ensemble [])
     = OK (state_of (__getstate__ neg_ensemble []))
  /\ _metric (state_of (__getstate__ neg_ensemble []))
     <> _metric neg_ensemble.
Proof.
  repeat split; try reflexivity. vm_compute. discriminate.
Qed.

(** Claim C1 fails on the code.  With the single fitted pipeline 7 at weight
    2, whose own output is (1/2, 1/2), [predict_proba] returns that output
    times 2: the branch for a single model returns [predictions[0]], the
    scaled contribution, and never divides by the weight sum. *)
Theorem predict_proba_single_model_stays_scaled :
  raw_output (W:=example_world) (fitted_ensemble [(7, 2%Z)]) tt 7 = OK half_half
  /\ predict_proba (W:=example_world) (fitted_ensemble [(7, 2%Z)]) tt
     = OK (mul_scalar half_half (inject_Z 2))
  /\ ~ equiv (mul_scalar half_half (inject_Z 2)) half_half.
Proof.
  repeat split.
  intros [_ H]. inversion H as [|x y l l' Hxy _]; subst.
  vm_compute in Hxy. discriminate.
Qed.

(** Claim C2 fails on the code.  A directory holding only a zero-byte
    "b.pkl" makes [load_predictions] raise UnboundLocalError, and a zero-byte
    file listed after a complete one yields a second Model Record, a copy of
    the previous file's: the [append] is outside the size test. *)
Theorem load_predictions_zero_byte_file :
  load_predictions (W:=example_world) (Some "interrupted") false
  = Raise UnboundLocalError
  /\ load_predictions (W:=example_world) (Some "cache") false
     = OK [example_model 1 (9 # 10); example_model 1 (9 # 10)].
Proof.
  split; reflexivity.
Qed.

(** ** predict_proba with several fitted models *)

Section Blend.

Context {W : World}.

Lemma scaled_outputs_used (self : Ensemble) (X : features)
    (fit_models : list (Pipeline * Z)) :
  Forall (fun e => (0 <= snd e)%Z) fit_models ->
  scaled_outputs self X fit_models
  = mapR (fun e => bindR (raw_output self X (fst e))
                     (fun out => OK (mul_scalar out (inject_Z (snd e)))))
         (filter (fun e => (0 <? snd e)%Z) fit_models).
Proof.
  induction 1 as [|[p w] l Hw _ IH]; [reflexivity|].
  simpl in Hw. simpl scaled_outputs. simpl filter.
  destruct (Z.eqb_spec w 0) as [->|Hne].
  - simpl. exact IH.
  - replace (0 <? w)%Z with true by (symmetry; apply Z.ltb_lt; lia).
    simpl. rewrite IH. destruct (raw_output self X p); reflexivity.
Qed.

Lemma sum_used (fit_models : list (Pipeline * Z)) :
  Forall (fun e => (0 <= snd e)%Z) fit_models ->
  sum (map snd fit_models)
  = sum (map snd (filter (fun e => (0 <? snd e)%Z) fit_models)).
Proof.
  induction 1 as [|[p w] l Hw _ IH]; [reflexivity|].
  simpl in Hw. simpl map. simpl filter. rewrite sum_cons, IH.
  destruct (Z.ltb_spec 0 w) as [Hpos|Hle].
  - simpl map. now rewrite sum_cons.
  - assert (w = 0%Z) by lia. subst. lia.
Qed.

End Blend.

(** ** The scan of the library in one step of add_models *)

Section Selection.

Context {W : World}.



Lemma beats_initial (mx : bool) (q : Q) : beats mx (initial_score mx) q = true.
Proof. destruct mx; reflexivity. Qed.


Lemma better_trans (mx : bool) (a b c : Q) :
  better mx a b -> better mx b c -> better mx a c.
Proof.
  unfold better. destruct mx; intros H1 H2; eapply Qlt_trans; eassumption.
Qed.

Lemma better_irrefl (mx : bool) (a : Q) : ~ better mx a a.
Proof. unfold better. destruct mx; apply Qlt_irrefl. Qed.



Lemma consider_skips (self : Ensemble) (avg : ndarray) (tw : Z)
    (st : option Model * float_score) (m : Model) :
  ~ eligible m -> consider self avg tw st m = OK st.
Proof.
  unfold eligible, consider. intros H. destruct st as [b s].
  destruct (Qeq_bool (validation_score m) 0); [reflexivity|congruence].
Qed.


Lemma consider_raises (self : Ensemble) (avg : ndarray) (tw : Z)
    (st : option Model * float_score) (m : Model) (e : exn) :
  eligible m -> candidate_score self avg tw m = Raise e ->
  consider self avg tw st m = Raise e.
Proof.
  unfold eligible, consider, candidate_score. intros -> H. destruct st as [b s].
  destruct (candidate_pred avg tw m) as [pred|e']; simpl in *; congruence.
Qed.

Lemma scan_library_cons (self : Ensemble) (avg : ndarray) (tw : Z)
    (m : Model) (lib : list Model) (st : option Model * float_score) :
  scan_library self avg tw (m :: lib) st
  = bindR (consider self avg tw st m) (scan_library self avg tw lib).
Proof. reflexivity. Qed.



(** ** Steps that find no candidate *)

Lemma scan_no_candidates (self : Ensemble) (avg : ndarray) (tw : Z)
    (lib : list Model) (st : option Model * float_score) :
  (forall m, In m lib -> ~ eligible m) ->
  scan_library self avg tw lib st = OK st.
Proof.
  induction lib as [|m lib IH]; intros Hno; [reflexivity|].
  rewrite scan_library_cons, consider_skips by (apply Hno; now left).
  simpl. apply IH. intros m0 Hin. apply Hno. now right.
Qed.

Lemma consider_raises_value_error (self : Ensemble) (avg : ndarray) (tw : Z)
    (st : option Model * float_score) (m : Model) (e : exn) :
  consider self avg tw st m = Raise e -> e = ValueError.
Proof.
  unfold consider, candidate_pred, sub, add, elementwise.
  destruct st as [b s].
  destruct (Qeq_bool (validation_score m) 0); [discriminate|].
  destruct (same_shape (predictions m) avg); simpl; [|congruence].
  destruct (same_shape avg _); simpl; [|congruence].
  destruct (_ || _); discriminate.
Qed.

Lemma scan_raises_value_error (self : Ensemble) (avg : ndarray) (tw : Z)
    (lib : list Model) :
  forall st e, scan_library self avg tw lib st = Raise e -> e = ValueError.
Proof.
  induction lib as [|m lib IH]; intros st e H; [discriminate|].
  rewrite scan_library_cons in H.
  destruct (consider self avg tw st m) as [st'|e'] eqn:E; simpl in H.
  - eapply IH; eassumption.
  - inversion H; subst. eapply consider_raises_value_error; eassumption.
Qed.

(** What [consider] can do to the binding of [best_addition]. *)
Lemma consider_binding (self : Ensemble) (avg : ndarray) (tw : Z)
    (b b' : option Model) (s s' : float_score) (m : Model) :
  consider self avg tw (b, s) m = OK (b', s') ->
  (b' = b /\ s' = s) \/ (b' = Some m /\ eligible m).
Proof.
  unfold consider, eligible.
  destruct (Qeq_bool (validation_score m) 0); [intros H; inversion H; auto|].
  destruct (candidate_pred avg tw m) as [pred|e]; simpl; [|discriminate].
  destruct (_ || _); intros H; inversion H; auto.
Qed.

(** A binding made by the scan is an eligible model of the library. *)
Lemma scan_binding (self : Ensemble) (avg : ndarray) (tw : Z)
    (lib : list Model) :
  forall b s b' s',
  scan_library self avg tw lib (b, s) = OK (b', s') ->
  b' = b \/ exists m, b' = Some m /\ In m lib /\ eligible m.
Proof.
  induction lib as [|m lib IH]; intros b s b' s' H.
  - inversion H; auto.
  - rewrite scan_library_cons in H.
    destruct (consider self avg tw (b, s) m) as [[b1 s1]|e] eqn:E;
      simpl in H; [|discriminate].
    destruct (IH _ _ _ _ H) as [->|(m0 & -> & Hin & He)].
    + destruct (consider_binding _ _ _ _ _ _ _ _ E) as [[-> _]|[-> He]]; auto.
      right. exists m. repeat split; auto. now left.
    + right. exists m0. repeat split; auto. now right.
Qed.

(** From the initial running best, an eligible model binds [best_addition]
    when it is considered. *)
Lemma consider_binds (self : Ensemble) (avg : ndarray) (tw : Z)
    (b b' : option Model) (s' : float_score) (m : Model) :
  eligible m ->
  consider self avg tw (b, initial_score (_maximize self)) m = OK (b', s') ->
  b' = Some m.
Proof.
  unfold consider, eligible. intros ->.
  destruct (candidate_pred avg tw m) as [pred|e]; simpl; [|discriminate].
  fold (beats (_maximize self) (initial_score (_maximize self))
          (evaluate (_metric self) (_y_true self) pred)).
  rewrite beats_initial. intros H. now inversion H.
Qed.

Lemma consider_keeps_binding (self : Ensemble) (avg : ndarray) (tw : Z)
    (b' : option Model) (s s' : float_score) (m0 m : Model) :
  consider self avg tw (Some m0, s) m = OK (b', s') -> b' <> None.
Proof.
  intros H. destruct (consider_binding _ _ _ _ _ _ _ _ H) as [[-> _]|[-> _]];
    discriminate.
Qed.

Lemma scan_keeps_binding (self : Ensemble) (avg : ndarray) (tw : Z)
    (lib : list Model) :
  forall m0 s b' s',
  scan_library self avg tw lib (Some m0, s) = OK (b', s') -> b' <> None.
Proof.
  induction lib as [|m lib IH]; intros m0 s b' s' H.
  - inversion H. discriminate.
  - rewrite scan_library_cons in H.
    destruct (consider self avg tw (Some m0, s) m) as [[b1 s1]|e] eqn:E;
      simpl in H; [|discriminate].
    pose proof (consider_keeps_binding _ _ _ _ _ _ _ _ E) as Hb.
    destruct b1 as [m1|]; [|congruence]. eapply IH; eassumption.
Qed.

(** With an eligible model in the library, the scan of a step ends with
    [best_addition] bound. *)
Lemma scan_binds (self : Ensemble) (avg : ndarray) (tw : Z)
    (lib : list Model) :
  forall b b' s',
  (exists m, In m lib /\ eligible m) ->
  scan_library self avg tw lib (b, initial_score (_maximize self)) = OK (b', s') ->
  b' <> None.
Proof.
  induction lib as [|m lib IH]; intros b b' s' (m0 & Hin & He) H.
  - destruct Hin.
  - rewrite scan_library_cons in H.
    destruct (consider self avg tw (b, initial_score (_maximize self)) m)
      as [[b1 s1]|e] eqn:E; simpl in H; [|discriminate].
    destruct (Qeq_bool (validation_score m) 0) eqn:Em.
    + assert (Hne : ~ eligible m) by (unfold eligible; congruence).
      rewrite consider_skips in E by assumption. inversion E; subst.
      destruct Hin as [<-|Hin]; [contradiction|].
      eapply IH; [|eassumption]. eauto.
    + pose proof (consider_binds _ _ _ _ _ _ _ Em E) as ->.
      eapply scan_keeps_binding; eassumption.
Qed.

Lemma weighted_average_raises (d : dict) (e : exn) :
  weighted_average d = Raise e -> e = ValueError.
Proof.
  unfold weighted_average, stack.
  destruct (map _ (values d)) as [|a rest]; simpl; [congruence|].
  destruct (forallb (same_shape a) rest); simpl; congruence.
Qed.

Lemma add_models_step_unbound (self self1 : Ensemble) (lg lg1 : log)
    (d : dict) (avg : ndarray) (lib : list Model) :
  _models self = Some d ->
  weighted_average d = OK avg ->
  model_library self lg = (OK lib, self1, lg1) ->
  (forall m, In m lib -> ~ eligible m) ->
  add_models_step None self lg = (Raise UnboundLocalError, self1, lg1).
Proof.
  intros Hd Havg Hlib Hno. unfold add_models_step.
  unfold bind at 1, get at 1.
  assert (Ha : _averaged_validation_predictions self lg = (OK avg, self, lg))
    by (rewrite (average_run self lg d Hd); now rewrite Havg).
  rewrite (bind_ok _ _ _ _ _ _ _ Ha).
  rewrite (bind_ok _ _ _ _ _ _ _ (total_run self lg d Hd)).
  rewrite (bind_ok _ _ _ _ _ _ _ Hlib).
  unfold bind at 1, get at 1. unfold bind at 1, liftR.
  rewrite scan_no_candidates by assumption. reflexivity.
Qed.

Lemma add_models_step_ok (self s' : Ensemble) (lg lg' : log)
    (b : option Model) :
  add_models_step None self lg = (OK b, s', lg') ->
  exists lib self1 lg1 m,
    model_library self lg = (OK lib, self1, lg1) /\ In m lib /\ eligible m.
Proof.
  unfold add_models_step. unfold bind at 1, get at 1.
  destruct (_models self) as [d|] eqn:Hd.
  2:{ rewrite (bind_raise _ _ _ _ _ _ _
                 (eq_trans (average_run_none self lg Hd) eq_refl)).
      discriminate. }
  rewrite (bind_ok_res _ _ _ _ _ (average_run self lg d Hd)).
  destruct (weighted_average d) as [avg|e]; [|discriminate].
  rewrite (bind_ok _ _ _ _ _ _ _ (total_run self lg d Hd)).
  unfold bind at 1.
  destruct (model_library self lg) as [[[lib|e] self1] lg1] eqn:Hlib;
    [|discriminate].
  unfold bind at 1, get at 1. unfold bind at 1, liftR.
  destruct (scan_library _ _ _ _ _) as [[b1 s1]|e] eqn:Hscan; [|discriminate].
  cbv beta iota delta [fst].
  destruct b1 as [m|]; [|discriminate]. intros _.
  destruct (scan_binding _ _ _ _ _ _ _ _ Hscan) as [Hn|(m0 & Hm & Hin & He)];
    [discriminate|].
  exists lib, self1, lg1, m0. auto.
Qed.

(** A step over a cached library with an eligible model never raises
    UnboundLocalError, and leaves the library as it is. *)
Lemma add_models_step_bound (prev : option Model) (self : Ensemble) (lg : log)
    (lib : list Model) (r : res (option Model)) (s' : Ensemble) (lg' : log) :
  _model_library self = Some lib ->
  (exists m, In m lib /\ eligible m) ->
  add_models_step prev self lg = (r, s', lg') ->
  r <> Raise UnboundLocalError /\ _model_library s' = Some lib.
Proof.
  intros Hlib Hex.
  assert (Hne : lib <> []) by (destruct Hex as (m & Hin & _); intros ->; destruct Hin).
  unfold add_models_step. unfold bind at 1, get at 1.
  destruct (_models self) as [d|] eqn:Hd.
  2:{ rewrite (bind_raise _ _ _ _ _ _ _ (average_run_none self lg Hd)).
      intros E. inversion E; subst. split; [discriminate|assumption]. }
  rewrite (bind_ok_res _ _ _ _ _ (average_run self lg d Hd)).
  destruct (weighted_average d) as [avg|e] eqn:Havg.
  2:{ apply weighted_average_raises in Havg. subst.
      intros E. inversion E; subst. split; [discriminate|assumption]. }
  rewrite (bind_ok _ _ _ _ _ _ _ (total_run self lg d Hd)).
  rewrite (bind_ok _ _ _ _ _ _ _ (model_library_cached self lg lib Hlib Hne)).
  unfold bind at 1, get at 1. unfold bind at 1, liftR.
  destruct (scan_library _ _ _ _ _) as [[b1 s1]|e] eqn:Hscan.
  2:{ apply scan_raises_value_error in Hscan. subst.
      intros E. inversion E; subst. split; [discriminate|assumption]. }
  pose proof (scan_binds _ _ _ _ _ _ _ Hex Hscan) as Hb.
  cbv beta iota delta [fst].
  destruct b1 as [m|]; [|congruence].
  rewrite (bind_ok _ _ _ _ _ _ _ (add_model_run m 1 self lg d Hd)).
  rewrite (bind_ok _ _ _ _ _ _ _
             (total_run (set_models (Some (add_to m 1 d)) self)
                        (lg ++ [added_log]) (add_to m 1 d) eq_refl)).
  unfold bind, emit, ret.
  intros E. inversion E; subst. split; [discriminate|exact Hlib].
Qed.

Lemma add_models_loop_bound (lib : list Model) :
  (exists m, In m lib /\ eligible m) ->
  forall (n : nat) (prev : option Model) (self : Ensemble) (lg : log),
  _model_library self = Some lib ->
  result_of (add_models_loop n prev self lg) <> Raise UnboundLocalError.
Proof.
  intros Hex. induction n as [|n IH]; intros prev self lg Hlib.
  - discriminate.
  - simpl add_models_loop.
    unfold bind.
    destruct (add_models_step prev self lg) as [[r s1] lg1] eqn:E.
    destruct (add_models_step_bound prev self lg lib r s1 lg1 Hlib Hex E)
      as [Hr Hs].
    destruct r as [b|e].
    + apply IH. exact Hs.
    + unfold result_of. simpl. intros Heq. apply Hr.
      inversion Heq. reflexivity.
Qed.

(** The amended form of claim C10.  For [add_models(n)] with n > 0:
    - when the set has been seeded, so that its current average computes,
      and the library the property [model_library] yields has no eligible
      model (it is empty, or every validation score is zero), the first step
      retains no candidate and the call raises UnboundLocalError, with no
      addition made;
    - if the call returns normally, the library has an eligible model;
    - when the cached library has an eligible model, the call never raises
      UnboundLocalError;
    - when the set is empty (nothing seeded) the call raises the ValueError
      of [np.stack] before any candidate is considered, whatever the
      library holds. *)
Theorem add_models_unbound_local (n : Z) (self : Ensemble) (lg : log) :
  (0 < n)%Z ->
  (forall d avg lib self1 lg1,
      _models self = Some d ->
      weighted_average d = OK avg ->
      model_library self lg = (OK lib, self1, lg1) ->
      (forall m, In m lib -> ~ eligible m) ->
      add_models n self lg = (Raise UnboundLocalError, self1, lg1)
      /\ _models self1 = _models self)
  /\ (forall s' lg',
      add_models n self lg = (OK tt, s', lg') ->
      exists lib self1 lg1 m,
        model_library self lg = (OK lib, self1, lg1)
        /\ In m lib /\ eligible m)
  /\ (forall lib m,
      _model_library self = Some lib -> In m lib -> eligible m ->
      result_of (add_models n self lg) <> Raise UnboundLocalError)
  /\ (_models self = Some [] ->
      add_models n self lg = (Raise ValueError, self, lg)).
Proof.
  intros Hn.
  assert (Hrun : exists k, add_models n = add_models_loop (S k) None).
  { unfold add_models.
    replace (0 <? n)%Z with true by (symmetry; now apply Z.ltb_lt).
    exists (Nat.pred (Z.to_nat n)). simpl negb. cbv iota.
    f_equal. lia. }
  destruct Hrun as [k ->].
  split; [|split; [|split]].
  - intros d avg lib self1 lg1 Hd Havg Hlib Hno. split.
    + simpl add_models_loop.
      now rewrite (bind_raise _ _ _ _ _ _ _
                     (add_models_step_unbound self self1 lg lg1 d avg lib
                        Hd Havg Hlib Hno)).
    + revert Hlib. unfold model_library, bind, get, ret, modify, emit, liftR.
      destruct (truthy (_model_library self)); simpl.
      * destruct (_model_library self); intros E; inversion E; reflexivity.
      * destruct (load_predictions _ _); simpl; [|discriminate].
        intros E; inversion E; reflexivity.
  - intros s' lg'. simpl add_models_loop. unfold bind at 1.
    destruct (add_models_step None self lg) as [[[b|e] s1] lg1] eqn:E;
      [|discriminate].
    intros _. eapply add_models_step_ok; eassumption.
  - intros lib m Hlib Hin He.
    apply (add_models_loop_bound lib); eauto.
  - intros Hm. simpl add_models_loop. unfold bind at 1.
    replace (add_models_step None self lg) with
      (@Raise (option Model) ValueError, self, lg); [reflexivity|].
    symmetry. unfold add_models_step. unfold bind at 1, get at 1.
    rewrite (bind_ok_res _ _ _ _ _ (average_run self lg [] Hm)).
    reflexivity.
Qed.

End Selection.

(** Witness of [add_models_unbound_local]: one step over a library whose
    only model has validation score 0. *)
Lemma add_models_unbound_local_witness :
  (0 < 1)%Z
  /\ add_models (W:=example_world) 1 failed_ensemble []
     = (Raise UnboundLocalError, failed_ensemble, []).
Proof.
  split; [reflexivity|].
  destruct (add_models_unbound_local (W:=example_world) 1 failed_ensemble []
              eq_refl) as [H _].
  apply (H [(6, (failed_model, 1%Z))]
           (div_scalar (sum_axis0 [mul_scalar (vec [(1 # 2)%Q]) (inject_Z 1)])
                       (inject_Z 1))
           [failed_model] failed_ensemble []);
    [reflexivity | reflexivity | reflexivity |].
  intros m [<-|[]]. unfold eligible. simpl. discriminate.
Defined.

(** ** Bagging: the merge of the child ensembles *)

Section Merge.

Context {W : World}.

Lemma merge_children_ok (children : list Ensemble) :
  forall (self s' : Ensemble) (lg lg' : log) (d : dict),
  _models self = Some d ->
  merge_children children self lg = (OK tt, s', lg') ->
  Forall (fun c => _models c <> None) children
  /\ s' = set_models (Some (replay (concat (map child_values children)) d)) self.
Proof.
  induction children as [|c cs IH]; intros self s' lg lg' d Hd H.
  - inversion H; subst. split; [constructor|].
    simpl. symmetry. now apply set_models_same.
  - unfold merge_children in H. simpl for_each in H.
    fold (merge_children cs) in H.
    destruct (_models c) as [dc|] eqn:Hc; [|discriminate].
    rewrite (bind_ok _ _ _ _ _ _ _ (additions_run (values dc) self lg d Hd)) in H.
    destruct (IH (set_models (Some (replay (values dc) d)) self) s' _ lg'
                (replay (values dc) d) eq_refl H) as [Hall ->].
    split.
    + constructor; [congruence|assumption].
    + change (concat (map child_values (c :: cs)))
        with (child_values c ++ concat (map child_values cs)).
      assert (Hv : child_values c = values dc)
        by (unfold child_values; now rewrite Hc).
      rewrite replay_app, Hv. reflexivity.
Qed.

Lemma sum_concat_values (children : list Ensemble) :
  sum (map snd (concat (map child_values children)))
  = sum (map child_total children).
Proof.
  induction children as [|c cs IH]; [reflexivity|].
  change (concat (map child_values (c :: cs)))
    with (child_values c ++ concat (map child_values cs)).
  change (map child_total (c :: cs)) with (child_total c :: map child_total cs).
  rewrite map_app, sum_app, sum_cons, IH. f_equal.
  unfold child_values, child_total, total.
  destruct (_models c) as [d|]; [|reflexivity].
  f_equal; solve [reflexivity | apply map_ext; intros [m w]; reflexivity].
Qed.

Lemma well_keyed_nil : well_keyed [].
Proof. split; constructor. Qed.

End Merge.

(** ** Seeding: the ranking of the library *)

Section Ranking.

Variable key : Model -> Q.

Lemma insert_by_perm (x : Model) (l : list Model) :
  Permutation (insert_by key x l) (x :: l).
Proof.
  induction l as [|y l IH]; simpl; [reflexivity|].
  destruct (Qltb (key y) (key x)); [|reflexivity].
  rewrite IH. apply perm_swap.
Qed.

Lemma sorted_perm (l : list Model) : Permutation (sorted key l) l.
Proof.
  induction l as [|x l IH]; simpl; [reflexivity|].
  unfold sorted in *. simpl. rewrite insert_by_perm. now constructor.
Qed.







End Ranking.

(** ** Seeding: the run of build_initial_ensemble *)

Section Seeding.

Context {W : World}.

Lemma seed_additions_run (sel : list Model) :
  forall (self : Ensemble) (lg : log) (d : dict),
  _models self = Some d ->
  for_each sel (fun model => _add_model model 1%Z) self lg
  = (OK tt, set_models (Some (replay (map (fun m => (m, 1%Z)) sel) d)) self,
     lg ++ repeat added_log (length sel)).
Proof.
  induction sel as [|m sel IH]; intros self lg d H.
  - simpl. unfold ret. rewrite set_models_same by assumption.
    now rewrite app_nil_r.
  - simpl for_each.
    rewrite (bind_ok _ _ _ _ _ _ _ (add_model_run m 1 self lg d H)).
    rewrite (IH _ _ (add_to m 1 d)) by reflexivity.
    simpl. rewrite <- app_assoc. reflexivity.
Qed.


Lemma same_shape_extent (a b : ndarray) :
  same_shape a b = true <-> extent a = extent b.
Proof.
  unfold same_shape, extent. rewrite andb_true_iff, Nat.eqb_eq.
  split.
  - intros [Hs Hl]. f_equal; [|assumption].
    destruct (shape a), (shape b); simpl in Hs; try discriminate.
    + apply Nat.eqb_eq in Hs. now subst.
    + apply andb_true_iff in Hs. destruct Hs as [H1 H2].
      apply Nat.eqb_eq in H1, H2. now subst.
  - intros H. inversion H as [[Hs Hl]]. split; [|reflexivity].
    rewrite Hs. destruct (shape b); simpl; rewrite ?Nat.eqb_refl; reflexivity.
Qed.

Lemma extent_mul_scalar (a : ndarray) (w : Q) :
  extent (mul_scalar a w) = extent a.
Proof. unfold extent, mul_scalar. simpl. now rewrite length_map. Qed.

Lemma stack_uniform (arrays : list ndarray) (sh : shape_t * nat) :
  arrays <> [] ->
  (forall a, In a arrays -> extent a = sh) ->
  stack arrays = OK arrays.
Proof.
  intros Hne Hall. destruct arrays as [|a rest]; [congruence|].
  unfold stack.
  replace (forallb (same_shape a) rest) with true; [reflexivity|].
  symmetry. apply forallb_forall. intros b Hb. apply same_shape_extent.
  rewrite (Hall a (or_introl eq_refl)), (Hall b (or_intror Hb)). reflexivity.
Qed.



Lemma ranked_perm (self : Ensemble) (lib : list Model) :
  Permutation (ranked self lib) lib.
Proof.
  unfold ranked. destruct (_maximize self).
  - rewrite <- Permutation_rev. apply sorted_perm.
  - apply sorted_perm.
Qed.



End Seeding.


(** ** Hoare rules of the method monad *)

Section Hoare.

Context {A B : Type}.

Lemma hoare_bind (P : Ensemble -> Prop) (m : M A) (Q : A -> Ensemble -> Prop)
    (k : A -> M B) (R : B -> Ensemble -> Prop) (E : exn -> Ensemble -> Prop) :
  hoare P m Q E -> (forall a, hoare (Q a) (k a) R E) ->
  hoare P (bind m k) R E.
Proof.
  intros Hm Hk self lg HP. unfold bind. specialize (Hm self lg HP).
  destruct (m self lg) as [[[a|e] s1] lg1]; [|exact Hm].
  apply (Hk a s1 lg1 Hm).
Qed.

Lemma hoare_weaken (P P' : Ensemble -> Prop) (m : M A)
    (Q Q' : A -> Ensemble -> Prop) (E E' : exn -> Ensemble -> Prop) :
  hoare P m Q E ->
  (forall s, P' s -> P s) ->
  (forall a s, Q a s -> Q' a s) ->
  (forall e s, E e s -> E' e s) ->
  hoare P' m Q' E'.
Proof.
  intros Hm HP HQ HE self lg HP'. specialize (Hm self lg (HP self HP')).
  destruct (m self lg) as [[[a|e] s1] lg1]; auto.
Qed.

Lemma hoare_ret (P : Ensemble -> Prop) (a : A) (E : exn -> Ensemble -> Prop) :
  hoare P (ret a) (fun a' s => a' = a /\ P s) E.
Proof. intros self lg HP. simpl. auto. Qed.

Lemma hoare_raise (P : Ensemble -> Prop) (e : exn) (Q : A -> Ensemble -> Prop) :
  hoare P (raise e) Q (fun _ s => P s).
Proof. intros self lg HP. exact HP. Qed.

(** A call that leaves the object as it was. *)
Lemma hoare_readonly (P : Ensemble -> Prop) (m : M A) :
  (forall self lg, state_of (m self lg) = self) ->
  hoare P m (fun _ s => P s) (fun _ s => P s).
Proof.
  intros Hro self lg HP. pose proof (Hro self lg) as H. unfold state_of in H.
  destruct (m self lg) as [[[a|e] s1] lg1]; simpl in H; subst s1; exact HP.
Qed.

End Hoare.

Lemma hoare_get (P : Ensemble -> Prop) (E : exn -> Ensemble -> Prop) :
  hoare P get (fun a s => a = s /\ P s) E.
Proof. intros self lg HP. simpl. auto. Qed.

Lemma hoare_modify (P Q : Ensemble -> Prop) (f : Ensemble -> Ensemble)
    (E : exn -> Ensemble -> Prop) :
  (forall s, P s -> Q (f s)) -> hoare P (modify f) (fun _ s => Q s) E.
Proof. intros H self lg HP. simpl. auto. Qed.

Lemma hoare_emit (P : Ensemble -> Prop) (l : level) (msg : string)
    (E : exn -> Ensemble -> Prop) :
  hoare P (emit l msg) (fun _ s => P s) E.
Proof. intros self lg HP. exact HP. Qed.

Lemma hoare_liftR {A : Type} (P : Ensemble -> Prop) (r : res A) :
  hoare P (liftR r) (fun a s => r = OK a /\ P s) (fun _ s => P s).
Proof. intros self lg HP. unfold liftR. destruct r; auto. Qed.

(** A loop keeps what each of its iterations keeps. *)
Lemma hoare_for_each {A : Type} (I : Ensemble -> Prop) (l : list A)
    (body : A -> M unit) :
  (forall x, In x l -> hoare I (body x) (fun _ s => I s) (fun _ s => I s)) ->
  hoare I (for_each l body) (fun _ s => I s) (fun _ s => I s).
Proof.
  induction l as [|x l IH]; intros Hbody.
  - intros self lg HI. exact HI.
  - simpl. eapply hoare_bind.
    + apply Hbody. now left.
    + intros u. apply IH. intros y Hy. apply Hbody. now right.
Qed.

Lemma hoare_mapM {A B : Type} (I : Ensemble -> Prop) (l : list A)
    (f : A -> M B) :
  (forall x, hoare I (f x) (fun _ s => I s) (fun _ s => I s)) ->
  hoare I (mapM f l) (fun _ s => I s) (fun _ s => I s).
Proof.
  intros Hf. induction l as [|x l IH].
  - intros self lg HI. exact HI.
  - simpl. eapply hoare_bind; [apply Hf|]. intros y.
    eapply hoare_bind; [apply IH|]. intros ys.
    intros self lg HI. exact HI.
Qed.

Section Keeps.

Context {A B : Type} (I : Ensemble -> Prop).

Lemma keeps_bind (m : M A) (k : A -> M B) :
  keeps I m -> (forall a, keeps I (k a)) -> keeps I (bind m k).
Proof. intros Hm Hk. eapply hoare_bind; [exact Hm|exact Hk]. Qed.

Lemma keeps_ret (a : A) : keeps I (ret a).
Proof. intros self lg HI. exact HI. Qed.

Lemma keeps_raise (e : exn) : keeps I (@raise A e).
Proof. intros self lg HI. exact HI. Qed.

Lemma keeps_liftR (r : res A) : keeps I (liftR r).
Proof. intros self lg HI. unfold liftR. destruct r; exact HI. Qed.

Lemma keeps_readonly (m : M A) :
  (forall self lg, state_of (m self lg) = self) -> keeps I m.
Proof. apply hoare_readonly. Qed.

End Keeps.

Lemma keeps_get (I : Ensemble -> Prop) : keeps I get.
Proof. intros self lg HI. exact HI. Qed.

Lemma keeps_emit (I : Ensemble -> Prop) (l : level) (msg : string) :
  keeps I (emit l msg).
Proof. intros self lg HI. exact HI. Qed.

Lemma keeps_modify (I : Ensemble -> Prop) (f : Ensemble -> Ensemble) :
  (forall s, I s -> I (f s)) -> keeps I (modify f).
Proof. intros H self lg HI. simpl. auto. Qed.

Lemma keeps_for_each {A : Type} (I : Ensemble -> Prop) (l : list A)
    (body : A -> M unit) :
  (forall x, In x l -> keeps I (body x)) -> keeps I (for_each l body).
Proof. apply hoare_for_each. Qed.

Lemma keeps_mapM {A B : Type} (I : Ensemble -> Prop) (l : list A) (f : A -> M B) :
  (forall x, keeps I (f x)) -> keeps I (mapM f l).
Proof. apply hoare_mapM. Qed.

(** A continuation that may rely on the invariant of the object it reads. *)
Lemma keeps_bind_get {B : Type} (I : Ensemble -> Prop) (k : Ensemble -> M B) :
  (forall a, I a -> keeps I (k a)) -> keeps I (bind get k).
Proof.
  intros Hk self lg HI. unfold bind, get. apply (Hk self HI self lg HI).
Qed.

(** ** The invariant of the ensemble is kept by its methods *)

Section Invariant.

Context {W : World}.

Lemma inv_frame (s s' : Ensemble) :
  _models s' = _models s -> _child_ensembles s' = _child_ensembles s ->
  inv s -> inv s'.
Proof.
  unfold inv, models_ok, children_ok. intros -> ->. auto.
Qed.

Lemma inv_set_models (s : Ensemble) (d : dict) :
  inv s -> wf_dict d -> inv (set_models (Some d) s).
Proof.
  unfold inv, models_ok, children_ok. intros [_ Hc] Hwf. simpl. split; [|exact Hc].
  intros d' H. inversion H; subst. exact Hwf.
Qed.

Lemma keeps_model_library : keeps inv model_library.
Proof.
  unfold model_library.
  apply keeps_bind_get. intros self _.
  apply keeps_bind.
  - destruct (truthy (_model_library self)); [apply keeps_ret|].
    apply keeps_bind; [apply keeps_emit|]. intros _.
    apply keeps_bind; [apply keeps_liftR|]. intros lib.
    apply keeps_modify. intros s. now apply inv_frame.
  - intros _. apply keeps_bind_get. intros s _.
    destruct (_model_library s); apply keeps_ret.
Qed.

Lemma keeps_models_dict : keeps inv models_dict.
Proof.
  unfold models_dict. apply keeps_bind_get. intros self _.
  destruct (_models self); [apply keeps_ret|apply keeps_raise].
Qed.

Lemma keeps_total : keeps inv _total_model_weights.
Proof.
  unfold _total_model_weights. apply keeps_bind; [apply keeps_models_dict|].
  intros d. apply keeps_ret.
Qed.

Lemma keeps_average : keeps inv _averaged_validation_predictions.
Proof.
  unfold _averaged_validation_predictions.
  apply keeps_bind; [apply keeps_models_dict|]. intros d.
  apply keeps_bind; [apply keeps_liftR|]. intros st.
  apply keeps_bind; [apply keeps_total|]. intros t. apply keeps_ret.
Qed.

Lemma keeps_add_model (m : Model) (w : Z) :
  (1 <= w)%Z -> keeps inv (_add_model m w).
Proof.
  intros Hw self lg HI.
  destruct (_models self) as [d|] eqn:Hd.
  - rewrite (add_model_run m w self lg d Hd).
    apply inv_set_models; [exact HI|].
    apply wf_dict_add_to; [|exact Hw]. now apply (proj1 HI).
  - rewrite (add_model_none m w self lg Hd). exact HI.
Qed.

Lemma keeps_seed (n : Z) : keeps inv (build_initial_ensemble n).
Proof.
  unfold build_initial_ensemble.
  destruct (negb (0 <? n)%Z); [apply keeps_raise|].
  apply keeps_bind_get. intros self _.
  apply keeps_bind.
  - destruct (truthy (_models self)); [|apply keeps_ret].
    apply keeps_bind; [apply keeps_emit|]. intros _.
    apply keeps_modify. intros s Hs. apply inv_set_models; [exact Hs|].
    apply wf_dict_nil.
  - intros _. apply keeps_bind; [apply keeps_model_library|]. intros lib.
    apply keeps_bind_get. intros s _. cbv zeta.
    apply keeps_bind.
    + apply keeps_for_each. intros m _. apply keeps_add_model. lia.
    + intros _. apply keeps_bind; [apply keeps_average|]. intros avg.
      apply keeps_emit.
Qed.

Lemma keeps_step (prev : option Model) : keeps inv (add_models_step prev).
Proof.
  unfold add_models_step.
  apply keeps_bind_get. intros self _. cbv zeta.
  apply keeps_bind; [apply keeps_average|]. intros avg.
  apply keeps_bind; [apply keeps_total|]. intros tw.
  apply keeps_bind; [apply keeps_model_library|]. intros lib.
  apply keeps_bind_get. intros s _.
  apply keeps_bind; [apply keeps_liftR|]. intros st.
  destruct (fst st) as [m|]; [|apply keeps_raise].
  apply keeps_bind; [apply keeps_add_model; lia|]. intros _.
  apply keeps_bind; [apply keeps_total|]. intros size.
  apply keeps_bind; [apply keeps_emit|]. intros _. apply keeps_ret.
Qed.

Lemma keeps_loop (n : nat) :
  forall prev, keeps inv (add_models_loop n prev).
Proof.
  induction n as [|n IH]; intros prev; simpl.
  - apply keeps_ret.
  - apply keeps_bind; [apply keeps_step|]. intros b. apply IH.
Qed.

Lemma keeps_add_models (n : Z) : keeps inv (add_models n).
Proof.
  unfold add_models. destruct (negb (0 <? n)%Z); [apply keeps_raise|].
  apply keeps_loop.
Qed.

Lemma hoare_pure_pre {A : Type} (P : Ensemble -> Prop) (phi : Prop) (m : M A)
    (Q : A -> Ensemble -> Prop) (E : exn -> Ensemble -> Prop) :
  (phi -> hoare P m Q E) -> hoare (fun s => P s /\ phi) m Q E.
Proof. intros H self lg [HP Hphi]. now apply H. Qed.

Lemma hoare_on_object {A : Type} (obj : Ensemble) (act : M A) :
  inv obj -> keeps inv act ->
  hoare inv (on_object obj act)
        (fun r s => inv s /\ inv (snd r)) (fun _ s => inv s).
Proof.
  intros Hobj Hact self lg HI. unfold on_object.
  specialize (Hact obj lg Hobj).
  destruct (act obj lg) as [[[a|e] o'] lg']; simpl; auto.
Qed.

Lemma init_inv (metric : Metric) (y_true : list Z) (lib : option (list Model))
    (dir : option string) (shrink : bool) (n_jobs : Z) (enc : option nat)
    (lg lg' : log) (c : Ensemble) :
  __init__ metric y_true lib dir shrink n_jobs enc lg = (OK c, lg') -> inv c.
Proof.
  unfold __init__. intros H.
  assert (Hc : _models c = Some [] /\ _child_ensembles c = Some []).
  { destruct lib, dir; inversion H; subst; simpl; auto. }
  destruct Hc as [Hm Hch]. split.
  - intros d Hd. rewrite Hm in Hd. inversion Hd. apply wf_dict_nil.
  - intros cs Hcs. rewrite Hch in Hcs. inversion Hcs. constructor.
Qed.

Lemma keeps_library_item (idx : nat) : keeps inv (library_item idx).
Proof.
  unfold library_item. apply keeps_bind; [apply keeps_model_library|].
  intros lib. destruct (nth_error lib idx); [apply keeps_ret|apply keeps_raise].
Qed.

Lemma keeps_build_round (draw : nat -> nat -> list nat) (start_size total_size : Z) :
  keeps inv (build_round draw start_size total_size).
Proof.
  unfold build_round.
  apply keeps_bind; [apply keeps_emit|]. intros _.
  apply keeps_bind; [apply keeps_model_library|]. intros lib.
  apply keeps_bind_get. intros self _. cbv zeta.
  apply keeps_bind; [apply keeps_model_library|]. intros lib'.
  apply keeps_bind.
  { destruct (_ || _); [apply keeps_raise|apply keeps_ret]. }
  intros _.
  apply keeps_bind; [apply keeps_mapM; intros idx; apply keeps_library_item|].
  intros subset.
  apply keeps_bind_get. intros s _.
  eapply hoare_bind with (Q := fun c s' => inv s' /\ inv c).
  { intros s0 lg0 HI.
    destruct (__init__ (_metric s0) (_y_true s0) (Some subset) None true 1 None lg0)
      as [[c|e] lg1] eqn:Ei; [|exact HI].
    split; [exact HI|]. eapply init_inv. exact Ei. }
  intros c. apply hoare_pure_pre. intros Hc.
  eapply hoare_bind.
  { apply hoare_on_object; [exact Hc|].
    apply keeps_bind; [apply keeps_seed|]. intros _. apply keeps_add_models. }
  intros built. apply hoare_pure_pre. intros Hb.
  apply keeps_bind_get. intros s2 Hs2.
  destruct (_child_ensembles s2) as [children|] eqn:Hch; [|apply keeps_raise].
  apply keeps_modify. intros s3 Hs3.
  split.
  - exact (proj1 Hs3).
  - intros cs Hcs. simpl in Hcs. inversion Hcs; subst.
    apply Forall_app. split.
    + exact (proj2 Hs2 children Hch).
    + constructor; [exact (proj1 Hb)|constructor].
Qed.

Lemma keeps_merge_children (children : list Ensemble) :
  Forall models_ok children -> keeps inv (merge_children children).
Proof.
  intros Hall. unfold merge_children. apply keeps_for_each.
  intros c Hc. rewrite Forall_forall in Hall. specialize (Hall c Hc).
  destruct (_models c) as [d|] eqn:Hd; [|apply keeps_raise].
  apply keeps_for_each. intros [m w] Hin.
  apply keeps_add_model.
  destruct (Hall d Hd) as [_ Hw]. unfold weights_from_one in Hw.
  rewrite Forall_forall in Hw. unfold values in Hin.
  apply in_map_iff in Hin. destruct Hin as ([k [m' w']] & Heq & Hin).
  simpl in Heq. inversion Heq; subst. exact (Hw _ Hin).
Qed.

Lemma keeps_build_ (draws : nat -> nat -> nat -> list nat)
    (n_ensembles start_size total_size : Z) :
  keeps inv (build_ draws n_ensembles start_size total_size).
Proof.
  unfold build_.
  apply keeps_bind.
  { apply keeps_for_each. intros i _. apply keeps_build_round. }
  intros _. apply keeps_bind.
  { apply keeps_modify. intros s Hs. apply inv_set_models; [exact Hs|].
    apply wf_dict_nil. }
  intros _. apply keeps_bind_get. intros s Hs.
  destruct (_child_ensembles s) as [children|] eqn:Hch; [|apply keeps_raise].
  apply keeps_merge_children. exact (proj2 Hs children Hch).
Qed.

Lemma keeps_run_op (o : op) : keeps inv (run_op o).
Proof.
  destruct o; simpl.
  - apply keeps_seed.
  - apply keeps_add_models.
  - apply keeps_build_.
Qed.

(** The invariant holds after any sequence of operations, whether or not
    some of them raise. *)
Lemma inv_run_ops (ops : list op) :
  forall self lg, inv self -> inv (fst (run_ops ops self lg)).
Proof.
  induction ops as [|o ops IH]; intros self lg HI; [exact HI|].
  simpl. pose proof (keeps_run_op o self lg HI) as H.
  destruct (run_op o self lg) as [[[u|e] s1] lg1]; apply IH; exact H.
Qed.

(** ** Accounting of the additions *)

Lemma model_library_models (self s1 : Ensemble) (lg lg1 : log)
    (r : res (list Model)) :
  model_library self lg = (r, s1, lg1) -> _models s1 = _models self.
Proof.
  unfold model_library, bind, get, ret, modify, emit, liftR.
  destruct (truthy (_model_library self)); simpl.
  - destruct (_model_library self); intros E; inversion E; reflexivity.
  - destruct (load_predictions _ _); simpl.
    + intros E; inversion E; reflexivity.
    + intros E; inversion E; reflexivity.
Qed.

(** A step that returns has added one model at weight 1. *)
Lemma add_models_step_adds (prev b : option Model) (self s' : Ensemble)
    (lg lg' : log) :
  add_models_step prev self lg = (OK b, s', lg') ->
  exists d m, _models self = Some d /\ _models s' = Some (add_to m 1 d).
Proof.
  unfold add_models_step. unfold bind at 1, get at 1.
  destruct (_models self) as [d|] eqn:Hd.
  2:{ rewrite (bind_raise _ _ _ _ _ _ _ (average_run_none self lg Hd)).
      discriminate. }
  rewrite (bind_ok_res _ _ _ _ _ (average_run self lg d Hd)).
  destruct (weighted_average d) as [avg|e]; [|discriminate].
  rewrite (bind_ok _ _ _ _ _ _ _ (total_run self lg d Hd)).
  unfold bind at 1.
  destruct (model_library self lg) as [[[lib|e] s1] lg1] eqn:Hlib;
    [|discriminate].
  pose proof (model_library_models _ _ _ _ _ Hlib) as Hd1. rewrite Hd in Hd1.
  unfold bind at 1, get at 1. unfold bind at 1, liftR.
  destruct (scan_library _ _ _ _ _) as [[b1 q1]|e]; [|discriminate].
  cbv beta iota delta [fst].
  destruct b1 as [m|]; [|discriminate].
  rewrite (bind_ok _ _ _ _ _ _ _ (add_model_run m 1 s1 lg1 d Hd1)).
  rewrite (bind_ok _ _ _ _ _ _ _
             (total_run (set_models (Some (add_to m 1 d)) s1)
                        (lg1 ++ [added_log]) (add_to m 1 d) eq_refl)).
  unfold bind, emit, ret. intros E. inversion E; subst.
  exists d, m. split; reflexivity.
Qed.

Lemma add_models_loop_total (n : nat) :
  forall (prev : option Model) (self s' : Ensemble) (lg lg' : log) (d : dict),
  add_models_loop n prev self lg = (OK tt, s', lg') ->
  _models self = Some d -> well_keyed d ->
  exists d', _models s' = Some d' /\ well_keyed d'
             /\ total d' = (total d + Z.of_nat n)%Z.
Proof.
  induction n as [|n IH]; intros prev self s' lg lg' d H Hd Hwk.
  - inversion H; subst. exists d.
    split; [assumption|]. split; [assumption|]. simpl. lia.
  - simpl add_models_loop in H. unfold bind at 1 in H.
    destruct (add_models_step prev self lg) as [[[b|e] s1] lg1] eqn:E;
      [|discriminate].
    destruct (add_models_step_adds _ _ _ _ _ _ E) as (d0 & m & Hd0 & Hd1).
    rewrite Hd in Hd0. inversion Hd0; subst d0.
    destruct (IH b s1 s' lg1 lg' (add_to m 1 d) H Hd1
                (well_keyed_add_to m 1 d Hwk)) as (d' & Hd' & Hwk' & Ht).
    exists d'. split; [assumption|]. split; [assumption|].
    rewrite Ht, total_add_to by assumption. lia.
Qed.

(** [add_models(n)] that returns has raised the total weight by n. *)
Lemma add_models_total (n : Z) (self s' : Ensemble) (lg lg' : log) :
  models_ok self ->
  add_models n self lg = (OK tt, s', lg') ->
  exists d d', _models self = Some d /\ _models s' = Some d'
               /\ total d' = (total d + n)%Z.
Proof.
  intros Hok. unfold add_models.
  destruct (Z.ltb_spec 0 n) as [Hn|Hn]; simpl; [|discriminate].
  intros H.
  destruct (_models self) as [d|] eqn:Hd.
  - destruct (add_models_loop_total _ _ _ _ _ _ d H Hd (proj1 (Hok d Hd)))
      as (d' & Hd' & _ & Ht).
    exists d, d'. rewrite Z2Nat.id in Ht by lia. auto.
  - destruct (Z.to_nat n) as [|k] eqn:Ek; [lia|].
    simpl add_models_loop in H. unfold bind at 1 in H.
    destruct (add_models_step None self lg) as [[[b|e] s1] lg1] eqn:E;
      [|discriminate].
    destruct (add_models_step_adds _ _ _ _ _ _ E) as (d0 & m & Hd0 & _).
    congruence.
Qed.

Lemma seed_tail_models (n : Z) (s s' : Ensemble) (lg lg' : log)
    (lib : list Model) :
  (0 < n)%Z -> _model_library s = Some lib -> lib <> [] ->
  (library <- model_library ;;
   self <- get ;;
   let sorted_ensembles := sorted (individual_score self) library in
   let sorted_ensembles :=
     if _maximize self then rev sorted_ensembles else sorted_ensembles in
   let selected_models := firstn (Z.to_nat n) sorted_ensembles in
   for_each selected_models (fun model => _add_model model 1%Z) ;;;
   average <- _averaged_validation_predictions ;;
   emit DEBUG "Initial ensemble created with score {}") s lg
  = (OK tt, s', lg') ->
  exists d,
    _models s = Some d
    /\ _models s'
       = Some (replay (map (fun m => (m, 1%Z))
                           (firstn (Z.to_nat n) (ranked s lib))) d).
Proof.
  intros Hn Hlib Hne.
  rewrite (bind_ok _ _ _ _ _ _ _ (model_library_cached s lg lib Hlib Hne)).
  unfold bind at 1, get at 1. cbv zeta. fold (ranked s lib).
  destruct (_models s) as [d|] eqn:Hd.
  - rewrite (bind_ok _ _ _ _ _ _ _
               (seed_additions_run _ s lg d Hd)).
    set (d2 := replay (map (fun m => (m, 1%Z))
                          (firstn (Z.to_nat n) (ranked s lib))) d).
    rewrite (bind_ok_res _ _ _ _ _
               (average_run (set_models (Some d2) s) _ d2 eq_refl)).
    destruct (weighted_average d2) as [avg|e]; [|discriminate].
    unfold emit. intros E. inversion E; subst. exists d. split; reflexivity.
  - assert (Hsel : exists m sel, firstn (Z.to_nat n) (ranked s lib) = m :: sel).
    { pose proof (ranked_perm s lib) as Hp.
      destruct (ranked s lib) as [|m r] eqn:Er.
      - apply Permutation_nil in Hp. congruence.
      - destruct (Z.to_nat n) as [|k] eqn:Ek; [lia|]. simpl. eauto. }
    destruct Hsel as (m & sel & ->). simpl for_each.
    unfold bind at 1. unfold bind at 1.
    rewrite (add_model_none m 1 s lg Hd). discriminate.
Qed.

(** Seeding that returns has made, on the emptied set, one addition for
    each of the first n models of the ranking: n of them, or as many as the
    library has. *)
Lemma seed_total (n : Z) (self s' : Ensemble) (lg lg' : log) (lib : list Model) :
  _model_library self = Some lib -> lib <> [] ->
  build_initial_ensemble n self lg = (OK tt, s', lg') ->
  exists d',
    _models s' = Some d'
    /\ d' = replay (map (fun m => (m, 1%Z))
                        (firstn (Z.to_nat n) (ranked self lib))) []
    /\ total d' = Z.min n (Z.of_nat (length lib)).
Proof.
  intros Hlib Hne. unfold build_initial_ensemble.
  destruct (Z.ltb_spec 0 n) as [Hn|Hn]; [|discriminate].
  change (negb true) with false. cbv beta iota.
  unfold bind at 1, get at 1.
  assert (Htot : total (replay (map (fun m => (m, 1%Z))
                                  (firstn (Z.to_nat n) (ranked self lib))) [])
                 = Z.min n (Z.of_nat (length lib))).
  { rewrite total_replay by apply well_keyed_nil.
    rewrite sum_ones.
    - rewrite length_map, length_firstn, (Permutation_length (ranked_perm self lib)).
      rewrite total_nil. lia.
    - apply Forall_forall. intros e He. apply in_map_iff in He.
      destruct He as (m & <- & _). reflexivity. }
  destruct (_models self) as [[|e0 d0]|] eqn:Hd; simpl truthy; cbv beta iota.
  - unfold bind at 1, ret at 1. intros H.
    destruct (seed_tail_models n self s' lg lg' lib Hn Hlib Hne H)
      as (d & Hd' & Hs').
    rewrite Hd in Hd'. inversion Hd'; subst d.
    eexists. split; [exact Hs'|]. split; [reflexivity|exact Htot].
  - unfold bind at 1. unfold bind at 1, emit at 1, modify at 1. intros H.
    destruct (seed_tail_models n (set_models (Some []) self) s'
                (lg ++ [overwrite_log]) lg' lib Hn Hlib Hne H)
      as (d & Hd' & Hs').
    simpl in Hd'. inversion Hd'; subst d.
    eexists. split; [exact Hs'|]. split; [reflexivity|exact Htot].
  - unfold bind at 1, ret at 1. intros H.
    destruct (seed_tail_models n self s' lg lg' lib Hn Hlib Hne H)
      as (d & Hd' & _).
    congruence.
Qed.

End Invariant.

(** Counterexample to claim C6 as stated.  Seeding with 3 over a library of
    two models returns normally and is credited with 3 additions, while the
    total weight is 2; and seeding twice with 2 over the example library is
    credited with 4 additions, while the second seeding has emptied the set
    and the total weight is 2. *)
Lemma seeding_total_differs_from_credit :
  result_of (run_op (W:=example_world) (Seed 3) (example_ensemble small_library) [])
  = OK tt
  /\ option_map total
       (_models (fst (run_ops (W:=example_world) [Seed 3]
                        (example_ensemble small_library) [])))
     = Some 2%Z
  /\ credited [Seed 3] = 3%Z
  /\ option_map total
       (_models (fst (run_ops (W:=example_world) [Seed 2; Seed 2]
                        (example_ensemble example_library) [])))
     = Some 2%Z
  /\ credited [Seed 2; Seed 2] = 4%Z.
Proof.
  repeat split.
Qed.

(** ** The online update of the average *)

Section Arrays.

Lemma zip_with_length (f : Q -> Q -> Q) (xs ys : list Q) :
  length xs = length ys -> length (zip_with f xs ys) = length xs.
Proof.
  revert ys. induction xs as [|x xs IH]; intros [|y ys] H; simpl in *;
    try congruence.
  f_equal. apply IH. congruence.
Qed.

Lemma zip_with_nth (f : Q -> Q -> Q) (xs ys : list Q) (i : nat) :
  length xs = length ys -> (i < length xs)%nat ->
  nth i (zip_with f xs ys) 0%Q = f (nth i xs 0%Q) (nth i ys 0%Q).
Proof.
  revert ys i. induction xs as [|x xs IH]; intros [|y ys] i H Hi;
    simpl in *; try lia.
  destruct i as [|i]; [reflexivity|]. apply IH; lia.
Qed.

Lemma map_nth_lt (f : Q -> Q) (l : list Q) (i : nat) :
  (i < length l)%nat -> nth i (map f l) 0%Q = f (nth i l 0%Q).
Proof.
  intros Hi. rewrite (nth_indep _ 0%Q (f 0%Q)) by now rewrite length_map.
  apply map_nth.
Qed.

Lemma Forall2_Qeq_nth (xs ys : list Q) :
  length xs = length ys ->
  (forall i, (i < length xs)%nat -> (nth i xs 0 == nth i ys 0)%Q) ->
  Forall2 Qeq xs ys.
Proof.
  revert ys. induction xs as [|x xs IH]; intros [|y ys] Hl H;
    simpl in *; try congruence; constructor.
  - apply (H 0%nat). lia.
  - apply IH; [congruence|]. intros i Hi. apply (H (S i)). lia.
Qed.

Lemma Qsum_app (l1 l2 : list Q) : (Qsum (l1 ++ l2) == Qsum l1 + Qsum l2)%Q.
Proof.
  induction l1 as [|x l1 IH]; simpl; [ring|]. rewrite IH. ring.
Qed.

(** [np.sum(..., axis=0)] adds the slices entry by entry. *)
Lemma fold_add_slices (rest : list ndarray) :
  forall (a : ndarray) (n : nat),
    length (data a) = n ->
    (forall b, In b rest -> length (data b) = n) ->
    shape (fold_left add_slices rest a) = shape a
    /\ length (data (fold_left add_slices rest a)) = n
    /\ forall i, (i < n)%nat ->
         (entry i (fold_left add_slices rest a)
          == entry i a + Qsum (map (entry i) rest))%Q.
Proof.
  induction rest as [|b rest IH]; intros a n Ha Hall; simpl.
  - repeat split; try assumption. intros i _. ring.
  - assert (Hb : length (data b) = n) by (apply Hall; now left).
    assert (Hab : length (data (add_slices a b)) = n).
    { unfold add_slices. simpl. rewrite zip_with_length; congruence. }
    destruct (IH (add_slices a b) n Hab) as (Hs & Hl & He).
    { intros b' Hb'. apply Hall. now right. }
    repeat split; try assumption.
    intros i Hi. rewrite (He i Hi). unfold entry at 1, add_slices. simpl.
    rewrite zip_with_nth by congruence. unfold entry. ring.
Qed.

Lemma sum_axis0_entries (a : ndarray) (rest : list ndarray) (n : nat) :
  (forall b, In b (a :: rest) -> length (data b) = n) ->
  shape (sum_axis0 (a :: rest)) = shape a
  /\ length (data (sum_axis0 (a :: rest))) = n
  /\ forall i, (i < n)%nat ->
       (entry i (sum_axis0 (a :: rest))
        == Qsum (map (entry i) (a :: rest)))%Q.
Proof.
  intros Hall. simpl. apply fold_add_slices.
  - apply Hall. now left.
  - intros b Hb. apply Hall. now right.
Qed.

End Arrays.

Section Online.

Lemma entry_mul_scalar (a : ndarray) (w : Q) (i : nat) :
  (i < length (data a))%nat ->
  entry i (mul_scalar a w) = (entry i a * w)%Q.
Proof. intros Hi. unfold entry, mul_scalar. simpl. now rewrite map_nth_lt. Qed.

Lemma entry_div_scalar (a : ndarray) (w : Q) (i : nat) :
  (i < length (data a))%nat ->
  entry i (div_scalar a w) = (entry i a / w)%Q.
Proof. intros Hi. unfold entry, div_scalar. simpl. now rewrite map_nth_lt. Qed.

Lemma weighted_entries (d : dict) (n i : nat) :
  (forall e, In e d -> length (data (predictions (fst (snd e)))) = n) ->
  (i < n)%nat ->
  (Qsum (map (entry i)
           (map (fun '(model, weight) =>
                   mul_scalar (predictions model) (inject_Z weight))
                (values d)))
   == weighted_sum_at i d)%Q.
Proof.
  intros Hall Hi. unfold weighted_sum_at.
  induction d as [|[k [m w]] d IH]; simpl; [reflexivity|].
  rewrite IH by (intros e He; apply Hall; now right).
  rewrite entry_mul_scalar; [reflexivity|].
  pose proof (Hall (k, (m, w)) (or_introl eq_refl)) as Hm. simpl in Hm.
  rewrite Hm. exact Hi.
Qed.

(** The weighted average of a non-empty set of predictions of one shape:
    at every index, the weighted sum divided by the total weight. *)
Lemma weighted_average_entries (d : dict) (s : shape_t) (n : nat) :
  d <> [] ->
  (forall e, In e d -> extent (predictions (fst (snd e))) = (s, n)) ->
  exists avg,
    weighted_average d = OK avg
    /\ extent avg = (s, n)
    /\ forall i, (i < n)%nat ->
         (entry i avg == weighted_sum_at i d / inject_Z (total d))%Q.
Proof.
  intros Hne Hall.
  assert (Hlen : forall e, In e d ->
                   length (data (predictions (fst (snd e)))) = n).
  { intros e He. specialize (Hall e He). unfold extent in Hall. congruence. }
  pose proof (fun i => weighted_entries d n i Hlen) as Hsum.
  unfold weighted_average.
  remember (map (fun '(model, weight) =>
                   mul_scalar (predictions model) (inject_Z weight))
                (values d)) as arrays eqn:Harrays.
  assert (Hext : forall a, In a arrays -> extent a = (s, n)).
  { intros a Ha. subst arrays. unfold values in Ha. rewrite map_map in Ha.
    apply in_map_iff in Ha. destruct Ha as ([k [m w]] & <- & Hin).
    simpl. rewrite extent_mul_scalar. apply (Hall _ Hin). }
  assert (Hne' : arrays <> []).
  { subst arrays. destruct d; [congruence|discriminate]. }
  rewrite (stack_uniform arrays (s, n) Hne' Hext). simpl bindR.
  eexists. split; [reflexivity|].
  destruct arrays as [|a rest]; [congruence|].
  destruct (sum_axis0_entries a rest n) as (Hs & Hl & He).
  { intros b Hb. specialize (Hext b Hb). unfold extent in Hext. congruence. }
  split.
  - unfold extent, div_scalar. cbn [shape data].
    rewrite length_map, Hl, Hs.
    specialize (Hext a (or_introl eq_refl)). unfold extent in Hext.
    congruence.
  - intros i Hi. rewrite entry_div_scalar by (rewrite Hl; exact Hi).
    rewrite (He i Hi), (Hsum i Hi). reflexivity.
Qed.

Lemma weighted_sum_at_app (i : nat) (d1 d2 : dict) :
  (weighted_sum_at i (d1 ++ d2)
   == weighted_sum_at i d1 + weighted_sum_at i d2)%Q.
Proof. unfold weighted_sum_at. rewrite map_app. apply Qsum_app. Qed.

Lemma weighted_sum_at_cons (i : nat) (k : Pipeline) (m : Model) (w : Z)
    (d : dict) :
  weighted_sum_at i ((k, (m, w)) :: d)
  = (entry i (predictions m) * inject_Z w + weighted_sum_at i d)%Q.
Proof. reflexivity. Qed.

(** The weighted sum after [_add_model(candidate)]: the candidate's
    predictions are added once, whether its pipeline was present or not,
    when a stored record of that pipeline has the candidate's predictions. *)
Lemma weighted_sum_add_to (i : nat) (c : Model) (d : dict) :
  well_keyed d ->
  (forall m0 w0, dict_get (pipeline c) d = Some (m0, w0) ->
                 predictions m0 = predictions c) ->
  (weighted_sum_at i (add_to c 1 d)
   == weighted_sum_at i d + entry i (predictions c))%Q.
Proof.
  intros Hwk Hsame.
  destruct (add_to_cases c 1 d Hwk)
    as [[_ ->]|(l1 & l2 & m0 & w0 & Hd & -> & _ & Hn1 & _)].
  - rewrite weighted_sum_at_app, weighted_sum_at_cons.
    change (weighted_sum_at i []) with 0%Q. change (inject_Z 1) with 1%Q.
    ring.
  - assert (Hp : predictions m0 = predictions c).
    { apply (Hsame m0 w0). rewrite Hd, dict_get_app_skip by assumption.
      simpl. now rewrite Nat.eqb_refl. }
    rewrite Hd. rewrite !weighted_sum_at_app, !weighted_sum_at_cons.
    change (weighted_sum_at i []) with 0%Q.
    rewrite inject_Z_plus, Hp. change (inject_Z 1) with 1%Q. ring.
Qed.

Lemma add_to_uniform (c : Model) (w : Z) (d : dict) (sh : shape_t * nat) :
  well_keyed d ->
  (forall e, In e d -> extent (predictions (fst (snd e))) = sh) ->
  extent (predictions c) = sh ->
  add_to c w d <> []
  /\ forall e, In e (add_to c w d) ->
       extent (predictions (fst (snd e))) = sh.
Proof.
  intros Hwk Hall Hc.
  destruct (add_to_cases c w d Hwk)
    as [[_ ->]|(l1 & l2 & m0 & w0 & Hd & -> & _)].
  - split.
    + intros H. apply app_eq_nil in H. destruct H; discriminate.
    + intros e He. apply in_app_or in He. destruct He as [He|[<-|[]]].
      * now apply Hall.
      * exact Hc.
  - split.
    + intros H. apply app_eq_nil in H. destruct H as [_ H].
      apply app_eq_nil in H. destruct H; discriminate.
    + intros e He. apply in_app_or in He. destruct He as [He|He].
      * apply Hall. rewrite Hd. apply in_or_app. now left.
      * apply in_app_or in He. destruct He as [He|[<-|[]]].
        -- apply Hall. rewrite Hd. apply in_or_app. right. now right.
        -- apply (Hall (pipeline c, (m0, w0))). rewrite Hd.
           apply in_or_app. right. now left.
Qed.

(** The candidate aggregate of [add_models], entry by entry. *)
Lemma candidate_pred_entries (avg : ndarray) (weight : Z) (c : Model)
    (s : shape_t) (n : nat) :
  extent avg = (s, n) ->
  extent (predictions c) = (s, n) ->
  exists online,
    candidate_pred avg weight c = OK online
    /\ extent online = (s, n)
    /\ forall i, (i < n)%nat ->
         (entry i online
          == entry i avg
             + (entry i (predictions c) - entry i avg)
               / inject_Z (weight + 1))%Q.
Proof.
  intros Havg Hc.
  assert (Hla : length (data avg) = n) by (unfold extent in Havg; congruence).
  assert (Hlc : length (data (predictions c)) = n)
    by (unfold extent in Hc; congruence).
  assert (Hsa : shape avg = s) by (unfold extent in Havg; congruence).
  unfold candidate_pred, sub, add, elementwise.
  replace (same_shape (predictions c) avg) with true
    by (symmetry; apply same_shape_extent; congruence).
  cbn [bindR].
  match goal with
  | |- context [same_shape avg ?x] =>
      replace (same_shape avg x) with true
  end.
  - eexists. split; [reflexivity|]. split.
    + unfold extent, div_scalar. cbn [shape data].
      rewrite zip_with_length.
      * congruence.
      * rewrite length_map, zip_with_length; congruence.
    + intros i Hi. unfold entry at 1. cbn [data div_scalar].
      rewrite zip_with_nth.
      * rewrite map_nth_lt by (rewrite zip_with_length; congruence).
        rewrite zip_with_nth by congruence. reflexivity.
      * rewrite length_map, zip_with_length; congruence.
      * congruence.
  - symmetry. apply same_shape_extent. unfold extent, div_scalar.
    cbn [shape data]. rewrite length_map, zip_with_length by congruence.
    unfold extent in Hc. congruence.
Qed.

Lemma total_positive (d : dict) :
  d <> [] -> weights_from_one d -> (1 <= total d)%Z.
Proof.
  intros Hne Hw. destruct d as [|[k [m w]] d]; [congruence|].
  rewrite total_cons. inversion Hw as [|e l H1 Hrest]; subst. simpl in H1.
  assert (0 <= total d)%Z; [|lia].
  clear -Hrest. induction Hrest as [|[k' [m' w']] l Hx Hl IH].
  - rewrite total_nil. lia.
  - rewrite total_cons. simpl in Hx. lia.
Qed.

(** The scalar identity behind the online update. *)
Lemma online_scalar (a c S w : Q) :
  (0 < w)%Q -> (a == S / w)%Q ->
  (a + (c - a) / (w + 1) == (S + c) / (w + 1))%Q.
Proof.
  intros Hw Ha. rewrite Ha.
  assert (Hw0 : ~ (w == 0)%Q).
  { intros H. rewrite H in Hw. now apply (Qlt_irrefl 0). }
  assert (Hw1 : ~ (w + 1 == 0)%Q).
  { intros H. assert (0 < w + 1)%Q.
    { apply Qlt_trans with w; [assumption|].
      rewrite <- (Qplus_0_r w) at 1. apply Qplus_lt_r. reflexivity. }
    rewrite H in H0. now apply (Qlt_irrefl 0). }
  field. split; assumption.
Qed.

(** Claim C4.  Let the Weighted Model Set be non-empty and well formed (one
    entry per pipeline, weights at least 1), with predictions of one shape,
    and let the candidate have predictions of that shape and, when its
    pipeline is already in the set, the predictions stored there.  Then
    [_averaged_validation_predictions] returns the current average,
    [_total_model_weights] the total weight W, the online update
    [current_avg + (candidate.predictions - current_avg) / (W + 1)] of
    [add_models] is computed, and it equals, entry by entry in exact
    arithmetic, what [_averaged_validation_predictions] returns after
    [_add_model(candidate)]: the sum of [predictions * weight] over the new
    set divided by its total weight W + 1. *)
Theorem online_update_is_recomputation (self : Ensemble) (lg : log)
    (d : dict) (c : Model) (s : shape_t) (n : nat) :
  _models self = Some d ->
  d <> [] ->
  wf_dict d ->
  (forall e, In e d -> extent (predictions (fst (snd e))) = (s, n)) ->
  extent (predictions c) = (s, n) ->
  (forall m0 w0, dict_get (pipeline c) d = Some (m0, w0) ->
                 predictions m0 = predictions c) ->
  exists current_avg online full,
    result_of (_averaged_validation_predictions self lg) = OK current_avg
    /\ result_of (_total_model_weights self lg) = OK (total d)
    /\ candidate_pred current_avg (total d) c = OK online
    /\ result_of ((_add_model c 1 ;;; _averaged_validation_predictions) self lg)
       = OK full
    /\ total (add_to c 1 d) = (total d + 1)%Z
    /\ (forall i, (i < n)%nat ->
          (entry i full
           == weighted_sum_at i (add_to c 1 d)
              / inject_Z (total (add_to c 1 d)))%Q)
    /\ equiv online full.
Proof.
  intros Hm Hne [Hwk Hw1] Hall Hc Hsame.
  destruct (weighted_average_entries d s n Hne Hall)
    as (avg & Havg & Hea & Hia).
  destruct (candidate_pred_entries avg (total d) c s n Hea Hc)
    as (online & Hon & Heo & Hio).
  destruct (add_to_uniform c 1 d (s, n) Hwk Hall Hc) as (Hne' & Hall').
  destruct (weighted_average_entries (add_to c 1 d) s n Hne' Hall')
    as (full & Hfull & Hef & Hif).
  exists avg, online, full.
  split. { unfold result_of. now rewrite (average_run self lg d Hm). }
  split. { unfold result_of. now rewrite (total_run self lg d Hm). }
  split; [exact Hon|].
  split.
  { unfold result_of.
    rewrite (bind_ok _ _ _ _ _ _ _ (add_model_run c 1 self lg d Hm)).
    now rewrite (average_run (set_models (Some (add_to c 1 d)) self) _
                   (add_to c 1 d) eq_refl). }
  split; [now apply total_add_to|].
  split; [exact Hif|].
  unfold extent in Heo, Hef. split; [congruence|].
  apply Forall2_Qeq_nth; [congruence|].
  intros i Hi. assert (Hi' : (i < n)%nat) by congruence.
  change (entry i online == entry i full)%Q.
  rewrite (Hio i Hi'), (Hif i Hi'), (total_add_to c 1 d Hwk), inject_Z_plus.
  rewrite (weighted_sum_add_to i c d Hwk Hsame).
  change (inject_Z 1) with 1%Q.
  apply online_scalar; [|exact (Hia i Hi')].
  change 0%Q with (inject_Z 0). rewrite <- Zlt_Qlt.
  pose proof (total_positive d Hne Hw1). lia.
Qed.

End Online.

(** Witness of [online_update_is_recomputation]: the set seeded with the
    first model of the example library, and the second model as candidate. *)
Lemma online_update_is_recomputation_witness :
  exists current_avg online full,
    result_of (_averaged_validation_predictions seeded_ensemble [])
    = OK current_avg
    /\ result_of (_total_model_weights seeded_ensemble [])
       = OK (total seeded_set)
    /\ candidate_pred current_avg (total seeded_set)
         (example_model 2 (8 # 10)) = OK online
    /\ result_of ((_add_model (example_model 2 (8 # 10)) 1 ;;;
                   _averaged_validation_predictions) seeded_ensemble [])
       = OK full
    /\ total (add_to (example_model 2 (8 # 10)) 1 seeded_set)
       = (total seeded_set + 1)%Z
    /\ (forall i, (i < 1)%nat ->
          (entry i full
           == weighted_sum_at i
                (add_to (example_model 2%nat (8 # 10)) 1%Z seeded_set)
              / inject_Z (total (add_to (example_model 2%nat (8 # 10)) 1%Z
                                   seeded_set)))%Q)
    /\ equiv online full.
Proof.
  apply (online_update_is_recomputation seeded_ensemble [] seeded_set
           (example_model 2 (8 # 10)) (Shape1 1) 1).
  - reflexivity.
  - discriminate.
  - split; [split|].
    + repeat constructor. intros [].
    + repeat constructor.
    + repeat constructor. simpl. lia.
  - intros e [<-|[]]. reflexivity.
  - reflexivity.
  - intros m0 w0 H. discriminate H.
Defined.

(** * Further properties of the module *)

(** ** Construction and the library property *)

Section Construction.

Context {W : World}.

(** Property X1.
    [Ensemble(...)] raises ValueError exactly when neither a library nor a
    directory is given, and then logs nothing.  Otherwise the new object has
    an empty Weighted Model Set, no child ensembles, no fitted models,
    maximizes, holds the given library (the empty list when only a
    directory is given) and satisfies the invariant of the set; the warning
    is logged exactly when both a library and a directory are given. *)
Theorem init_needs_a_library (metric : Metric) (y_true : list Z)
    (lib : option (list Model)) (dir : option string) (shrink : bool)
    (n_jobs : Z) (enc : option nat) (lg : log) :
  (fst (__init__ metric y_true lib dir shrink n_jobs enc lg) = Raise ValueError
   <-> lib = None /\ dir = None)
  /\ match __init__ metric y_true lib dir shrink n_jobs enc lg with
     | (Raise _, lg') => lg' = lg
     | (OK c, lg') =>
         _models c = Some [] /\ _child_ensembles c = Some []
         /\ _fit_models c = None /\ _maximize c = true
         /\ _model_library c
            = Some (match lib with Some l => l | None => [] end)
         /\ _model_library_directory c = dir
         /\ inv c
         /\ lg' = (if match lib, dir with Some _, Some _ => true | _, _ => false end
                   then lg ++ [mkLog WARNING "model_library_directory will be ignored because model_library is also specified."]
                   else lg)
     end.
Proof.
  split.
  - unfold __init__. destruct lib, dir; simpl; split;
      try discriminate; try tauto; intros [? ?]; discriminate.
  - destruct (__init__ metric y_true lib dir shrink n_jobs enc lg)
      as [[c|e] lg'] eqn:E.
    + pose proof (init_inv _ _ _ _ _ _ _ _ _ _ E) as HI.
      unfold __init__ in E.
      destruct lib, dir; inversion E; subst; simpl;
        (do 6 (split; [reflexivity|])); (split; [exact HI|reflexivity]).
    + unfold __init__ in E. destruct lib, dir; inversion E; reflexivity.
Qed.

(** Property X2.
    The library property caches: an access that returns a non-empty library
    leaves it in [_model_library], changes no other attribute, and a second
    access returns the same library without reading the directory or
    logging again. *)
Theorem model_library_is_cached (self s' : Ensemble) (lg lg' : log)
    (lib : list Model) :
  model_library self lg = (OK lib, s', lg') ->
  lib <> [] ->
  s' = set_model_library (Some lib) self
  /\ model_library s' lg' = (OK lib, s', lg').
Proof.
  intros H Hne.
  assert (Hs : s' = set_model_library (Some lib) self).
  { revert H. unfold model_library, bind, get, ret, modify, emit, liftR.
    destruct (_model_library self) as [[|m l]|] eqn:El; simpl.
    - destruct (load_predictions _ _); simpl; intros E; inversion E; subst.
      reflexivity.
    - rewrite El. intros E; inversion E as [[Hl Hs']].
      clear -El Hs'. subst self. destruct s'. unfold set_model_library.
      cbn in *. rewrite <- El. reflexivity.
    - destruct (load_predictions _ _); simpl; intros E; inversion E; subst.
      reflexivity. }
  split; [exact Hs|].
  apply model_library_cached; [|exact Hne].
  rewrite Hs. reflexivity.
Qed.

End Construction.

(** Witness of [model_library_is_cached]. *)
Lemma model_library_is_cached_witness :
  example_ensemble example_library
  = set_model_library (Some example_library) (example_ensemble example_library)
  /\ model_library (W:=example_world) (example_ensemble example_library) []
     = (OK example_library, example_ensemble example_library, []).
Proof.
  apply (model_library_is_cached (W:=example_world)
           (example_ensemble example_library)
           (example_ensemble example_library) [] [] example_library).
  - reflexivity.
  - discriminate.
Defined.

(** ** Guards of the selection methods *)

Section Guards.

Context {W : World}.

(** Property X3.
    [add_models(n)] and [build_initial_ensemble(n)] with n <= 0 raise
    ValueError before anything else: the object and the log are as before,
    and the library is not read. *)
Theorem selection_needs_positive_n (n : Z) (self : Ensemble) (lg : log) :
  (n <= 0)%Z ->
  add_models n self lg = (Raise ValueError, self, lg)
  /\ build_initial_ensemble n self lg = (Raise ValueError, self, lg).
Proof.
  intros Hn. unfold add_models, build_initial_ensemble.
  destruct (Z.ltb_spec 0 n) as [H|H]; [lia|]. split; reflexivity.
Qed.

(** Property X4.
    [add_models] on an ensemble whose Weighted Model Set is empty (nothing
    seeded yet) raises the ValueError of [np.stack] on an empty list, with
    the object and the log unchanged. *)
Theorem add_models_needs_a_seeded_set (n : Z) (self : Ensemble) (lg : log) :
  _models self = Some [] ->
  (0 < n)%Z ->
  add_models n self lg = (Raise ValueError, self, lg).
Proof.
  intros Hm Hn. unfold add_models.
  destruct (Z.ltb_spec 0 n) as [H|H]; [|lia].
  change (negb true) with false. cbv beta iota.
  destruct (Z.to_nat n) as [|k] eqn:Ek; [lia|].
  simpl add_models_loop. unfold bind at 1.
  replace (add_models_step None self lg) with
    (@Raise (option Model) ValueError, self, lg); [reflexivity|].
  symmetry. unfold add_models_step. unfold bind at 1, get at 1.
  rewrite (bind_ok_res _ _ _ _ _ (average_run self lg [] Hm)).
  reflexivity.
Qed.

Lemma add_models_without_set (n : Z) (self : Ensemble) (lg : log) :
  _models self = None ->
  (0 < n)%Z ->
  add_models n self lg = (Raise AttributeError, self, lg).
Proof.
  intros Hm Hn. unfold add_models.
  destruct (Z.ltb_spec 0 n) as [H|H]; [|lia].
  change (negb true) with false. cbv beta iota.
  destruct (Z.to_nat n) as [|k] eqn:Ek; [lia|].
  simpl add_models_loop. unfold bind at 1.
  replace (add_models_step None self lg) with
    (@Raise (option Model) AttributeError, self, lg); [reflexivity|].
  symmetry. unfold add_models_step. unfold bind at 1, get at 1.
  now rewrite (bind_raise _ _ _ _ _ _ _ (average_run_none self lg Hm)).
Qed.

(** Property X5.
    On an object whose Weighted Model Set is [None] (as [__getstate__]
    leaves it when shrinking), [add_models] raises AttributeError, with the
    object and the log unchanged. *)
Theorem add_models_after_shrinking (n : Z) (self : Ensemble) (lg : log) :
  _models self = None ->
  (0 < n)%Z ->
  add_models n self lg = (Raise AttributeError, self, lg).
Proof.
  intros Hm Hn. now apply add_models_without_set.
Qed.

End Guards.

(** Witness of [selection_needs_positive_n]. *)
Lemma selection_needs_positive_n_witness :
  add_models (W:=example_world) 0 (example_ensemble example_library) []
  = (Raise ValueError, example_ensemble example_library, [])
  /\ build_initial_ensemble (W:=example_world) 0
       (example_ensemble example_library) []
     = (Raise ValueError, example_ensemble example_library, []).
Proof.
  apply (selection_needs_positive_n (W:=example_world) 0). lia.
Defined.

(** Witness of [add_models_needs_a_seeded_set]. *)
Lemma add_models_needs_a_seeded_set_witness :
  add_models (W:=example_world) 1 (example_ensemble example_library) []
  = (Raise ValueError, example_ensemble example_library, []).
Proof.
  apply (add_models_needs_a_seeded_set (W:=example_world) 1);
    [reflexivity | lia].
Defined.

(** Witness of [add_models_after_shrinking]. *)
Lemma add_models_after_shrinking_witness :
  add_models (W:=example_world) 2
    (set_models None (example_ensemble example_library)) []
  = (Raise AttributeError,
     set_models None (example_ensemble example_library), []).
Proof.
  apply (add_models_after_shrinking (W:=example_world) 2);
    [reflexivity | lia].
Defined.

(** ** Pickling and prediction *)

Section Pickling.

Context {W : World}.

(** [predict_proba] reads the fitted models, the true labels and the task
    flags of the metric only. *)
Lemma scaled_outputs_frame (s1 s2 : Ensemble) (X : features)
    (fit_models : list (Pipeline * Z)) :
  _y_true s1 = _y_true s2 ->
  is_classification (_metric s1) = is_classification (_metric s2) ->
  is_regression (_metric s1) = is_regression (_metric s2) ->
  scaled_outputs s1 X fit_models = scaled_outputs s2 X fit_models.
Proof.
  intros Hy Hc Hr. induction fit_models as [|[model weight] rest IH]; simpl.
  - reflexivity.
  - rewrite IH. unfold raw_output. now rewrite Hy, Hc, Hr.
Qed.

Lemma predict_proba_frame (s1 s2 : Ensemble) (X : features) :
  _fit_models s1 = _fit_models s2 ->
  _y_true s1 = _y_true s2 ->
  is_classification (_metric s1) = is_classification (_metric s2) ->
  is_regression (_metric s1) = is_regression (_metric s2) ->
  predict_proba s1 X = predict_proba s2 X.
Proof.
  intros Hf Hy Hc Hr. unfold predict_proba. rewrite Hf.
  destruct (_fit_models s2) as [l|]; [|reflexivity].
  now rewrite (scaled_outputs_frame s1 s2 X l Hy Hc Hr).
Qed.

(** What [__getstate__] does, in one equation. *)
Lemma getstate_run (self : Ensemble) (lg : log) :
  let s1 :=
    if contains "neg" (metric_name (_metric self))
    then set_metric (mkMetric (metric_name (_metric self)) None
                       (is_classification (_metric self))
                       (is_regression (_metric self))) self
    else self in
  let s2 :=
    if _shrink_on_pickle self
    then set_child_ensembles None (set_model_library None (set_models None s1))
    else s1 in
  exists lg', __getstate__ self lg = (OK s2, s2, lg')
              /\ (_shrink_on_pickle self = false -> lg' = lg).
Proof.
  unfold __getstate__, bind, get, modify, emit, ret.
  destruct (contains "neg" (metric_name (_metric self)));
    destruct self as [me di li [|] nj yt le fm mx ch fr mo]; simpl;
    eexists; split; try reflexivity; try discriminate; reflexivity.
Qed.

(** Property X6.
    Pickling does not change what the ensemble predicts: [predict_proba]
    gives the same result on the pickled state, and on the live object
    after [__getstate__], as on the object before the call. *)
Theorem getstate_keeps_predict_proba (self : Ensemble) (lg : log)
    (X : features) :
  bindR (result_of (__getstate__ self lg)) (fun st => predict_proba st X)
  = predict_proba self X
  /\ predict_proba (state_of (__getstate__ self lg)) X = predict_proba self X.
Proof.
  destruct (getstate_run self lg) as (lg' & -> & _).
  unfold result_of, state_of. simpl.
  assert (H : forall s, _fit_models s = _fit_models self ->
                        _y_true s = _y_true self ->
                        is_classification (_metric s)
                        = is_classification (_metric self) ->
                        is_regression (_metric s)
                        = is_regression (_metric self) ->
                        predict_proba s X = predict_proba self X).
  { intros s. apply predict_proba_frame. }
  split; apply H;
    destruct (contains "neg" (metric_name (_metric self)));
    destruct (_shrink_on_pickle self); reflexivity.
Qed.

(** Property X7.
    [__getstate__] returns the attributes of the live object as the call
    leaves them (the shrinking is done on the object itself), and a second
    call changes nothing more: it returns the same state. *)
Theorem getstate_is_idempotent (self : Ensemble) (lg : log) :
  result_of (__getstate__ self lg) = OK (state_of (__getstate__ self lg))
  /\ result_of (__getstate__ (state_of (__getstate__ self lg))
                             (log_of (__getstate__ self lg)))
     = result_of (__getstate__ self lg)
  /\ state_of (__getstate__ (state_of (__getstate__ self lg))
                            (log_of (__getstate__ self lg)))
     = state_of (__getstate__ self lg).
Proof.
  destruct (getstate_run self lg) as (lg' & E & _).
  rewrite E. unfold result_of, state_of, log_of. simpl fst. simpl snd.
  split; [reflexivity|].
  match goal with
  | |- context [__getstate__ ?s lg'] =>
      destruct (getstate_run s lg') as (lg'' & E' & _);
      rewrite E'; simpl fst; simpl snd;
      assert (Hs : (if _shrink_on_pickle s
                    then set_child_ensembles None
                           (set_model_library None
                              (set_models None
                                 (if contains "neg" (metric_name (_metric s))
                                  then set_metric
                                         (mkMetric (metric_name (_metric s)) None
                                            (is_classification (_metric s))
                                            (is_regression (_metric s))) s
                                  else s)))
                    else (if contains "neg" (metric_name (_metric s))
                          then set_metric
                                 (mkMetric (metric_name (_metric s)) None
                                    (is_classification (_metric s))
                                    (is_regression (_metric s))) s
                          else s)) = s)
  end.
  { destruct self as [[nm fn ic ir] di li [|] nj yt le fm mx ch fr mo];
      cbn [_shrink_on_pickle _metric metric_name];
      destruct (contains "neg" nm) eqn:En; cbn; rewrite ?En; reflexivity. }
  cbv zeta in E'. rewrite Hs in E'. cbv zeta. rewrite Hs. split; reflexivity.
Qed.

(** Property X8.
    With [shrink_on_pickle] off and a metric whose name does not contain
    'neg', [__getstate__] changes nothing and logs nothing: the state is
    the object as it is, models, library and child ensembles included. *)
Theorem getstate_without_shrinking (self : Ensemble) (lg : log) :
  _shrink_on_pickle self = false ->
  contains "neg" (metric_name (_metric self)) = false ->
  __getstate__ self lg = (OK self, self, lg).
Proof.
  intros Hs Hn. destruct (getstate_run self lg) as (lg' & E & Hl).
  rewrite E, (Hl Hs), Hs, Hn. reflexivity.
Qed.

End Pickling.

(** Witness of [getstate_without_shrinking]: the seeded example ensemble
    with [shrink_on_pickle] off. *)
Lemma getstate_without_shrinking_witness :
  __getstate__
    (mkEnsemble example_metric None (Some example_library) false 1%Z
       [0%Z; 1%Z] None None true (Some []) (3 # 10)%Q (Some seeded_set)) []
  = (OK (mkEnsemble example_metric None (Some example_library) false 1%Z
           [0%Z; 1%Z] None None true (Some []) (3 # 10)%Q (Some seeded_set)),
     mkEnsemble example_metric None (Some example_library) false 1%Z
       [0%Z; 1%Z] None None true (Some []) (3 # 10)%Q (Some seeded_set),
     []).
Proof.
  apply getstate_without_shrinking; reflexivity.
Defined.

Section Prediction.

Context {W : World}.

Lemma scaled_outputs_all_failed (self : Ensemble) (X : features)
    (fit_models : list (Pipeline * Z)) :
  Forall (fun e => snd e = 0%Z) fit_models ->
  scaled_outputs self X fit_models = OK [].
Proof.
  induction 1 as [|[model weight] rest Hw _ IH]; simpl; [reflexivity|].
  simpl in Hw. subst weight. exact IH.
Qed.

(** Property X9.
    When every fitted model has weight 0 (every pipeline failed to fit),
    [predict_proba] has nothing to blend and raises: IndexError
    ([predictions[0]] of an empty list) when there is one fitted model,
    ValueError ([np.stack] of an empty list) otherwise, the empty list of
    fitted models included.  No pipeline is asked for a prediction. *)
Theorem predict_proba_all_fits_failed (self : Ensemble) (X : features)
    (fit_models : list (Pipeline * Z)) :
  _fit_models self = Some fit_models ->
  Forall (fun e => snd e = 0%Z) fit_models ->
  predict_proba self X
  = Raise (if Nat.eqb (length fit_models) 1 then IndexError else ValueError).
Proof.
  intros Hf Hz. unfold predict_proba. rewrite Hf.
  rewrite (scaled_outputs_all_failed self X fit_models Hz). simpl.
  destruct (Nat.eqb (length fit_models) 1); reflexivity.
Qed.

End Prediction.

(** Witness of [predict_proba_all_fits_failed]: two pipelines, both failed. *)
Lemma predict_proba_all_fits_failed_witness :
  predict_proba (W:=example_world)
    (fitted_ensemble [(1%nat, 0%Z); (2%nat, 0%Z)]) tt
  = Raise ValueError.
Proof.
  apply (predict_proba_all_fits_failed (W:=example_world)
           (fitted_ensemble [(1%nat, 0%Z); (2%nat, 0%Z)]) tt
           [(1%nat, 0%Z); (2%nat, 0%Z)]).
  - reflexivity.
  - repeat constructor.
Defined.

(** ** What the selection methods leave alone *)

(** A method call on another object leaves [self] as it is. *)
Lemma keeps_on_object {A : Type} (I : Ensemble -> Prop) (obj : Ensemble)
    (act : M A) :
  keeps I (on_object obj act).
Proof.
  intros self lg HI. unfold on_object.
  destruct (act obj lg) as [[[a|e] o'] lg']; exact HI.
Qed.

Section Frame.

Context {W : World}.

(** A property of the object that assignments to [_models] and to
    [_model_library] keep, and that appending a child ensemble keeps. *)
Variable I : Ensemble -> Prop.

Hypothesis I_models : forall v s, I s -> I (set_models v s).
Hypothesis I_library : forall v s, I s -> I (set_model_library v s).
Hypothesis I_children :
  forall children child s,
    I s -> _child_ensembles s = Some children ->
    I (set_child_ensembles (Some (children ++ [child])) s).

Lemma frame_model_library : keeps I model_library.
Proof.
  unfold model_library.
  apply keeps_bind_get. intros self _.
  apply keeps_bind.
  - destruct (truthy (_model_library self)); [apply keeps_ret|].
    apply keeps_bind; [apply keeps_emit|]. intros _.
    apply keeps_bind; [apply keeps_liftR|]. intros lib.
    apply keeps_modify. apply I_library.
  - intros _. apply keeps_bind_get. intros s _.
    destruct (_model_library s); apply keeps_ret.
Qed.

Lemma frame_models_dict : keeps I models_dict.
Proof.
  unfold models_dict. apply keeps_bind_get. intros self _.
  destruct (_models self); [apply keeps_ret|apply keeps_raise].
Qed.

Lemma frame_total : keeps I _total_model_weights.
Proof.
  unfold _total_model_weights. apply keeps_bind; [apply frame_models_dict|].
  intros d. apply keeps_ret.
Qed.

Lemma frame_average : keeps I _averaged_validation_predictions.
Proof.
  unfold _averaged_validation_predictions.
  apply keeps_bind; [apply frame_models_dict|]. intros d.
  apply keeps_bind; [apply keeps_liftR|]. intros st.
  apply keeps_bind; [apply frame_total|]. intros t. apply keeps_ret.
Qed.

Lemma frame_add_model (m : Model) (w : Z) : keeps I (_add_model m w).
Proof.
  unfold _add_model. apply keeps_bind; [apply frame_models_dict|]. intros d.
  apply keeps_bind; [|intros _; apply keeps_emit].
  apply keeps_modify. apply I_models.
Qed.

Lemma frame_seed (n : Z) : keeps I (build_initial_ensemble n).
Proof.
  unfold build_initial_ensemble.
  destruct (negb (0 <? n)%Z); [apply keeps_raise|].
  apply keeps_bind_get. intros self _.
  apply keeps_bind.
  - destruct (truthy (_models self)); [|apply keeps_ret].
    apply keeps_bind; [apply keeps_emit|]. intros _.
    apply keeps_modify. apply I_models.
  - intros _. apply keeps_bind; [apply frame_model_library|]. intros lib.
    apply keeps_bind_get. intros s _. cbv zeta.
    apply keeps_bind.
    + apply keeps_for_each. intros m _. apply frame_add_model.
    + intros _. apply keeps_bind; [apply frame_average|]. intros avg.
      apply keeps_emit.
Qed.

Lemma frame_step (prev : option Model) : keeps I (add_models_step prev).
Proof.
  unfold add_models_step.
  apply keeps_bind_get. intros self _. cbv zeta.
  apply keeps_bind; [apply frame_average|]. intros avg.
  apply keeps_bind; [apply frame_total|]. intros tw.
  apply keeps_bind; [apply frame_model_library|]. intros lib.
  apply keeps_bind_get. intros s _.
  apply keeps_bind; [apply keeps_liftR|]. intros st.
  destruct (fst st) as [m|]; [|apply keeps_raise].
  apply keeps_bind; [apply frame_add_model|]. intros _.
  apply keeps_bind; [apply frame_total|]. intros size.
  apply keeps_bind; [apply keeps_emit|]. intros _. apply keeps_ret.
Qed.

Lemma frame_add_models (n : Z) : keeps I (add_models n).
Proof.
  unfold add_models. destruct (negb (0 <? n)%Z); [apply keeps_raise|].
  generalize (@None Model). induction (Z.to_nat n) as [|k IH]; intros prev.
  - apply keeps_ret.
  - simpl. apply keeps_bind; [apply frame_step|]. intros b. apply IH.
Qed.

Lemma frame_library_item (idx : nat) : keeps I (library_item idx).
Proof.
  unfold library_item. apply keeps_bind; [apply frame_model_library|].
  intros lib. destruct (nth_error lib idx); [apply keeps_ret|apply keeps_raise].
Qed.

Lemma frame_build_round (draw : nat -> nat -> list nat)
    (start_size total_size : Z) :
  keeps I (build_round draw start_size total_size).
Proof.
  unfold build_round.
  apply keeps_bind; [apply keeps_emit|]. intros _.
  apply keeps_bind; [apply frame_model_library|]. intros lib.
  apply keeps_bind_get. intros self _. cbv zeta.
  apply keeps_bind; [apply frame_model_library|]. intros lib'.
  apply keeps_bind.
  { destruct (_ || _); [apply keeps_raise|apply keeps_ret]. }
  intros _.
  apply keeps_bind; [apply keeps_mapM; intros idx; apply frame_library_item|].
  intros subset.
  apply keeps_bind_get. intros s _.
  apply keeps_bind.
  { intros s0 lg0 HI.
    destruct (__init__ (_metric s0) (_y_true s0) (Some subset) None true 1 None lg0)
      as [[ch|e] lg1]; exact HI. }
  intros ch. apply keeps_bind.
  { apply keeps_on_object. }
  intros built s2 lg2 HI. unfold bind, get.
  destruct (_child_ensembles s2) as [children|] eqn:Hch; simpl;
    [now apply I_children|exact HI].
Qed.

Lemma frame_build_ (draws : nat -> nat -> nat -> list nat)
    (n_ensembles start_size total_size : Z) :
  keeps I (build_ draws n_ensembles start_size total_size).
Proof.
  unfold build_.
  apply keeps_bind.
  { apply keeps_for_each. intros i _. apply frame_build_round. }
  intros _. apply keeps_bind.
  { apply keeps_modify. apply I_models. }
  intros _. apply keeps_bind_get. intros s _.
  destruct (_child_ensembles s) as [children|]; [|apply keeps_raise].
  unfold merge_children. apply keeps_for_each. intros ch _.
  destruct (_models ch) as [d|]; [|apply keeps_raise].
  apply keeps_for_each. intros [m w] _. apply frame_add_model.
Qed.

Lemma frame_run_op (o : op) : keeps I (run_op o).
Proof.
  destruct o; simpl.
  - apply frame_seed.
  - apply frame_add_models.
  - apply frame_build_.
Qed.

End Frame.

Section Selection_frame.

Context {W : World}.

(** Property X10.
    Seeding, stepwise adding and bagging assign only [_models],
    [_model_library] and [_child_ensembles]: after any sequence of these
    operations, whether or not some of them raise, the metric, the library
    directory, the true labels, the label encoder, the fitted models, the
    direction and the other settings are as before.  So the operations do
    not change what [predict_proba] returns: a new selection has no effect
    on predictions until the ensemble is fitted again. *)
Theorem selection_keeps_configuration (ops : list op) (self : Ensemble)
    (lg : log) (X : features) :
  configuration (fst (run_ops ops self lg)) = configuration self
  /\ predict_proba (fst (run_ops ops self lg)) X = predict_proba self X.
Proof.
  assert (H : forall ops self lg,
             configuration (fst (run_ops ops self lg)) = configuration self).
  { clear. induction ops as [|o ops IH]; intros self lg; [reflexivity|].
    simpl.
    pose proof (frame_run_op (fun s => configuration s = configuration self)
                  (fun v s H => H) (fun v s H => H) (fun ch c s H _ => H)
                  o self lg eq_refl) as Ho.
    destruct (run_op o self lg) as [[[u|e] s1] lg1]; rewrite IH; exact Ho. }
  split; [apply H|].
  specialize (H ops self lg). unfold configuration in H.
  inversion H as [[Hm Hd Hs Hn Hy Hl Hf Hx Hc]].
  apply predict_proba_frame; congruence.
Qed.

End Selection_frame.

(** ** Loading the library *)

Section Loading.

Context {W : World}.

Lemma load_file_other (dir : option string) (a : bool)
    (st : list Model * option (Pipeline * ndarray * Q)) (f : file) :
  is_pkl f = false -> load_file dir a st f = OK st.
Proof.
  unfold is_pkl, load_file. destruct st as [models bound]. now intros ->.
Qed.

(** A [.pkl] file that is handled without an exception appends one record,
    named by the string of its pipeline. *)
Lemma load_file_pkl (dir : option string) (a : bool)
    (models models' : list Model)
    (bound bound' : option (Pipeline * ndarray * Q)) (f : file) :
  is_pkl f = true ->
  load_file dir a (models, bound) f = OK (models', bound') ->
  exists m, models' = models ++ [m] /\ name m = str (pipeline m).
Proof.
  unfold is_pkl, load_file. intros ->. destruct dir as [d|]; [|discriminate].
  destruct (if (0 <? st_size f)%Z then _ else _) as [[[[pl p] s]|]|e];
    simpl; try discriminate.
  intros E. inversion E; subst. eexists. split; reflexivity.
Qed.

Lemma load_files_count (dir : option string) (a : bool) (files : list file) :
  forall (acc ms : list Model) (bound : option (Pipeline * ndarray * Q)),
    Forall (fun m => name m = str (pipeline m)) acc ->
    load_files dir a files (acc, bound) = OK ms ->
    length ms = (length acc + length (filter is_pkl files))%nat
    /\ Forall (fun m => name m = str (pipeline m)) ms.
Proof.
  induction files as [|f files IH]; intros acc ms bound Hacc H.
  - simpl in H. inversion H; subst. simpl. split; [lia|assumption].
  - change (bindR (load_file dir a (acc, bound) f) (load_files dir a files)
            = OK ms) in H.
    destruct (load_file dir a (acc, bound) f) as [[acc' bound']|e] eqn:E;
      simpl bindR in H; [|discriminate].
    simpl filter. destruct (is_pkl f) eqn:Ep.
    + destruct (load_file_pkl dir a acc acc' bound bound' f Ep E)
        as (m & -> & Hm).
      destruct (IH _ _ _ (proj2 (Forall_app _ _ _)
                            (conj Hacc (Forall_cons _ Hm (Forall_nil _)))) H)
        as (Hl & Hn).
      split; [|exact Hn]. rewrite Hl, length_app. simpl. lia.
    + rewrite (load_file_other dir a (acc, bound) f Ep) in E.
      inversion E; subst.
      apply (IH _ _ _ Hacc H).
Qed.

(** Property X11.
    Whenever [load_predictions] returns, it returns one record for each
    listed file whose name ends in [.pkl], no more and no fewer (files of
    other names are passed over), and every record is named by the string
    of its pipeline. *)
Theorem load_predictions_one_record_per_pkl (cache_dir : option string)
    (argmax_pred : bool) (models : list Model) :
  load_predictions cache_dir argmax_pred = OK models ->
  exists files,
    listdir cache_dir = OK files
    /\ length models = length (filter is_pkl files)
    /\ Forall (fun m => name m = str (pipeline m)) models.
Proof.
  unfold load_predictions. destruct (listdir cache_dir) as [files|e];
    simpl; [|discriminate].
  intros H. exists files. split; [reflexivity|].
  apply (load_files_count cache_dir argmax_pred files [] models None
           (Forall_nil _) H).
Qed.

Lemma load_files_complete (dir : string) (files : list file) :
  forall (acc : list Model) (bound : option (Pipeline * ndarray * Q)),
    Forall (fun f => is_pkl f = true ->
                     (0 < st_size f)%Z /\ exists c, pickled f = OK c) files ->
    exists ms,
      load_files (Some dir) false files (acc, bound) = OK (acc ++ ms)
      /\ Forall2 record_of_file ms (filter is_pkl files).
Proof.
  induction files as [|f files IH]; intros acc bound Hall.
  - exists []. simpl. rewrite app_nil_r. split; [reflexivity|constructor].
  - inversion Hall as [|f' fs' Hf Hrest]; subst.
    change (load_files (Some dir) false (f :: files) (acc, bound))
      with (bindR (load_file (Some dir) false (acc, bound) f)
                  (load_files (Some dir) false files)).
    simpl filter. destruct (is_pkl f) eqn:Ep.
    + destruct (Hf eq_refl) as (Hsz & [[pl p] s] & Hp).
      assert (E : load_file (Some dir) false (acc, bound) f
                  = OK (acc ++ [mkModel (str pl) pl p s], Some (pl, p, s))).
      { unfold load_file. unfold is_pkl in Ep. rewrite Ep.
        apply Z.ltb_lt in Hsz. rewrite Hsz, Hp. reflexivity. }
      rewrite E. simpl bindR.
      destruct (IH (acc ++ [mkModel (str pl) pl p s]) (Some (pl, p, s)) Hrest)
        as (ms & Hms & H2).
      exists (mkModel (str pl) pl p s :: ms). rewrite Hms, <- app_assoc.
      split; [reflexivity|]. constructor; [|exact H2].
      split; [exact Hp|reflexivity].
    + rewrite (load_file_other (Some dir) false (acc, bound) f Ep).
      simpl bindR.
      apply IH. exact Hrest.
Qed.

(** Property X12.
    On a directory in which every [.pkl] file has a positive size and
    unpickles, [load_predictions] returns the records of the [.pkl] files,
    one for each and in the order of the listing: the pipeline, predictions
    and score are the pickled ones and the name is the string of the
    pipeline. *)
Theorem load_predictions_complete_files (cache_dir : string)
    (files : list file) :
  listdir (Some cache_dir) = OK files ->
  Forall (fun f => is_pkl f = true ->
                   (0 < st_size f)%Z /\ exists c, pickled f = OK c) files ->
  exists models,
    load_predictions (Some cache_dir) false = OK models
    /\ Forall2 record_of_file models (filter is_pkl files).
Proof.
  intros Hl Hall. unfold load_predictions. rewrite Hl. simpl bindR.
  destruct (load_files_complete cache_dir files [] None Hall)
    as (ms & Hms & H2).
  exists ms. split; assumption.
Qed.

End Loading.

(** Witness of [load_predictions_complete_files]: two complete files and a
    text file between them. *)
Lemma load_predictions_complete_files_witness :
  exists models,
    load_predictions (W:=library_world) (Some "library") false = OK models
    /\ Forall2 (record_of_file (W:=library_world)) models
         (filter is_pkl library_files).
Proof.
  apply (load_predictions_complete_files (W:=library_world)
           "library" library_files).
  - reflexivity.
  - unfold library_files.
    apply Forall_cons; [|apply Forall_cons; [|apply Forall_cons;
                                               [|apply Forall_nil]]];
      intros H; cbv in H; try discriminate H;
      (split; [reflexivity|eexists; reflexivity]).
Defined.

(** Witness of [load_predictions_one_record_per_pkl]: the directory "cache"
    of the example world, with a complete file and a zero-byte one. *)
Lemma load_predictions_one_record_per_pkl_witness :
  exists files,
    listdir (World:=example_world) (Some "cache") = OK files
    /\ length [example_model 1 (9 # 10); example_model 1 (9 # 10)]
       = length (filter is_pkl files)
    /\ Forall (fun m => name m = str (World:=example_world) (pipeline m))
         [example_model 1 (9 # 10); example_model 1 (9 # 10)].
Proof.
  apply (load_predictions_one_record_per_pkl (W:=example_world)
           (Some "cache") false).
  reflexivity.
Defined.

(** ** The indicator predictions of [load_predictions] *)

Section Indicator.

Lemma rows_lengths (k : nat) :
  forall (n : nat) (buf : list Q),
    length buf = (n * k)%nat ->
    length (rows n k buf) = n
    /\ Forall (fun r => length r = k) (rows n k buf).
Proof.
  induction n as [|n IH]; intros buf Hl; simpl.
  - split; constructor.
  - destruct (IH (skipn k buf)) as (Hn & Hr).
    { rewrite length_skipn, Hl. simpl. lia. }
    split; [now rewrite Hn|]. constructor; [|exact Hr].
    rewrite length_firstn, Hl. simpl. lia.
Qed.

(** The scan of [np.argmax] over a row: with [pre] scanned, the incumbent
    [best] at [at_], the result is the index of the first maximum. *)
Lemma argmax_from_spec (xs : list Q) :
  forall (pre : list Q) (i at_ : nat) (best : Q),
    i = length pre ->
    (at_ < length pre)%nat ->
    nth at_ pre 0%Q = best ->
    (forall j, (j < length pre)%nat -> (nth j pre 0 <= best)%Q) ->
    (forall j, (j < at_)%nat -> (nth j pre 0 < best)%Q) ->
    let p := argmax_from i at_ best xs in
    (p < length (pre ++ xs))%nat
    /\ (forall j, (j < length (pre ++ xs))%nat ->
                  (nth j (pre ++ xs) 0 <= nth p (pre ++ xs) 0)%Q)
    /\ (forall j, (j < p)%nat ->
                  (nth j (pre ++ xs) 0 < nth p (pre ++ xs) 0)%Q).
Proof.
  induction xs as [|x xs IH]; intros pre i at_ best Hi Hat Hb Hmax Hfirst.
  - simpl. rewrite app_nil_r, Hb. auto.
  - simpl argmax_from.
    replace (pre ++ x :: xs) with ((pre ++ [x]) ++ xs)
      by (rewrite <- app_assoc; reflexivity).
    assert (Hlen : length (pre ++ [x]) = S (length pre))
      by (rewrite length_app; simpl; lia).
    destruct (Qlt_le_dec best x) as [Hlt|Hle].
    + apply IH.
      * rewrite Hlen. congruence.
      * rewrite Hlen. lia.
      * subst i. rewrite app_nth2 by lia. now rewrite Nat.sub_diag.
      * intros j Hj. rewrite Hlen in Hj.
        destruct (Nat.eq_dec j (length pre)) as [->|Hne].
        -- rewrite app_nth2 by lia. rewrite Nat.sub_diag. simpl.
           apply Qle_refl.
        -- rewrite app_nth1 by lia. apply Qlt_le_weak.
           apply Qle_lt_trans with best; [apply Hmax; lia|exact Hlt].
      * intros j Hj. subst i. rewrite app_nth1 by lia.
        apply Qle_lt_trans with best; [apply Hmax; lia|exact Hlt].
    + apply IH.
      * rewrite Hlen. congruence.
      * rewrite Hlen. lia.
      * rewrite app_nth1 by lia. exact Hb.
      * intros j Hj. rewrite Hlen in Hj.
        destruct (Nat.eq_dec j (length pre)) as [->|Hne].
        -- rewrite app_nth2 by lia. rewrite Nat.sub_diag. simpl. exact Hle.
        -- rewrite app_nth1 by lia. apply Hmax. lia.
      * intros j Hj. rewrite app_nth1 by lia. now apply Hfirst.
Qed.

(** [np.argmax] of a non-empty row: the first index of a greatest entry. *)
Lemma argmax_row_spec (row : list Q) :
  row <> [] ->
  exists p,
    argmax_row row = OK p
    /\ (p < length row)%nat
    /\ (forall j, (j < length row)%nat -> (nth j row 0 <= nth p row 0)%Q)
    /\ (forall j, (j < p)%nat -> (nth j row 0 < nth p row 0)%Q).
Proof.
  destruct row as [|x xs]; [congruence|]. intros _.
  exists (argmax_from 1 0 x xs). split; [reflexivity|].
  apply (argmax_from_spec xs [x] 1 0 x).
  - reflexivity.
  - simpl. lia.
  - reflexivity.
  - intros j Hj. simpl in Hj. assert (j = 0)%nat by lia. subst j.
    apply Qle_refl.
  - intros j Hj. lia.
Qed.

Lemma one_at_length (k : nat) : forall pos, length (one_at k pos) = k.
Proof.
  induction k as [|k IH]; intros pos; simpl; [reflexivity|].
  destruct pos; simpl; [now rewrite repeat_length|now rewrite IH].
Qed.

Lemma one_at_nth (k : nat) :
  forall pos j, (pos < k)%nat -> (j < k)%nat ->
    nth j (one_at k pos) 0%Q = if Nat.eqb j pos then 1%Q else 0%Q.
Proof.
  induction k as [|k IH]; intros pos j Hp Hj; [lia|].
  simpl. destruct pos as [|pos].
  - destruct j as [|j]; simpl; [reflexivity|]. apply nth_repeat.
  - destruct j as [|j]; simpl; [reflexivity|]. apply IH; lia.
Qed.

Lemma rows_concat (k : nat) (l : list (list Q)) :
  Forall (fun r => length r = k) l ->
  rows (length l) k (concat l) = l
  /\ length (concat l) = (length l * k)%nat.
Proof.
  induction 1 as [|r l Hr _ [IH1 IH2]]; simpl; [auto|].
  rewrite firstn_app, skipn_app, Hr, Nat.sub_diag. simpl.
  rewrite <- Hr at 1. rewrite firstn_all, app_nil_r.
  rewrite <- Hr at 2. rewrite skipn_all. simpl.
  rewrite IH1, length_app, IH2, Hr. auto.
Qed.

Lemma mapR_argmax (k : nat) (rs : list (list Q)) :
  (0 < k)%nat ->
  Forall (fun r => length r = k) rs ->
  exists hard,
    mapR argmax_row rs = OK hard
    /\ Forall2 (fun row p =>
                  (p < k)%nat
                  /\ (forall j, (j < k)%nat -> (nth j row 0 <= nth p row 0)%Q)
                  /\ (forall j, (j < p)%nat -> (nth j row 0 < nth p row 0)%Q))
               rs hard.
Proof.
  intros Hk. induction 1 as [|r rs Hr _ (hard & Hh & H2)]; simpl.
  - exists []. split; [reflexivity|constructor].
  - destruct (argmax_row_spec r) as (p & Hp & Hlt & Hmax & Hfirst).
    { intros ->. simpl in Hr. lia. }
    rewrite Hp, Hh. simpl. exists (p :: hard). split; [reflexivity|].
    constructor; [|exact H2]. rewrite Hr in Hlt, Hmax. auto.
Qed.

Lemma argmax_indicator_rows_ok (a : ndarray) (n k : nat) :
  shape a = Shape2 n k -> (0 < k)%nat -> length (data a) = (n * k)%nat ->
  exists b, argmax_indicator a = OK b.
Proof.
  intros Hs Hk Hl. unfold argmax_indicator. rewrite Hs.
  destruct (rows_lengths k n (data a) Hl) as (_ & Hr).
  destruct (mapR_argmax k (rows n k (data a)) Hk Hr) as (hard & Hh & _).
  rewrite Hh. simpl. eauto.
Qed.

(** Property X13.
    The indicator array that [load_predictions] builds when [argmax_pred]
    is set, for an n-by-k matrix of predictions with k > 0: it is an n-by-k
    matrix again, and each of its rows holds a single 1, at the first index
    at which the row of predictions is greatest, and 0 elsewhere. *)
Theorem argmax_indicator_marks_first_maximum (a : ndarray) (n k : nat) :
  shape a = Shape2 n k ->
  (0 < k)%nat ->
  length (data a) = (n * k)%nat ->
  exists b,
    argmax_indicator a = OK b
    /\ shape b = Shape2 n k
    /\ length (data b) = (n * k)%nat
    /\ Forall2 (fun row ind =>
                  exists p,
                    (p < k)%nat
                    /\ (forall j, (j < k)%nat ->
                          nth j ind 0%Q = if Nat.eqb j p then 1%Q else 0%Q)
                    /\ (forall j, (j < k)%nat ->
                          (nth j row 0 <= nth p row 0)%Q)
                    /\ (forall j, (j < p)%nat ->
                          (nth j row 0 < nth p row 0)%Q))
               (rows n k (data a)) (rows n k (data b)).
Proof.
  intros Hs Hk Hl. unfold argmax_indicator. rewrite Hs.
  destruct (rows_lengths k n (data a) Hl) as (Hn & Hr).
  destruct (mapR_argmax k (rows n k (data a)) Hk Hr) as (hard & Hh & H2).
  rewrite Hh. simpl bindR. eexists. split; [reflexivity|].
  cbn [shape data].
  assert (Hlen : length (map (one_at k) hard) = n).
  { rewrite length_map, <- (Forall2_length H2). exact Hn. }
  destruct (rows_concat k (map (one_at k) hard)) as (Hrows & Hc).
  { apply Forall_forall. intros r Hin. apply in_map_iff in Hin.
    destruct Hin as (p & <- & _). apply one_at_length. }
  rewrite Hlen in Hrows, Hc.
  split; [reflexivity|]. split; [exact Hc|]. rewrite Hrows.
  clear -H2. induction H2 as [|row p rs hard (Hp & Hmax & Hfirst) _ IH];
    simpl; constructor; [|exact IH].
  exists p. split; [exact Hp|]. split; [|split; assumption].
  intros j Hj. now apply one_at_nth.
Qed.

End Indicator.

(** Witness of [argmax_indicator_marks_first_maximum]: two rows of three
    predictions, the second with its greatest entry twice. *)
Lemma argmax_indicator_marks_first_maximum_witness :
  exists b,
    argmax_indicator
      (mk_ndarray (Shape2 2 3)
         [(1 # 10)%Q; (7 # 10)%Q; (2 # 10)%Q;
          (4 # 10)%Q; (2 # 10)%Q; (4 # 10)%Q]) = OK b
    /\ shape b = Shape2 2 3
    /\ length (data b) = (2 * 3)%nat
    /\ Forall2 (fun row ind =>
                  exists p,
                    (p < 3)%nat
                    /\ (forall j, (j < 3)%nat ->
                          nth j ind 0%Q = if Nat.eqb j p then 1%Q else 0%Q)
                    /\ (forall j, (j < 3)%nat ->
                          (nth j row 0 <= nth p row 0)%Q)
                    /\ (forall j, (j < p)%nat ->
                          (nth j row 0 < nth p row 0)%Q))
               (rows 2 3
                  [(1 # 10)%Q; (7 # 10)%Q; (2 # 10)%Q;
                   (4 # 10)%Q; (2 # 10)%Q; (4 # 10)%Q])
               (rows 2 3 (data b)).
Proof.
  apply (argmax_indicator_marks_first_maximum
           (mk_ndarray (Shape2 2 3)
              [(1 # 10)%Q; (7 # 10)%Q; (2 # 10)%Q;
               (4 # 10)%Q; (2 # 10)%Q; (4 # 10)%Q]) 2 3).
  - reflexivity.
  - lia.
  - reflexivity.
Defined.

(** ** Child ensembles *)

Section Children.

Context {W : World}.

(** Property X14.
    Child ensembles are only ever appended: after any sequence of seeding,
    stepwise-add and bagging operations, whether or not some of them raise,
    the child ensembles held before are still there, in order, before those
    the operations added.  A second [build_] therefore merges the children
    of the first call again, with its own. *)
Theorem child_ensembles_only_grow (ops : list op) (self : Ensemble)
    (lg : log) (children : list Ensemble) :
  _child_ensembles self = Some children ->
  exists added,
    _child_ensembles (fst (run_ops ops self lg)) = Some (children ++ added).
Proof.
  revert self lg children.
  induction ops as [|o ops IH]; intros self lg children Hc.
  - exists []. simpl. now rewrite app_nil_r.
  - simpl.
    pose proof (frame_run_op
                  (fun s => exists added,
                       _child_ensembles s = Some (children ++ added))
                  (fun v s H => H) (fun v s H => H)) as Ho.
    specialize (Ho (fun ch c s H Hch =>
                      match H with
                      | ex_intro _ added Ha =>
                          ex_intro _ (added ++ [c])
                            (eq_trans
                               (f_equal (fun x => Some (x ++ [c]))
                                  (f_equal (fun o => match o with
                                                     | Some l => l
                                                     | None => ch
                                                     end)
                                     (eq_trans (eq_sym Hch) Ha)))
                               (f_equal Some (eq_sym (app_assoc _ _ _))))
                      end)).
    specialize (Ho o self lg (ex_intro _ [] (eq_trans Hc
                   (f_equal Some (eq_sym (app_nil_r children)))))).
    destruct (run_op o self lg) as [[[u|e] s1] lg1];
      destruct Ho as (added & Ha);
      destruct (IH s1 lg1 _ Ha) as (added' & Ha');
      exists (added ++ added'); rewrite Ha', <- app_assoc; reflexivity.
Qed.

(** Property X15.
    [build_] with no rounds (n_ensembles <= 0) on an ensemble without
    child ensembles returns normally and leaves the Weighted Model Set
    empty, whatever it held: the set is rebuilt from the children alone. *)
Theorem build_without_rounds (draws : nat -> nat -> nat -> list nat)
    (n_ensembles start_size total_size : Z) (self : Ensemble) (lg : log) :
  _child_ensembles self = Some [] ->
  (n_ensembles <= 0)%Z ->
  build_ draws n_ensembles start_size total_size self lg
  = (OK tt, set_models (Some []) self, lg).
Proof.
  intros Hc Hn. unfold build_.
  replace (Z.to_nat n_ensembles) with 0%nat by lia. simpl seq. simpl for_each.
  unfold bind, ret, modify, get. simpl. rewrite Hc. reflexivity.
Qed.

End Children.

(** Witness of [child_ensembles_only_grow]: two bagging calls on a new
    ensemble over the example library. *)
Lemma child_ensembles_only_grow_witness :
  exists added,
    _child_ensembles
      (fst (run_ops (W:=example_world)
              [Bagging example_draws 2 1 2; Bagging example_draws 1 1 2]
              (example_ensemble example_library) []))
    = Some ([] ++ added).
Proof.
  apply (child_ensembles_only_grow (W:=example_world)
           [Bagging example_draws 2 1 2; Bagging example_draws 1 1 2]
           (example_ensemble example_library) [] []).
  reflexivity.
Defined.

(** Witness of [build_without_rounds]: the seeded example ensemble. *)
Lemma build_without_rounds_witness :
  build_ (W:=example_world) example_draws 0 1 2 seeded_ensemble []
  = (OK tt, set_models (Some []) seeded_ensemble, []).
Proof.
  apply (build_without_rounds (W:=example_world) example_draws 0 1 2).
  - reflexivity.
  - lia.
Defined.

(** ** What [add_models] adds *)

Section Provenance.

Context {W : World}.

(** A step over a cached library adds a model of the library whose
    validation score is not zero; the step's binding of [best_addition] is
    that model. *)
Lemma add_models_step_from_library (prev b : option Model)
    (self s' : Ensemble) (lg lg' : log) (lib : list Model) (d : dict) :
  _model_library self = Some lib -> lib <> [] ->
  _models self = Some d ->
  (forall m0, prev = Some m0 -> In m0 lib /\ eligible m0) ->
  add_models_step prev self lg = (OK b, s', lg') ->
  exists m,
    b = Some m /\ In m lib /\ eligible m
    /\ s' = set_models (Some (add_to m 1 d)) self.
Proof.
  intros Hlib Hne Hd Hprev. unfold add_models_step.
  unfold bind at 1, get at 1.
  rewrite (bind_ok_res _ _ _ _ _ (average_run self lg d Hd)).
  destruct (weighted_average d) as [avg|e]; [|discriminate].
  rewrite (bind_ok _ _ _ _ _ _ _ (total_run self lg d Hd)).
  rewrite (bind_ok _ _ _ _ _ _ _ (model_library_cached self lg lib Hlib Hne)).
  unfold bind at 1, get at 1. unfold bind at 1, liftR.
  destruct (scan_library _ _ _ _ _) as [[b1 q1]|e] eqn:Es; [|discriminate].
  cbv beta iota delta [fst].
  destruct b1 as [m|]; [|discriminate].
  rewrite (bind_ok _ _ _ _ _ _ _ (add_model_run m 1 self lg d Hd)).
  rewrite (bind_ok _ _ _ _ _ _ _
             (total_run (set_models (Some (add_to m 1 d)) self)
                        (lg ++ [added_log]) (add_to m 1 d) eq_refl)).
  unfold bind, emit, ret. intros E. inversion E; subst.
  exists m. split; [reflexivity|].
  destruct (scan_binding _ _ _ _ _ _ _ _ Es) as [Hb|(m1 & Hb & Hin & He)].
  - destruct (Hprev m (eq_sym Hb)) as [Hin He]. auto.
  - inversion Hb; subst. auto.
Qed.

Lemma add_models_loop_from_library (n : nat) :
  forall (prev : option Model) (self s' : Ensemble) (lg lg' : log)
         (lib : list Model) (d : dict),
    _model_library self = Some lib -> lib <> [] ->
    _models self = Some d ->
    (forall m0, prev = Some m0 -> In m0 lib /\ eligible m0) ->
    add_models_loop n prev self lg = (OK tt, s', lg') ->
    exists adds,
      length adds = n
      /\ Forall (fun m => In m lib /\ eligible m) adds
      /\ s' = set_models (Some (replay (map (fun m => (m, 1%Z)) adds) d)) self.
Proof.
  induction n as [|n IH]; intros prev self s' lg lg' lib d Hlib Hne Hd Hprev H.
  - inversion H; subst. exists []. split; [reflexivity|].
    split; [constructor|]. simpl. symmetry. now apply set_models_same.
  - simpl add_models_loop in H. unfold bind at 1 in H.
    destruct (add_models_step prev self lg) as [[[b|e] s1] lg1] eqn:E;
      [|discriminate].
    destruct (add_models_step_from_library _ _ _ _ _ _ lib d Hlib Hne Hd Hprev E)
      as (m & -> & Hin & He & ->).
    destruct (IH (Some m) (set_models (Some (add_to m 1 d)) self) s' lg1 lg'
                lib (add_to m 1 d)) as (adds & Hl & Hall & ->); auto.
    { intros m0 Hm0. inversion Hm0; subst. auto. }
    exists (m :: adds). split; [simpl; congruence|].
    split; [constructor; auto|].
    simpl map. rewrite replay_cons. destruct self; reflexivity.
Qed.

Lemma added_to_ones_nonneg (p : Pipeline) (adds : list Model) :
  (0 <= added_to p (map (fun m => (m, 1%Z)) adds))%Z.
Proof.
  induction adds as [|m adds IH]; [simpl; lia|].
  change (map (fun m => (m, 1%Z)) (m :: adds))
    with ((m, 1%Z) :: map (fun m => (m, 1%Z)) adds).
  cbn [added_to]. destruct (Nat.eqb p (pipeline m)); lia.
Qed.

(** Property X16.
    [add_models(n)] that returns, on an ensemble whose library is loaded,
    has made n additions of weight 1, each of a model of the library whose
    validation score is not zero, and has changed nothing but the set.  No
    entry is removed and no weight is lowered. *)
Theorem add_models_adds_library_models (n : Z) (self s' : Ensemble)
    (lg lg' : log) (lib : list Model) (d : dict) :
  _model_library self = Some lib -> lib <> [] ->
  _models self = Some d ->
  add_models n self lg = (OK tt, s', lg') ->
  exists adds,
    Z.of_nat (length adds) = n
    /\ Forall (fun m => In m lib /\ eligible m) adds
    /\ s' = set_models (Some (replay (map (fun m => (m, 1%Z)) adds) d)) self
    /\ (well_keyed d ->
        forall p, (weight_of p d
                   <= weight_of p (replay (map (fun m => (m, 1%Z)) adds) d))%Z).
Proof.
  intros Hlib Hne Hd. unfold add_models.
  destruct (Z.ltb_spec 0 n) as [Hn|Hn]; [|discriminate].
  change (negb true) with false. cbv beta iota. intros H.
  destruct (add_models_loop_from_library _ _ _ _ _ _ lib d Hlib Hne Hd
              (fun m0 (E : None = Some m0) =>
                 match E in _ = o return
                       match o with Some _ => _ | None => True end
                 with eq_refl => I end) H)
    as (adds & Hl & Hall & Hs).
  exists adds. split; [lia|]. split; [exact Hall|]. split; [exact Hs|].
  intros Hwk p. rewrite weight_of_replay by assumption.
  pose proof (added_to_ones_nonneg p adds). lia.
Qed.

End Provenance.

(** Witness of [add_models_adds_library_models]: two stepwise additions to
    the seeded example ensemble. *)
Lemma add_models_adds_library_models_witness :
  exists adds,
    Z.of_nat (length adds) = 2%Z
    /\ Forall (fun m => In m example_library /\ eligible m) adds
    /\ state_of (add_models (W:=example_world) 2 seeded_ensemble [])
       = set_models
           (Some (replay (map (fun m => (m, 1%Z)) adds) seeded_set))
           seeded_ensemble
    /\ (well_keyed seeded_set ->
        forall p,
          (weight_of p seeded_set
           <= weight_of p
                (replay (map (fun m => (m, 1%Z)) adds) seeded_set))%Z).
Proof.
  apply (add_models_adds_library_models (W:=example_world) 2
           seeded_ensemble
           (state_of (add_models (W:=example_world) 2 seeded_ensemble []))
           []
           (log_of (add_models (W:=example_world) 2 seeded_ensemble []))
           example_library seeded_set).
  - reflexivity.
  - discriminate.
  - reflexivity.
  - vm_compute. reflexivity.
Defined.

(** ** The live object after pickling *)

Section Shrunk.

Context {W : World}.

Lemma seed_without_set (n : Z) (self : Ensemble) (lg : log) :
  _models self = None ->
  exists e, result_of (build_initial_ensemble n self lg) = Raise e.
Proof.
  intros Hm. unfold build_initial_ensemble.
  destruct (negb (0 <? n)%Z); [exists ValueError; reflexivity|].
  unfold bind at 1, get at 1. rewrite Hm. simpl truthy. cbv iota.
  unfold bind at 1, ret at 1. unfold bind at 1.
  destruct (model_library self lg) as [[[lib|e] s1] lg1] eqn:Hlib;
    [|exists e; reflexivity].
  pose proof (model_library_models _ _ _ _ _ Hlib) as Hm1. rewrite Hm in Hm1.
  unfold bind at 1, get at 1. cbv zeta.
  destruct (firstn (Z.to_nat n) _) as [|m sel].
  - simpl for_each. unfold bind at 1, ret at 1.
    rewrite (bind_raise _ _ _ _ _ _ _ (average_run_none s1 lg1 Hm1)).
    exists AttributeError. reflexivity.
  - simpl for_each.
    rewrite (bind_raise _ _ _ _ _ _ _
               (bind_raise _ _ _ _ _ _ _ (add_model_none m 1 s1 lg1 Hm1))).
    exists AttributeError. reflexivity.
Qed.

(** A bagging round on an object whose [_child_ensembles] is [None] does
    not return: at the latest, the [append] raises AttributeError. *)
Lemma build_round_without_children (draw : nat -> nat -> list nat)
    (start_size total_size : Z) :
  hoare (fun s => _child_ensembles s = None)
        (build_round draw start_size total_size)
        (fun _ _ => False)
        (fun _ s => _child_ensembles s = None).
Proof.
  set (P := fun s : Ensemble => _child_ensembles s = None).
  assert (HL : keeps P model_library).
  { apply frame_model_library. intros v s H. exact H. }
  unfold build_round.
  eapply hoare_bind; [apply (keeps_emit P)|]. intros ?.
  eapply hoare_bind; [apply HL|]. intros lib.
  eapply hoare_bind; [apply (keeps_get P)|]. intros self. cbv zeta.
  eapply hoare_bind; [apply HL|]. intros lib'.
  eapply hoare_bind.
  { destruct (_ || _); [apply (keeps_raise P)|apply (keeps_ret P)]. }
  intros ?.
  eapply hoare_bind.
  { apply (keeps_mapM P). intros idx. apply frame_library_item.
    intros v s H. exact H. }
  intros subset.
  eapply hoare_bind; [apply (keeps_get P)|]. intros s.
  eapply hoare_bind.
  { intros s0 lg0 HI.
    destruct (__init__ (_metric s0) (_y_true s0) (Some subset) None true 1 None lg0)
      as [[ch|e] lg1]; exact HI. }
  intros ch.
  eapply hoare_bind; [apply (keeps_on_object P)|]. intros built.
  intros s2 lg2 HI. unfold bind, get. unfold P in HI. rewrite HI. exact HI.
Qed.

Lemma build_without_children (draws : nat -> nat -> nat -> list nat)
    (n_ensembles start_size total_size : Z) (self : Ensemble) (lg : log) :
  _child_ensembles self = None ->
  exists e,
    result_of (build_ draws n_ensembles start_size total_size self lg)
    = Raise e.
Proof.
  intros Hc. unfold build_. destruct (Z.to_nat n_ensembles) as [|k].
  - exists TypeError. simpl. unfold bind, ret, modify, get. simpl.
    rewrite Hc. reflexivity.
  - simpl seq. simpl for_each.
    pose proof (build_round_without_children (draws 0%nat) start_size
                  total_size self lg Hc) as H.
    unfold bind at 1. unfold bind at 1.
    destruct (build_round (draws 0%nat) start_size total_size self lg)
      as [[[u|e] s1] lg1]; [destruct H|].
    exists e. reflexivity.
Qed.

Lemma shrunk_cannot_select (o : op) (s : Ensemble) (lg : log) :
  _models s = None -> _child_ensembles s = None ->
  exists e, result_of (run_op o s lg) = Raise e.
Proof.
  intros Hm Hc. destruct o as [n|n|draws n_e st tot]; simpl run_op.
  - now apply seed_without_set.
  - destruct (Z.ltb_spec 0 n) as [Hn|Hn].
    + exists AttributeError.
      now rewrite (add_models_without_set n s lg Hm Hn).
    + exists ValueError. unfold add_models.
      destruct (Z.ltb_spec 0 n) as [Hn'|Hn']; [lia|reflexivity].
  - now apply build_without_children.
Qed.

(** Property X18.
    After [__getstate__] has shrunk the object (pickling with
    [shrink_on_pickle] on), no selection method returns on the live object:
    seeding, stepwise adding and bagging all raise. *)
Theorem no_selection_after_pickling (o : op) (self : Ensemble) (lg : log) :
  _shrink_on_pickle self = true ->
  exists e,
    result_of (run_op o (state_of (__getstate__ self lg))
                 (log_of (__getstate__ self lg)))
    = Raise e.
Proof.
  intros Hs.
  apply shrunk_cannot_select;
    destruct (getstate_run self lg) as (lg' & E & _);
    rewrite E, Hs; reflexivity.
Qed.

End Shrunk.

(** Witness of [no_selection_after_pickling]: seeding the example ensemble
    after its state has been taken. *)
Lemma no_selection_after_pickling_witness :
  exists e,
    result_of
      (run_op (W:=example_world) (Seed 2)
         (state_of (__getstate__ (example_ensemble example_library) []))
         (log_of (__getstate__ (example_ensemble example_library) [])))
    = Raise e.
Proof.
  apply (no_selection_after_pickling (W:=example_world) (Seed 2)
           (example_ensemble example_library) []).
  reflexivity.
Defined.

(** ** Predicting *)

Section Predict.

Context {W : World} {E : Encoder}.

(** Property X19.
    For a classification metric and no label encoder, when [predict_proba]
    returns an n-by-k matrix with k > 0, [predict] returns one class index
    per row (as a 0-d array when n = 1): each index is a column of the
    matrix, the first at which its row is greatest. *)
Theorem predict_picks_first_best_class (self : Ensemble) (X : features)
    (proba : ndarray) (n k : nat) :
  is_classification (_metric self) = true ->
  _label_encoder self = None ->
  predict_proba self X = OK proba ->
  shape proba = Shape2 n k ->
  (0 < k)%nat ->
  length (data proba) = (n * k)%nat ->
  exists hard,
    predict self X = OK (Classes (squeeze hard))
    /\ length hard = n
    /\ Forall2 (fun row p =>
                  (p < k)%nat
                  /\ (forall j, (j < k)%nat -> (nth j row 0 <= nth p row 0)%Q)
                  /\ (forall j, (j < p)%nat -> (nth j row 0 < nth p row 0)%Q))
               (rows n k (data proba)) hard.
Proof.
  intros Hc He Hp Hs Hk Hl. unfold predict. rewrite Hc, Hp. simpl bindR.
  unfold argmax_axis1. rewrite Hs.
  destruct (rows_lengths k n (data proba) Hl) as (Hn & Hr).
  destruct (mapR_argmax k (rows n k (data proba)) Hk Hr) as (hard & Hh & H2).
  rewrite Hh. simpl bindR. rewrite He.
  exists hard. split; [reflexivity|]. split; [|exact H2].
  now rewrite <- (Forall2_length H2).
Qed.

(** Property X20.
    For a metric that is not a classification metric: [predict] of a
    regression ensemble is the result of [predict_proba], value or
    exception; for a metric of neither kind [predict] raises TypeError
    (the call of [NotImplemented]) whatever the fitted models are, and no
    pipeline is asked for a prediction. *)
Theorem predict_without_classes (self : Ensemble) (X : features) :
  is_classification (_metric self) = false ->
  predict self X
  = if is_regression (_metric self)
    then match predict_proba self X with
         | OK predictions => OK (Values predictions)
         | Raise e => Raise e
         end
    else Raise TypeError.
Proof.
  intros Hc. unfold predict. rewrite Hc.
  destruct (is_regression (_metric self)); [|reflexivity].
  destruct (predict_proba self X); reflexivity.
Qed.

(** Property X21.
    [predict] is the same before and after pickling: on the state that
    [__getstate__] returns it gives what it gives on the object. *)
Theorem getstate_keeps_predict (self : Ensemble) (lg : log) (X : features) :
  predict (state_of (__getstate__ self lg)) X = predict self X.
Proof.
  destruct (getstate_run self lg) as (lg' & Eg & _). rewrite Eg.
  unfold state_of. simpl fst. simpl snd.
  match goal with
  | |- predict ?s X = _ =>
      assert (Hf : _fit_models s = _fit_models self
                   /\ _y_true s = _y_true self
                   /\ is_classification (_metric s)
                      = is_classification (_metric self)
                   /\ is_regression (_metric s) = is_regression (_metric self)
                   /\ _label_encoder s = _label_encoder self)
  end.
  { destruct (contains "neg" (metric_name (_metric self)));
      destruct (_shrink_on_pickle self); repeat split; reflexivity. }
  destruct Hf as (Hf & Hy & Hc & Hr & Hle).
  unfold predict. rewrite Hc, Hr, Hle.
  now rewrite (predict_proba_frame _ self X Hf Hy Hc Hr).
Qed.

End Predict.

(** Witness of [predict_picks_first_best_class]: one fitted pipeline, one
    sample with equal probabilities. *)
Lemma predict_picks_first_best_class_witness :
  exists hard,
    predict (W:=example_world) (E:=example_encoder)
      (fitted_ensemble [(7%nat, 2%Z)]) tt
    = OK (Classes (squeeze hard))
    /\ length hard = 1%nat
    /\ Forall2 (fun row p =>
                  (p < 2)%nat
                  /\ (forall j, (j < 2)%nat -> (nth j row 0 <= nth p row 0)%Q)
                  /\ (forall j, (j < p)%nat -> (nth j row 0 < nth p row 0)%Q))
               (rows 1 2 (data (mul_scalar half_half (inject_Z 2)))) hard.
Proof.
  apply (predict_picks_first_best_class (W:=example_world)
           (E:=example_encoder) (fitted_ensemble [(7%nat, 2%Z)]) tt
           (mul_scalar half_half (inject_Z 2)) 1 2).
  - reflexivity.
  - reflexivity.
  - reflexivity.
  - reflexivity.
  - lia.
  - reflexivity.
Defined.

(** Witness of [predict_without_classes]: an ensemble over a metric that
    is neither for classification nor for regression. *)
Lemma predict_without_classes_witness :
  predict (W:=example_world) (E:=example_encoder)
    (set_metric (mkMetric "custom" None false false)
       (fitted_ensemble [(7%nat, 2%Z)])) tt
  = Raise TypeError.
Proof.
  apply (predict_without_classes (W:=example_world) (E:=example_encoder)
           (set_metric (mkMetric "custom" None false false)
              (fitted_ensemble [(7%nat, 2%Z)])) tt).
  reflexivity.
Defined.

(** ** Loading with [argmax_pred] *)

Section Loading_argmax.

Context {W : World}.

Lemma load_files_indicators (dir : string) (files : list file) :
  forall (acc : list Model) (bound : option (Pipeline * ndarray * Q)),
    Forall (fun f => is_pkl f = true ->
                     (0 < st_size f)%Z
                     /\ exists pl preds score ind,
                          pickled f = OK (pl, preds, score)
                          /\ argmax_indicator preds = OK ind) files ->
    exists ms,
      load_files (Some dir) true files (acc, bound) = OK (acc ++ ms)
      /\ Forall2 (fun m f =>
                    exists preds,
                      pickled f = OK (pipeline m, preds, validation_score m)
                      /\ argmax_indicator preds = OK (predictions m)
                      /\ name m = str (pipeline m))
                 ms (filter is_pkl files).
Proof.
  induction files as [|f files IH]; intros acc bound Hall.
  - exists []. simpl. rewrite app_nil_r. split; [reflexivity|constructor].
  - inversion Hall as [|f' fs' Hf Hrest]; subst.
    change (load_files (Some dir) true (f :: files) (acc, bound))
      with (bindR (load_file (Some dir) true (acc, bound) f)
                  (load_files (Some dir) true files)).
    simpl filter. destruct (is_pkl f) eqn:Ep.
    + destruct (Hf eq_refl) as (Hsz & pl & p & s & ind & Hp & Hi).
      assert (E : load_file (Some dir) true (acc, bound) f
                  = OK (acc ++ [mkModel (str pl) pl ind s], Some (pl, ind, s))).
      { unfold load_file. unfold is_pkl in Ep. rewrite Ep.
        apply Z.ltb_lt in Hsz. rewrite Hsz, Hp. simpl bindR. rewrite Hi.
        reflexivity. }
      rewrite E. simpl bindR.
      destruct (IH (acc ++ [mkModel (str pl) pl ind s]) (Some (pl, ind, s))
                  Hrest) as (ms & Hms & H2).
      exists (mkModel (str pl) pl ind s :: ms). rewrite Hms, <- app_assoc.
      split; [reflexivity|]. constructor; [|exact H2].
      exists p. simpl. auto.
    + rewrite (load_file_other (Some dir) true (acc, bound) f Ep).
      simpl bindR.
      apply IH. exact Hrest.
Qed.

(** Property X22.
    With [argmax_pred] set, on a directory in which every [.pkl] file has
    a positive size and unpickles to an n-by-k matrix of predictions
    (k > 0), [load_predictions] returns one record per [.pkl] file, in the
    order of the listing, whose predictions are the indicator array
    computed from the pickled ones. *)
Theorem load_predictions_argmax_complete_files (cache_dir : string)
    (files : list file) :
  listdir (Some cache_dir) = OK files ->
  Forall (fun f => is_pkl f = true ->
                   (0 < st_size f)%Z
                   /\ exists pl preds score n k,
                        pickled f = OK (pl, preds, score)
                        /\ shape preds = Shape2 n k /\ (0 < k)%nat
                        /\ length (data preds) = (n * k)%nat) files ->
  exists models,
    load_predictions (Some cache_dir) true = OK models
    /\ Forall2 (fun m f =>
                  exists preds,
                    pickled f = OK (pipeline m, preds, validation_score m)
                    /\ argmax_indicator preds = OK (predictions m)
                    /\ name m = str (pipeline m))
               models (filter is_pkl files).
Proof.
  intros Hl Hall. unfold load_predictions. rewrite Hl. simpl bindR.
  destruct (load_files_indicators cache_dir files [] None)
    as (ms & Hms & H2).
  { eapply Forall_impl; [|exact Hall]. intros f Hf Hp.
    destruct (Hf Hp) as (Hsz & pl & p & s & n & k & Hpk & Hs & Hk & Hlen).
    split; [exact Hsz|].
    destruct (argmax_indicator_rows_ok p n k Hs Hk Hlen) as (ind & Hi).
    exists pl, p, s, ind. auto. }
  exists ms. split; assumption.
Qed.

End Loading_argmax.

(** Witness of [load_predictions_argmax_complete_files]. *)
Lemma load_predictions_argmax_complete_files_witness :
  exists models,
    load_predictions (W:=probability_world) (Some "probabilities") true
    = OK models
    /\ Forall2 (fun m f =>
                  exists preds,
                    pickled f = OK (pipeline m, preds, validation_score m)
                    /\ argmax_indicator preds = OK (predictions m)
                    /\ name m = str (World:=probability_world) (pipeline m))
               models (filter is_pkl probability_files).
Proof.
  apply (load_predictions_argmax_complete_files (W:=probability_world)
           "probabilities" probability_files).
  - reflexivity.
  - unfold probability_files.
    apply Forall_cons; [|apply Forall_cons; [|apply Forall_nil]];
      intros H; cbv in H; try discriminate H.
    split; [reflexivity|].
    eexists. eexists. eexists. exists 2%nat, 2%nat.
    split; [reflexivity|]. split; [reflexivity|]. split; [lia|reflexivity].
Defined.

(** ** From the directory to the library *)

Section Directory.

Context {W : World}.

(** Property X23.
    An ensemble constructed over a directory alone starts with an empty
    library, and its first access to the library property reads the
    directory: when every [.pkl] file there has a positive size and
    unpickles, the access returns, and caches in [_model_library], the
    records of the [.pkl] files in the order of the listing, logs the
    loading once and changes nothing else. *)
Theorem library_is_loaded_on_first_access (metric : Metric) (y_true : list Z)
    (dir : string) (shrink : bool) (n_jobs : Z) (enc : option nat)
    (lg lg' : log) (c : Ensemble) (files : list file) :
  __init__ metric y_true None (Some dir) shrink n_jobs enc lg = (OK c, lg') ->
  listdir (Some dir) = OK files ->
  Forall (fun f => is_pkl f = true ->
                   (0 < st_size f)%Z /\ exists r, pickled f = OK r) files ->
  exists models,
    model_library c lg'
    = (OK models, set_model_library (Some models) c,
       lg ++ [mkLog DEBUG "Loading model library from disk."])
    /\ Forall2 record_of_file models (filter is_pkl files).
Proof.
  intros Hi Hl Hall. unfold __init__ in Hi. inversion Hi; subst. clear Hi.
  destruct (load_files_complete dir files [] None Hall) as (ms & Hms & H2).
  exists ms. split; [|exact H2].
  unfold model_library, bind, get, ret, modify, emit, liftR. simpl.
  unfold load_predictions. rewrite Hl. simpl bindR.
  simpl app in Hms. rewrite Hms. reflexivity.
Qed.

End Directory.

(** Witness of [library_is_loaded_on_first_access]: the directory "library"
    of two complete files and a text file. *)
Lemma library_is_loaded_on_first_access_witness :
  exists models,
    model_library (W:=library_world)
      (mkEnsemble example_metric (Some "library") (Some []) true 1%Z
         [0%Z; 1%Z] None None true (Some []) (3 # 10)%Q (Some [])) []
    = (OK models,
       set_model_library (Some models)
         (mkEnsemble example_metric (Some "library") (Some []) true 1%Z
            [0%Z; 1%Z] None None true (Some []) (3 # 10)%Q (Some [])),
       [] ++ [mkLog DEBUG "Loading model library from disk."])
    /\ Forall2 (record_of_file (W:=library_world)) models
         (filter is_pkl library_files).
Proof.
  apply (library_is_loaded_on_first_access (W:=library_world)
           example_metric [0%Z; 1%Z] "library" true 1%Z None [] []
           (mkEnsemble example_metric (Some "library") (Some []) true 1%Z
              [0%Z; 1%Z] None None true (Some []) (3 # 10)%Q (Some []))
           library_files).
  - reflexivity.
  - reflexivity.
  - unfold library_files.
    apply Forall_cons; [|apply Forall_cons; [|apply Forall_cons;
                                               [|apply Forall_nil]]];
      intros H; cbv in H; try discriminate H;
      (split; [reflexivity|eexists; reflexivity]).
Defined.

(** ** The entries of a blended prediction *)

Section Blend_entries.

Context {W : World}.

Lemma mapR_all_ok {A B : Type} (f : A -> res B) (g : A -> B) (l : list A) :
  (forall x, In x l -> f x = OK (g x)) -> mapR f l = OK (map g l).
Proof.
  induction l as [|x l IH]; intros H; simpl; [reflexivity|].
  rewrite (H x (or_introl eq_refl)). simpl.
  rewrite IH by (intros y Hy; apply H; now right). reflexivity.
Qed.

(** [np.sum(..., axis=0)], entry by entry and in the order of the slices. *)
Lemma fold_add_slices_in_order (rest : list ndarray) :
  forall (a : ndarray) (n i : nat),
    length (data a) = n ->
    (forall b, In b rest -> length (data b) = n) ->
    (i < n)%nat ->
    entry i (fold_left add_slices rest a)
    = sum_from_left (entry i a) (map (entry i) rest).
Proof.
  induction rest as [|b rest IH]; intros a n i Ha Hall Hi; [reflexivity|].
  simpl fold_left. unfold sum_from_left. simpl map. simpl fold_left.
  assert (Hb : length (data b) = n) by (apply Hall; now left).
  rewrite (IH (add_slices a b) n i).
  - unfold sum_from_left. f_equal. unfold entry, add_slices. simpl.
    apply zip_with_nth; congruence.
  - unfold add_slices. simpl. rewrite zip_with_length; congruence.
  - intros b' Hb'. apply Hall. now right.
  - exact Hi.
Qed.

(** Claim C7.  For a Fitted Model Set of at least two entries (weights are
    selection weights, or 0 after a failed fit): when no entry has a
    positive weight [predict_proba] raises ValueError, there being nothing
    to stack; otherwise, for pipeline outputs of one shape, it returns an
    array of that shape whose entry at each index is the sum, over the
    entries of positive weight in their order, of the pipeline's output
    times its weight, divided by the sum of the weights of those entries.
    An entry of weight 0 is in neither the sum nor the divisor. *)
Theorem predict_proba_blends (self : Ensemble) (X : features)
    (fit_models : list (Pipeline * Z)) :
  2 <= length fit_models ->
  Forall (fun e => (0 <= snd e)%Z) fit_models ->
  _fit_models self = Some fit_models ->
  (filter (fun e => (0 <? snd e)%Z) fit_models = [] ->
   predict_proba self X = Raise ValueError)
  /\ (forall (e0 : Pipeline * Z) (rest : list (Pipeline * Z))
             (outs : Pipeline -> ndarray) (s : shape_t) (n : nat),
        filter (fun e => (0 <? snd e)%Z) fit_models = e0 :: rest ->
        (forall e, In e (e0 :: rest) ->
                   raw_output self X (fst e) = OK (outs (fst e))
                   /\ extent (outs (fst e)) = (s, n)) ->
        exists p,
          predict_proba self X = OK p
          /\ shape p = s
          /\ length (data p) = n
          /\ forall i, (i < n)%nat ->
               entry i p
               = (sum_from_left
                    (entry i (outs (fst e0)) * inject_Z (snd e0))
                    (map (fun e => entry i (outs (fst e)) * inject_Z (snd e))
                         rest)
                  / inject_Z (sum (map snd (e0 :: rest))))%Q).
Proof.
  intros Hlen Hw Hfit.
  assert (H1 : Nat.eqb (length fit_models) 1 = false).
  { apply Nat.eqb_neq. lia. }
  split.
  - intros Hused. unfold predict_proba. rewrite Hfit.
    rewrite scaled_outputs_used by assumption. rewrite Hused. simpl.
    rewrite H1. reflexivity.
  - intros e0 rest outs s n Hused Hout.
    set (g := fun e : Pipeline * Z =>
                mul_scalar (outs (fst e)) (inject_Z (snd e))).
    assert (Hs : scaled_outputs self X fit_models = OK (map g (e0 :: rest))).
    { rewrite scaled_outputs_used by assumption. rewrite Hused.
      apply mapR_all_ok. intros e He. destruct (Hout e He) as [Ho _].
      rewrite Ho. reflexivity. }
    assert (Hext : forall a, In a (map g (e0 :: rest)) -> extent a = (s, n)).
    { intros a Ha. apply in_map_iff in Ha. destruct Ha as (e & <- & He).
      unfold g. rewrite extent_mul_scalar. apply (Hout e He). }
    assert (Hlens : forall a, In a (map g (e0 :: rest)) ->
                              length (data a) = n).
    { intros a Ha. specialize (Hext a Ha). unfold extent in Hext. congruence. }
    unfold predict_proba. rewrite Hfit, Hs. cbn [bindR]. rewrite H1.
    rewrite (stack_uniform (map g (e0 :: rest)) (s, n));
      [|discriminate|exact Hext].
    cbn [bindR]. rewrite (sum_used fit_models Hw), Hused.
    eexists. split; [reflexivity|].
    destruct (sum_axis0_entries (g e0) (map g rest) n Hlens) as (Hsh & Hl & _).
    change (map g (e0 :: rest)) with (g e0 :: map g rest).
    split; [|split].
    + unfold div_scalar. cbn [shape]. rewrite Hsh.
      specialize (Hext (g e0) (or_introl eq_refl)). unfold extent in Hext.
      congruence.
    + unfold div_scalar. cbn [data]. rewrite length_map. exact Hl.
    + intros i Hi. rewrite entry_div_scalar by (rewrite Hl; exact Hi).
      f_equal. change (sum_axis0 (g e0 :: map g rest))
        with (fold_left add_slices (map g rest) (g e0)).
      rewrite (fold_add_slices_in_order (map g rest) (g e0) n i).
      * assert (He0 : entry i (g e0)
                      = (entry i (outs (fst e0)) * inject_Z (snd e0))%Q).
        { unfold g. apply entry_mul_scalar.
          destruct (Hout e0 (or_introl eq_refl)) as [_ He].
          unfold extent in He. inversion He. congruence. }
        rewrite He0. f_equal. rewrite map_map. apply map_ext_in.
        intros e He. unfold g. apply entry_mul_scalar.
        destruct (Hout e (or_intror He)) as [_ Hx].
        unfold extent in Hx. inversion Hx. congruence.
      * apply Hlens. now left.
      * intros b Hb. apply Hlens. now right.
      * exact Hi.
Qed.

End Blend_entries.

(** Witness of [predict_proba_blends]: pipeline 1 was selected and failed
    to fit (weight 0); pipelines 2 and 3 were fitted at weights 1 and 2 and
    predict (3/10, 7/10) and (1/2, 1/2).  The result is
    ((3/10 * 1 + 1/2 * 2) / 3, (7/10 * 1 + 1/2 * 2) / 3) = (13/30, 17/30). *)
Lemma predict_proba_blends_witness :
  exists p,
    predict_proba (W:=blend_world)
      (fitted_ensemble [(1%nat, 0%Z); (2%nat, 1%Z); (3%nat, 2%Z)]) tt = OK p
    /\ shape p = Shape2 1 2
    /\ length (data p) = 2%nat
    /\ (forall i, (i < 2)%nat ->
          entry i p
          = (sum_from_left
               (entry i (blend_outputs 2%nat) * inject_Z 1%Z)
               (map (fun e : Pipeline * Z =>
                       entry i (blend_outputs (fst e)) * inject_Z (snd e))
                    [(3%nat, 2%Z)])
             / inject_Z (sum (map snd [(2%nat, 1%Z); (3%nat, 2%Z)])))%Q)
    /\ (entry 0 p == 13 # 30)%Q
    /\ (entry 1 p == 17 # 30)%Q.
Proof.
  assert (Hw : Forall (fun e : Pipeline * Z => (0 <= snd e)%Z)
                 [(1%nat, 0%Z); (2%nat, 1%Z); (3%nat, 2%Z)])
    by (repeat constructor; simpl; lia).
  assert (Hlen : 2 <= length [(1%nat, 0%Z); (2%nat, 1%Z); (3%nat, 2%Z)])
    by (simpl; lia).
  destruct (predict_proba_blends (W:=blend_world)
              (fitted_ensemble [(1%nat, 0%Z); (2%nat, 1%Z); (3%nat, 2%Z)]) tt
              [(1%nat, 0%Z); (2%nat, 1%Z); (3%nat, 2%Z)] Hlen Hw eq_refl)
    as [_ H].
  destruct (H (2%nat, 1%Z) [(3%nat, 2%Z)] blend_outputs (Shape2 1 2) 2%nat
              eq_refl) as (p & Hp & Hs & Hl & He).
  { intros e [<-|[<-|[]]]; split; reflexivity. }
  exists p. split; [exact Hp|]. split; [exact Hs|]. split; [exact Hl|].
  split; [exact He|]. split.
  - rewrite (He 0%nat) by lia. vm_compute. reflexivity.
  - rewrite (He 1%nat) by lia. vm_compute. reflexivity.
Defined.

(** ** The candidate that a step of add_models adds *)

Section Step.

Context {W : World}.



End Step.


(** Counterexample to claim C10 as stated.  On a new ensemble (nothing
    seeded) over an empty library, and over a library whose only model has
    validation score 0, [add_models(1)] raises ValueError, not the
    unbound-variable error: the average of the empty set is computed
    first. *)
Lemma add_models_on_empty_set_raises_value_error :
  add_models (W:=example_world) 1 (example_ensemble []) []
  = (Raise ValueError, example_ensemble [], [])
  /\ add_models (W:=example_world) 1 (example_ensemble [failed_model]) []
     = (Raise ValueError, example_ensemble [failed_model], [])
  /\ @Raise unit ValueError <> Raise UnboundLocalError.
Proof.
  split; [reflexivity|]. split; [reflexivity|discriminate].
Qed.

(** ** Bagging: the children that the rounds build *)

Section Bagging.

Context {W : World}.

(** An access to the library that returns leaves the library it returns in
    [_model_library] and changes nothing else. *)
Lemma model_library_returns (self s' : Ensemble) (lg lg' : log)
    (lib : list Model) :
  model_library self lg = (OK lib, s', lg') ->
  s' = set_model_library (Some lib) self.
Proof.
  unfold model_library, bind, get, ret, modify, emit, liftR.
  destruct (_model_library self) as [[|m l]|] eqn:El; simpl.
  - destruct (load_predictions _ _); simpl; intros E; inversion E; subst.
    reflexivity.
  - rewrite El. intros E; inversion E as [[Hl Hs']].
    clear -El Hs'. subst self. destruct s'. unfold set_model_library.
    cbn in *. rewrite <- El. reflexivity.
  - destruct (load_predictions _ _); simpl; intros E; inversion E; subst.
    reflexivity.
Qed.

Lemma library_item_run (idx : nat) (s : Ensemble) (lg : log)
    (lib : list Model) :
  _model_library s = Some lib -> lib <> [] ->
  library_item idx s lg
  = (match nth_error lib idx with
     | Some m => OK m
     | None => Raise IndexError
     end, s, lg).
Proof.
  intros Hl Hne. unfold library_item.
  rewrite (bind_ok _ _ _ _ _ _ _ (model_library_cached s lg lib Hl Hne)).
  destruct (nth_error lib idx); reflexivity.
Qed.

(** [[self.model_library[idx] for idx in indices]] over a loaded library. *)
Lemma mapM_library_item (idxs : list nat) :
  forall (s s' : Ensemble) (lg lg' : log) (lib subset : list Model),
    _model_library s = Some lib -> lib <> [] ->
    mapM library_item idxs s lg = (OK subset, s', lg') ->
    s' = s /\ lg' = lg
    /\ Forall2 (fun idx m => nth_error lib idx = Some m) idxs subset.
Proof.
  induction idxs as [|idx idxs IH]; intros s s' lg lg' lib subset Hl Hne H.
  - inversion H; subst. repeat split. constructor.
  - simpl mapM in H. unfold bind at 1 in H.
    rewrite (library_item_run idx s lg lib Hl Hne) in H.
    destruct (nth_error lib idx) as [m|] eqn:Em; [|discriminate].
    unfold bind at 1 in H.
    destruct (mapM library_item idxs s lg) as [[[ys|e] s1] lg1] eqn:E;
      [|discriminate].
    destruct (IH _ _ _ _ _ _ Hl Hne E) as (-> & -> & H2).
    inversion H; subst. repeat split. now constructor.
Qed.

(** A bagging round that returns, on an ensemble whose library property
    yields [lib]: the library is cached and one child ensemble, built as
    [built_by_round] says, is appended. *)
Lemma build_round_run (draw : nat -> nat -> list nat) (start_size total_size : Z)
    (s s' : Ensemble) (lg lg' : log) (lib : list Model)
    (children : list Ensemble) :
  (forall l, result_of (model_library s l) = OK lib) ->
  lib <> [] ->
  _child_ensembles s = Some children ->
  build_round draw start_size total_size s lg = (OK tt, s', lg') ->
  exists child,
    built_by_round (_metric s) (_y_true s) (_child_ensemble_model_fraction s)
      lib draw start_size total_size child
    /\ s' = set_child_ensembles (Some (children ++ [child]))
              (set_model_library (Some lib) s).
Proof.
  intros Hres Hne Hch H. unfold build_round in H.
  unfold bind at 1, emit at 1 in H.
  unfold bind at 1 in H.
  destruct (model_library s _) as [[r s1] l1] eqn:E1.
  pose proof (Hres (lg ++ [mkLog DEBUG "Constructing ensemble {}/{}."])) as Hr.
  rewrite E1 in Hr. unfold result_of in Hr. simpl in Hr. subst r.
  pose proof (model_library_returns _ _ _ _ _ E1) as Hs1.
  assert (Hl1 : _model_library s1 = Some lib) by (rewrite Hs1; reflexivity).
  unfold bind at 1, get at 1 in H. cbv zeta in H.
  rewrite (bind_ok _ _ _ _ _ _ _ (model_library_cached s1 l1 lib Hl1 Hne)) in H.
  unfold bind at 1 in H.
  destruct (_ || _) eqn:Echeck; [discriminate|].
  unfold ret at 1 in H.
  unfold bind at 1 in H.
  destruct (mapM library_item _ s1 l1) as [[[subset|e] s2] l2] eqn:E3;
    [|discriminate].
  destruct (mapM_library_item _ _ _ _ _ _ _ Hl1 Hne E3) as (-> & -> & Hsub).
  unfold bind at 1, get at 1 in H.
  unfold bind at 1 in H.
  unfold __init__ in H. cbv beta iota in H.
  unfold bind at 1, on_object in H.
  match type of H with
  | context [(build_initial_ensemble start_size ;;; ?k) ?c ?l] =>
      destruct ((build_initial_ensemble start_size ;;; k) c l)
        as [[[u|e] b] l3] eqn:E5
  end; [|discriminate].
  unfold bind at 1, get at 1 in H.
  assert (Hch1 : _child_ensembles s1 = Some children)
    by (rewrite Hs1; exact Hch).
  rewrite Hch1 in H. unfold modify in H. inversion H; subst s' lg'.
  exists b. split.
  - exists subset. eexists. exists l1, l1, l3.
    split; [|split].
    + rewrite Hs1 in Hsub. exact Hsub.
    + reflexivity.
    + destruct u. rewrite Hs1 in E5. exact E5.
  - rewrite Hs1. reflexivity.
Qed.

Lemma model_library_after_caching (s : Ensemble) (lib : list Model)
    (children : list Ensemble) :
  lib <> [] ->
  forall l,
    result_of (model_library
                 (set_child_ensembles (Some children)
                    (set_model_library (Some lib) s)) l) = OK lib.
Proof.
  intros Hne l.
  rewrite (model_library_cached
             (set_child_ensembles (Some children)
                (set_model_library (Some lib) s)) l lib eq_refl Hne).
  reflexivity.
Qed.

(** The rounds of [build_]: round [start + i] appends the i-th new child. *)
Lemma build_rounds_run (draws : nat -> nat -> nat -> list nat)
    (start_size total_size : Z) (lib : list Model) (k : nat) :
  forall (start : nat) (s s' : Ensemble) (lg lg' : log)
         (children : list Ensemble),
    (forall l, result_of (model_library s l) = OK lib) ->
    lib <> [] ->
    _child_ensembles s = Some children ->
    for_each (seq start k)
      (fun i => build_round (draws i) start_size total_size) s lg
    = (OK tt, s', lg') ->
    exists built,
      length built = k
      /\ (forall i child,
            nth_error built i = Some child ->
            built_by_round (_metric s) (_y_true s)
              (_child_ensemble_model_fraction s) lib (draws (start + i)%nat)
              start_size total_size child)
      /\ _child_ensembles s' = Some (children ++ built).
Proof.
  induction k as [|k IH]; intros start s s' lg lg' children Hres Hne Hch H.
  - inversion H; subst. exists []. split; [reflexivity|]. split.
    + intros i child Hi. destruct i; discriminate.
    + now rewrite app_nil_r.
  - simpl seq in H. simpl for_each in H. unfold bind at 1 in H.
    destruct (build_round (draws start) start_size total_size s lg)
      as [[[u|e] s1] lg1] eqn:E; [|discriminate].
    destruct u.
    destruct (build_round_run _ _ _ _ _ _ _ lib children Hres Hne Hch E)
      as (child & Hb & Hs1).
    destruct (IH (S start) s1 s' lg1 lg' (children ++ [child])) as
      (built & Hlen & Hall & Hc).
    { rewrite Hs1. now apply model_library_after_caching. }
    { exact Hne. }
    { rewrite Hs1. reflexivity. }
    { exact H. }
    exists (child :: built). split; [simpl; congruence|]. split.
    + intros i c Hi. destruct i as [|i].
      * inversion Hi; subst. now rewrite Nat.add_0_r.
      * simpl in Hi. specialize (Hall i c Hi). rewrite Hs1 in Hall.
        replace (start + S i)%nat with (S start + i)%nat by lia.
        exact Hall.
    + rewrite Hc, <- app_assoc. reflexivity.
Qed.

(** [build_] that returns: the rounds have appended their children to the
    ones held before, the set has been emptied, and every pair of every
    child's set has been added to it. *)
Lemma build_run (draws : nat -> nat -> nat -> list nat)
    (n_ensembles start_size total_size : Z)
    (self s' : Ensemble) (lg lg' : log) :
  build_ draws n_ensembles start_size total_size self lg = (OK tt, s', lg') ->
  exists children merged,
    _child_ensembles s' = Some children
    /\ Forall (fun c => _models c <> None) children
    /\ _models s' = Some merged
    /\ merged = replay (concat (map child_values children)) []
    /\ (forall p, weight_of p merged
                  = added_to p (concat (map child_values children)))
    /\ total merged = sum (map child_total children)
    /\ (forall children0 lib,
          _child_ensembles self = Some children0 ->
          (forall l, result_of (model_library self l) = OK lib) ->
          lib <> [] ->
          exists built,
            children = children0 ++ built
            /\ length built = Z.to_nat n_ensembles
            /\ forall i child,
                 nth_error built i = Some child ->
                 built_by_round (_metric self) (_y_true self)
                   (_child_ensemble_model_fraction self) lib (draws i)
                   start_size total_size child).
Proof.
  unfold build_. unfold bind at 1.
  destruct (for_each _ _ self lg) as [[[[]|e] s1] lg1] eqn:Hrounds;
    [|discriminate].
  unfold bind at 1, modify at 1. unfold bind at 1, get at 1.
  change (_child_ensembles (set_models (Some []) s1)) with (_child_ensembles s1).
  destruct (_child_ensembles s1) as [children|] eqn:Hc; [|discriminate].
  intros H.
  destruct (merge_children_ok children (set_models (Some []) s1) s' lg1 lg'
              [] eq_refl H) as [Hall ->].
  exists children, (replay (concat (map child_values children)) []).
  split; [exact Hc|]. split; [exact Hall|]. split; [reflexivity|].
  split; [reflexivity|]. split; [|split].
  - intros p. rewrite weight_of_replay by apply well_keyed_nil. simpl. lia.
  - rewrite total_replay by apply well_keyed_nil.
    rewrite sum_concat_values, total_nil. lia.
  - intros children0 lib Hc0 Hres Hne.
    destruct (build_rounds_run draws start_size total_size lib _ 0%nat
                self s1 lg lg1 children0 Hres Hne Hc0 Hrounds)
      as (built & Hlen & Hb & Hc1).
    exists built. rewrite Hc in Hc1. inversion Hc1; subst.
    split; [reflexivity|]. split; [exact Hlen|exact Hb].
Qed.

(** Claim C8.  When [build_] returns, the child ensembles of the object are
    the ones it held before followed by one new child per round, each built
    as [built_by_round] says (over a subset of the library, seeded and
    extended by stepwise additions); and the set of the object is the one
    obtained from the empty set (whatever it held before) by adding, child
    after child, every [(model, weight)] pair of every child ensemble's set
    with that weight.  Hence the weight it records for a pipeline is the sum
    of the weights of the pairs of that pipeline over all children, and its
    total weight is the sum of the children's total weights.  (The children
    are tied to the rounds for an ensemble whose library property yields a
    non-empty library.) *)
Theorem build_merges (draws : nat -> nat -> nat -> list nat)
    (n_ensembles start_size total_size : Z)
    (self s' : Ensemble) (lg lg' : log) :
  build_ draws n_ensembles start_size total_size self lg = (OK tt, s', lg') ->
  exists children merged,
    _child_ensembles s' = Some children
    /\ Forall (fun c => _models c <> None) children
    /\ _models s' = Some merged
    /\ merged = replay (concat (map child_values children)) []
    /\ (forall p, weight_of p merged
                  = added_to p (concat (map child_values children)))
    /\ total merged = sum (map child_total children)
    /\ (forall children0 lib,
          _child_ensembles self = Some children0 ->
          (forall l, result_of (model_library self l) = OK lib) ->
          lib <> [] ->
          exists built,
            children = children0 ++ built
            /\ length built = Z.to_nat n_ensembles
            /\ forall i child,
                 nth_error built i = Some child ->
                 built_by_round (_metric self) (_y_true self)
                   (_child_ensemble_model_fraction self) lib (draws i)
                   start_size total_size child).
Proof.
  intros H.
  destruct (build_run draws n_ensembles start_size total_size self s' lg lg' H)
    as (children & merged & Hc & Hall & Hm & Hr & Hw & Ht & Hb).
  exists children, merged.
  split; [exact Hc|]. split; [exact Hall|]. split; [exact Hm|].
  split; [exact Hr|]. split; [exact Hw|]. split; [exact Ht|exact Hb].
Qed.

End Bagging.

(** Witness of [build_merges]: two bagging rounds on a new ensemble over
    the example library of five models.  Each round draws int(0.3 * 5) = 1
    model (round i the model at index i), seeds the child with it and adds
    it once more: two children, each holding its model at weight 2, and a
    merged set of pipelines 1 and 2 at weight 2 each. *)
Lemma build_merges_witness :
  (exists children merged,
      _child_ensembles (state_of example_bagging) = Some children
      /\ Forall (fun c => _models c <> None) children
      /\ _models (state_of example_bagging) = Some merged
      /\ merged = replay (concat (map child_values children)) []
      /\ (forall p, weight_of p merged
                    = added_to p (concat (map child_values children)))
      /\ total merged = sum (map child_total children)
      /\ (forall children0 lib,
            _child_ensembles (example_ensemble example_library)
            = Some children0 ->
            (forall l,
                result_of (model_library (W:=example_world)
                             (example_ensemble example_library) l) = OK lib) ->
            lib <> [] ->
            exists built,
              children = children0 ++ built
              /\ length built = Z.to_nat 2
              /\ forall i child,
                   nth_error built i = Some child ->
                   built_by_round (W:=example_world)
                     (_metric (example_ensemble example_library))
                     (_y_true (example_ensemble example_library))
                     (_child_ensemble_model_fraction
                        (example_ensemble example_library))
                     lib (example_draws i) 1 2 child))
  /\ option_map (map child_values) (_child_ensembles (state_of example_bagging))
     = Some [[(example_model 1 (9 # 10), 2%Z)];
             [(example_model 2 (8 # 10), 2%Z)]]
  /\ option_map values (_models (state_of example_bagging))
     = Some [(example_model 1 (9 # 10), 2%Z);
             (example_model 2 (8 # 10), 2%Z)].
Proof.
  split.
  - apply (build_merges (W:=example_world) example_draws 2 1 2
             (example_ensemble example_library) (state_of example_bagging)
             [] (log_of example_bagging)).
    vm_compute. reflexivity.
  - split; vm_compute; reflexivity.
Defined.

(** ** The accounting of the Weighted Model Set *)

Section Accounting.

Context {W : World}.

(** The amended form of claim C6.  Let the ensemble satisfy the invariant
    [inv]: no pipeline has two entries in its Weighted Model Set, every
    model is stored under its own pipeline, every weight is at least 1, and
    the same holds of the sets of its child ensembles.  Then:
    - the invariant holds after any sequence of seeding, stepwise-add and
      bagging operations, also when some of them raise;
    - adding a model whose pipeline is present sums the weights in its one
      entry, adding another makes one new entry, and either way the total
      weight grows by the added weight;
    - the set built from the empty set by a sequence of additions has as
      total weight the sum of the added weights (the number of additions
      when each adds 1), and records for each pipeline the sum of the
      weights added for it;
    - seeding with n that returns, over a cached library of L models, has
      emptied the set and made min(n, L) additions: the total weight is
      min(n, L), whatever it was before;
    - [add_models(n)] that returns has raised the total weight by n;
    - [build_] that returns has emptied the set and added to it every
      [(model, weight)] pair of every child ensemble, those held before and
      those its rounds built: the total weight is the sum of the weights so
      added, which is the sum of the children's total weights, whatever it
      was before. *)
Theorem weighted_set_accounting (ops : list op) (self : Ensemble) (lg : log) :
  inv self ->
  inv (fst (run_ops ops self lg))
  /\ (forall d m w,
        well_keyed d ->
        (forall m0 w0,
            dict_get (pipeline m) d = Some (m0, w0) ->
            dict_get (pipeline m) (add_to m w d) = Some (m0, (w0 + w)%Z)
            /\ length (add_to m w d) = length d)
        /\ (dict_get (pipeline m) d = None ->
            dict_get (pipeline m) (add_to m w d) = Some (m, w)
            /\ length (add_to m w d) = S (length d))
        /\ total (add_to m w d) = (total d + w)%Z)
  /\ (forall adds,
        total (replay adds []) = sum (map snd adds)
        /\ (Forall (fun a => snd a = 1%Z) adds ->
            total (replay adds []) = Z.of_nat (length adds))
        /\ (forall p, weight_of p (replay adds []) = added_to p adds))
  /\ (forall n lib s' lg',
        _model_library self = Some lib -> lib <> [] ->
        build_initial_ensemble n self lg = (OK tt, s', lg') ->
        exists d', _models s' = Some d'
                   /\ total d' = Z.min n (Z.of_nat (length lib)))
  /\ (forall n s' lg',
        add_models n self lg = (OK tt, s', lg') ->
        exists d d', _models self = Some d /\ _models s' = Some d'
                     /\ total d' = (total d + n)%Z)
  /\ (forall draws n_ensembles start_size total_size s' lg',
        build_ draws n_ensembles start_size total_size self lg
        = (OK tt, s', lg') ->
        exists children merged,
          _child_ensembles s' = Some children
          /\ _models s' = Some merged
          /\ merged = replay (concat (map child_values children)) []
          /\ total merged = sum (map snd (concat (map child_values children)))
          /\ total merged = sum (map child_total children)
          /\ (forall children0 lib,
                _child_ensembles self = Some children0 ->
                (forall l, result_of (model_library self l) = OK lib) ->
                lib <> [] ->
                exists built,
                  children = children0 ++ built
                  /\ length built = Z.to_nat n_ensembles
                  /\ forall i child,
                       nth_error built i = Some child ->
                       built_by_round (_metric self) (_y_true self)
                         (_child_ensemble_model_fraction self) lib (draws i)
                         start_size total_size child)).
Proof.
  intros HI. split; [now apply inv_run_ops|].
  split.
  { intros d m w Hwk. split; [|split].
    - intros m0 w0. now apply add_to_present.
    - now apply add_to_absent.
    - now apply total_add_to. }
  split.
  { intros adds.
    assert (Ht : total (replay adds []) = sum (map snd adds)).
    { rewrite total_replay by apply well_keyed_nil. rewrite total_nil. lia. }
    split; [exact Ht|]. split.
    - intros Hones. rewrite Ht. now apply sum_ones.
    - intros p. rewrite weight_of_replay by apply well_keyed_nil. simpl. lia. }
  split.
  { intros n lib s' lg' Hlib Hne H.
    destruct (seed_total n self s' lg lg' lib Hlib Hne H) as (d' & Hd' & _ & Ht).
    exists d'. auto. }
  split.
  { intros n s' lg' H. eapply add_models_total; [exact (proj1 HI)|exact H]. }
  intros draws n_ensembles start_size total_size s' lg' H.
  destruct (build_run draws n_ensembles start_size total_size self s' lg lg' H)
    as (children & merged & Hc & _ & Hm & Hr & _ & Ht & Hb).
  exists children, merged.
  split; [exact Hc|]. split; [exact Hm|]. split; [exact Hr|].
  split; [|split; [exact Ht|exact Hb]].
  rewrite Hr, total_replay by apply well_keyed_nil. rewrite total_nil. lia.
Qed.

End Accounting.

(** Witness of [weighted_set_accounting]: seeding with 2, then two stepwise
    additions, then a bagging call of two rounds, on a new ensemble over the
    example library. *)
Lemma weighted_set_accounting_witness :
  inv (example_ensemble example_library)
  /\ inv (fst (run_ops (W:=example_world)
                 [Seed 2; StepAdd 2; Bagging example_draws 2 1 2]
                 (example_ensemble example_library) []))
  /\ option_map total
       (_models (fst (run_ops (W:=example_world)
                        [Seed 2; StepAdd 2]
                        (example_ensemble example_library) [])))
     = Some 4%Z
  /\ option_map total
       (_models (fst (run_ops (W:=example_world)
                        [Seed 2; StepAdd 2; Bagging example_draws 2 1 2]
                        (example_ensemble example_library) [])))
     = Some 4%Z.
Proof.
  assert (HI : inv (example_ensemble example_library)).
  { split.
    - intros d Hd. inversion Hd. apply wf_dict_nil.
    - intros cs Hcs. inversion Hcs. constructor. }
  split; [exact HI|]. split.
  - exact (proj1 (weighted_set_accounting (W:=example_world)
                    [Seed 2; StepAdd 2; Bagging example_draws 2 1 2]
                    (example_ensemble example_library) [] HI)).
  - split; vm_compute; reflexivity.
Defined.

(** ** Loading without a directory *)

Section No_directory.

Context {W : World}.

Lemma load_files_without_directory (a : bool) (files : list file) :
  forall st,
    (exists f, In f files /\ is_pkl f = true) ->
    load_files None a files st = Raise TypeError.
Proof.
  induction files as [|f files IH]; intros st (f0 & Hin & Hp).
  - destruct Hin.
  - change (load_files None a (f :: files) st)
      with (bindR (load_file None a st f) (load_files None a files)).
    destruct (is_pkl f) eqn:Ef.
    + unfold load_file. destruct st as [models bound].
      unfold is_pkl in Ef. rewrite Ef. reflexivity.
    + rewrite (load_file_other None a st f Ef). simpl bindR.
      apply IH. exists f0. split; [|exact Hp].
      destruct Hin as [->|Hin]; [congruence|exact Hin].
Qed.

(** Property X24.
    [load_predictions(None)] lists the current directory, and raises
    TypeError at the first file whose name ends in [.pkl], when it joins the
    directory and the file name: no record is returned, whatever the files
    hold.  (An ensemble constructed over an empty library and no directory
    reaches this call on its first access to the library.) *)
Theorem load_predictions_without_directory (argmax_pred : bool)
    (files : list file) :
  listdir None = OK files ->
  (exists f, In f files /\ is_pkl f = true) ->
  load_predictions None argmax_pred = Raise TypeError.
Proof.
  intros Hl Hex. unfold load_predictions. rewrite Hl. simpl bindR.
  now apply load_files_without_directory.
Qed.

End No_directory.

(** Witness of [load_predictions_without_directory]. *)
Lemma load_predictions_without_directory_witness :
  load_predictions (W:=cwd_world) None false = Raise TypeError.
Proof.
  apply (load_predictions_without_directory (W:=cwd_world) false
           library_files).
  - reflexivity.
  - exists (example_file "a.pkl" 120 1 (9 # 10)).
    split; [now left|reflexivity].
Defined.
